(** * billfinder: the fetch-parse-filter-aggregate pipeline of [billfinder.py]

    A shallow embedding of [src/billfinder.py] and the properties its
    specification states about it.

    Modelling conventions.
    - A Python [str] is a list of Unicode code points ([str], a list of
      [char]).  The character classes [\d], [\s], [\w] of [re], the
      methods [str.strip], [str.lower] and the conversion [int] read the
      character database of the interpreter; the tables below are those of
      Unicode 14.0.0, the version CPython 3.11 ships.
    - Pattern literals are Latin-1 characters ([ascii]); with [re.I] a
      literal also matches the other characters [re] folds to it.
    - Python [int] is [Z]; a [float] is [pyfloat]; [None] is [option]'s
      [None].
    - An escaping exception is [None] in the result of the function that
      raises it.
    - The collaborators outside the program (HTTP transport, HTML parsing of
      the listing page, [html.unescape], the order in which the thread pool
      completes its futures, [time.sleep], [open], the interpreter's limit
      on the digits of an integer literal) are the fields of [env].
    - [print] calls are recorded as [event]s; the CSV writer receives the
      rows [main] returns. *)

From Stdlib Require Import ZArith NArith Lia Bool List Ascii String.
From Stdlib Require Import DecimalString DecimalZ DecimalPos.
From Stdlib Require Import Permutation Sorted.
From stdpp Require Import gmap list.
Import ListNotations.

Local Open Scope string_scope.
Local Open Scope list_scope.

(** ** Characters *)

(** A code point, and a Python [str]. *)
Abbreviation char := N (only parsing).
Abbreviation str := (list N) (only parsing).

Definition code (a : ascii) : char := N_of_ascii a.
Definition chars (s : string) : list ascii := list_ascii_of_string s.

(** The [str] written as a literal. *)
Definition str_of (s : string) : str := map code (chars s).

(** Membership in a table of ranges listed in ascending order. *)
Fixpoint in_ranges (rs : list (N * N)) (c : char) : bool :=
  match rs with
  | [] => false
  | (lo, hi) :: tl =>
      if (c <? lo)%N then false
      else if (c <=? hi)%N then true
      else in_ranges tl c
  end.

(** The position of [c] in the range that holds it. *)
Fixpoint offset_in (rs : list (N * N)) (c : char) : N :=
  match rs with
  | [] => 0
  | (lo, hi) :: tl =>
      if (c <? lo)%N then 0
      else if (c <=? hi)%N then c - lo
      else offset_in tl c
  end.

(** ** The character database (Unicode 14.0.0) *)

(** The characters for which [str.isspace] holds; [\s] of a [str] pattern and [str.strip] use this set. *)
Definition space_ranges : list (N * N) :=
  [ (0x9, 0xD); (0x1C, 0x20); (0x85, 0x85); (0xA0, 0xA0); (0x1680, 0x1680);
    (0x2000, 0x200A); (0x2028, 0x2029); (0x202F, 0x202F); (0x205F, 0x205F); (0x3000, 0x3000) ]%N.

(** The decimal digits ([str.isdecimal], the class [\d] of a [str] pattern), as runs of ten characters with the values 0 to 9. *)
Definition decimal_runs : list (N * N) :=
  [ (0x30, 0x39); (0x660, 0x669); (0x6F0, 0x6F9); (0x7C0, 0x7C9); (0x966, 0x96F);
    (0x9E6, 0x9EF); (0xA66, 0xA6F); (0xAE6, 0xAEF); (0xB66, 0xB6F); (0xBE6, 0xBEF);
    (0xC66, 0xC6F); (0xCE6, 0xCEF); (0xD66, 0xD6F); (0xDE6, 0xDEF); (0xE50, 0xE59);
    (0xED0, 0xED9); (0xF20, 0xF29); (0x1040, 0x1049); (0x1090, 0x1099); (0x17E0, 0x17E9);
    (0x1810, 0x1819); (0x1946, 0x194F); (0x19D0, 0x19D9); (0x1A80, 0x1A89); (0x1A90, 0x1A99);
    (0x1B50, 0x1B59); (0x1BB0, 0x1BB9); (0x1C40, 0x1C49); (0x1C50, 0x1C59); (0xA620, 0xA629);
    (0xA8D0, 0xA8D9); (0xA900, 0xA909); (0xA9D0, 0xA9D9); (0xA9F0, 0xA9F9); (0xAA50, 0xAA59);
    (0xABF0, 0xABF9); (0xFF10, 0xFF19); (0x104A0, 0x104A9); (0x10D30, 0x10D39); (0x11066, 0x1106F);
    (0x110F0, 0x110F9); (0x11136, 0x1113F); (0x111D0, 0x111D9); (0x112F0, 0x112F9); (0x11450, 0x11459);
    (0x114D0, 0x114D9); (0x11650, 0x11659); (0x116C0, 0x116C9); (0x11730, 0x11739); (0x118E0, 0x118E9);
    (0x11950, 0x11959); (0x11C50, 0x11C59); (0x11D50, 0x11D59); (0x11DA0, 0x11DA9); (0x16A60, 0x16A69);
    (0x16AC0, 0x16AC9); (0x16B50, 0x16B59); (0x1D7CE, 0x1D7D7); (0x1D7D8, 0x1D7E1); (0x1D7E2, 0x1D7EB);
    (0x1D7EC, 0x1D7F5); (0x1D7F6, 0x1D7FF); (0x1E140, 0x1E149); (0x1E2F0, 0x1E2F9); (0x1E950, 0x1E959);
    (0x1FBF0, 0x1FBF9) ]%N.

(** The characters for which [str.isalnum] holds. *)
Definition alnum_ranges : list (N * N) :=
  [ (0x30, 0x39); (0x41, 0x5A); (0x61, 0x7A); (0xAA, 0xAA); (0xB2, 0xB3);
    (0xB5, 0xB5); (0xB9, 0xBA); (0xBC, 0xBE); (0xC0, 0xD6); (0xD8, 0xF6);
    (0xF8, 0x2C1); (0x2C6, 0x2D1); (0x2E0, 0x2E4); (0x2EC, 0x2EC); (0x2EE, 0x2EE);
    (0x370, 0x374); (0x376, 0x377); (0x37A, 0x37D); (0x37F, 0x37F); (0x386, 0x386);
    (0x388, 0x38A); (0x38C, 0x38C); (0x38E, 0x3A1); (0x3A3, 0x3F5); (0x3F7, 0x481);
    (0x48A, 0x52F); (0x531, 0x556); (0x559, 0x559); (0x560, 0x588); (0x5D0, 0x5EA);
    (0x5EF, 0x5F2); (0x620, 0x64A); (0x660, 0x669); (0x66E, 0x66F); (0x671, 0x6D3);
    (0x6D5, 0x6D5); (0x6E5, 0x6E6); (0x6EE, 0x6FC); (0x6FF, 0x6FF); (0x710, 0x710);
    (0x712, 0x72F); (0x74D, 0x7A5); (0x7B1, 0x7B1); (0x7C0, 0x7EA); (0x7F4, 0x7F5);
    (0x7FA, 0x7FA); (0x800, 0x815); (0x81A, 0x81A); (0x824, 0x824); (0x828, 0x828);
    (0x840, 0x858); (0x860, 0x86A); (0x870, 0x887); (0x889, 0x88E); (0x8A0, 0x8C9);
    (0x904, 0x939); (0x93D, 0x93D); (0x950, 0x950); (0x958, 0x961); (0x966, 0x96F);
    (0x971, 0x980); (0x985, 0x98C); (0x98F, 0x990); (0x993, 0x9A8); (0x9AA, 0x9B0);
    (0x9B2, 0x9B2); (0x9B6, 0x9B9); (0x9BD, 0x9BD); (0x9CE, 0x9CE); (0x9DC, 0x9DD);
    (0x9DF, 0x9E1); (0x9E6, 0x9F1); (0x9F4, 0x9F9); (0x9FC, 0x9FC); (0xA05, 0xA0A);
    (0xA0F, 0xA10); (0xA13, 0xA28); (0xA2A, 0xA30); (0xA32, 0xA33); (0xA35, 0xA36);
    (0xA38, 0xA39); (0xA59, 0xA5C); (0xA5E, 0xA5E); (0xA66, 0xA6F); (0xA72, 0xA74);
    (0xA85, 0xA8D); (0xA8F, 0xA91); (0xA93, 0xAA8); (0xAAA, 0xAB0); (0xAB2, 0xAB3);
    (0xAB5, 0xAB9); (0xABD, 0xABD); (0xAD0, 0xAD0); (0xAE0, 0xAE1); (0xAE6, 0xAEF);
    (0xAF9, 0xAF9); (0xB05, 0xB0C); (0xB0F, 0xB10); (0xB13, 0xB28); (0xB2A, 0xB30);
    (0xB32, 0xB33); (0xB35, 0xB39); (0xB3D, 0xB3D); (0xB5C, 0xB5D); (0xB5F, 0xB61);
    (0xB66, 0xB6F); (0xB71, 0xB77); (0xB83, 0xB83); (0xB85, 0xB8A); (0xB8E, 0xB90);
    (0xB92, 0xB95); (0xB99, 0xB9A); (0xB9C, 0xB9C); (0xB9E, 0xB9F); (0xBA3, 0xBA4);
    (0xBA8, 0xBAA); (0xBAE, 0xBB9); (0xBD0, 0xBD0); (0xBE6, 0xBF2); (0xC05, 0xC0C);
    (0xC0E, 0xC10); (0xC12, 0xC28); (0xC2A, 0xC39); (0xC3D, 0xC3D); (0xC58, 0xC5A);
    (0xC5D, 0xC5D); (0xC60, 0xC61); (0xC66, 0xC6F); (0xC78, 0xC7E); (0xC80, 0xC80);
    (0xC85, 0xC8C); (0xC8E, 0xC90); (0xC92, 0xCA8); (0xCAA, 0xCB3); (0xCB5, 0xCB9);
    (0xCBD, 0xCBD); (0xCDD, 0xCDE); (0xCE0, 0xCE1); (0xCE6, 0xCEF); (0xCF1, 0xCF2);
    (0xD04, 0xD0C); (0xD0E, 0xD10); (0xD12, 0xD3A); (0xD3D, 0xD3D); (0xD4E, 0xD4E);
    (0xD54, 0xD56); (0xD58, 0xD61); (0xD66, 0xD78); (0xD7A, 0xD7F); (0xD85, 0xD96);
    (0xD9A, 0xDB1); (0xDB3, 0xDBB); (0xDBD, 0xDBD); (0xDC0, 0xDC6); (0xDE6, 0xDEF);
    (0xE01, 0xE30); (0xE32, 0xE33); (0xE40, 0xE46); (0xE50, 0xE59); (0xE81, 0xE82);
    (0xE84, 0xE84); (0xE86, 0xE8A); (0xE8C, 0xEA3); (0xEA5, 0xEA5); (0xEA7, 0xEB0);
    (0xEB2, 0xEB3); (0xEBD, 0xEBD); (0xEC0, 0xEC4); (0xEC6, 0xEC6); (0xED0, 0xED9);
    (0xEDC, 0xEDF); (0xF00, 0xF00); (0xF20, 0xF33); (0xF40, 0xF47); (0xF49, 0xF6C);
    (0xF88, 0xF8C); (0x1000, 0x102A); (0x103F, 0x1049); (0x1050, 0x1055); (0x105A, 0x105D);
    (0x1061, 0x1061); (0x1065, 0x1066); (0x106E, 0x1070); (0x1075, 0x1081); (0x108E, 0x108E);
    (0x1090, 0x1099); (0x10A0, 0x10C5); (0x10C7, 0x10C7); (0x10CD, 0x10CD); (0x10D0, 0x10FA);
    (0x10FC, 0x1248); (0x124A, 0x124D); (0x1250, 0x1256); (0x1258, 0x1258); (0x125A, 0x125D);
    (0x1260, 0x1288); (0x128A, 0x128D); (0x1290, 0x12B0); (0x12B2, 0x12B5); (0x12B8, 0x12BE);
    (0x12C0, 0x12C0); (0x12C2, 0x12C5); (0x12C8, 0x12D6); (0x12D8, 0x1310); (0x1312, 0x1315);
    (0x1318, 0x135A); (0x1369, 0x137C); (0x1380, 0x138F); (0x13A0, 0x13F5); (0x13F8, 0x13FD);
    (0x1401, 0x166C); (0x166F, 0x167F); (0x1681, 0x169A); (0x16A0, 0x16EA); (0x16EE, 0x16F8);
    (0x1700, 0x1711); (0x171F, 0x1731); (0x1740, 0x1751); (0x1760, 0x176C); (0x176E, 0x1770);
    (0x1780, 0x17B3); (0x17D7, 0x17D7); (0x17DC, 0x17DC); (0x17E0, 0x17E9); (0x17F0, 0x17F9);
    (0x1810, 0x1819); (0x1820, 0x1878); (0x1880, 0x1884); (0x1887, 0x18A8); (0x18AA, 0x18AA);
    (0x18B0, 0x18F5); (0x1900, 0x191E); (0x1946, 0x196D); (0x1970, 0x1974); (0x1980, 0x19AB);
    (0x19B0, 0x19C9); (0x19D0, 0x19DA); (0x1A00, 0x1A16); (0x1A20, 0x1A54); (0x1A80, 0x1A89);
    (0x1A90, 0x1A99); (0x1AA7, 0x1AA7); (0x1B05, 0x1B33); (0x1B45, 0x1B4C); (0x1B50, 0x1B59);
    (0x1B83, 0x1BA0); (0x1BAE, 0x1BE5); (0x1C00, 0x1C23); (0x1C40, 0x1C49); (0x1C4D, 0x1C7D);
    (0x1C80, 0x1C88); (0x1C90, 0x1CBA); (0x1CBD, 0x1CBF); (0x1CE9, 0x1CEC); (0x1CEE, 0x1CF3);
    (0x1CF5, 0x1CF6); (0x1CFA, 0x1CFA); (0x1D00, 0x1DBF); (0x1E00, 0x1F15); (0x1F18, 0x1F1D);
    (0x1F20, 0x1F45); (0x1F48, 0x1F4D); (0x1F50, 0x1F57); (0x1F59, 0x1F59); (0x1F5B, 0x1F5B);
    (0x1F5D, 0x1F5D); (0x1F5F, 0x1F7D); (0x1F80, 0x1FB4); (0x1FB6, 0x1FBC); (0x1FBE, 0x1FBE);
    (0x1FC2, 0x1FC4); (0x1FC6, 0x1FCC); (0x1FD0, 0x1FD3); (0x1FD6, 0x1FDB); (0x1FE0, 0x1FEC);
    (0x1FF2, 0x1FF4); (0x1FF6, 0x1FFC); (0x2070, 0x2071); (0x2074, 0x2079); (0x207F, 0x2089);
    (0x2090, 0x209C); (0x2102, 0x2102); (0x2107, 0x2107); (0x210A, 0x2113); (0x2115, 0x2115);
    (0x2119, 0x211D); (0x2124, 0x2124); (0x2126, 0x2126); (0x2128, 0x2128); (0x212A, 0x212D);
    (0x212F, 0x2139); (0x213C, 0x213F); (0x2145, 0x2149); (0x214E, 0x214E); (0x2150, 0x2189);
    (0x2460, 0x249B); (0x24EA, 0x24FF); (0x2776, 0x2793); (0x2C00, 0x2CE4); (0x2CEB, 0x2CEE);
    (0x2CF2, 0x2CF3); (0x2CFD, 0x2CFD); (0x2D00, 0x2D25); (0x2D27, 0x2D27); (0x2D2D, 0x2D2D);
    (0x2D30, 0x2D67); (0x2D6F, 0x2D6F); (0x2D80, 0x2D96); (0x2DA0, 0x2DA6); (0x2DA8, 0x2DAE);
    (0x2DB0, 0x2DB6); (0x2DB8, 0x2DBE); (0x2DC0, 0x2DC6); (0x2DC8, 0x2DCE); (0x2DD0, 0x2DD6);
    (0x2DD8, 0x2DDE); (0x2E2F, 0x2E2F); (0x3005, 0x3007); (0x3021, 0x3029); (0x3031, 0x3035);
    (0x3038, 0x303C); (0x3041, 0x3096); (0x309D, 0x309F); (0x30A1, 0x30FA); (0x30FC, 0x30FF);
    (0x3105, 0x312F); (0x3131, 0x318E); (0x3192, 0x3195); (0x31A0, 0x31BF); (0x31F0, 0x31FF);
    (0x3220, 0x3229); (0x3248, 0x324F); (0x3251, 0x325F); (0x3280, 0x3289); (0x32B1, 0x32BF);
    (0x3400, 0x4DBF); (0x4E00, 0xA48C); (0xA4D0, 0xA4FD); (0xA500, 0xA60C); (0xA610, 0xA62B);
    (0xA640, 0xA66E); (0xA67F, 0xA69D); (0xA6A0, 0xA6EF); (0xA717, 0xA71F); (0xA722, 0xA788);
    (0xA78B, 0xA7CA); (0xA7D0, 0xA7D1); (0xA7D3, 0xA7D3); (0xA7D5, 0xA7D9); (0xA7F2, 0xA801);
    (0xA803, 0xA805); (0xA807, 0xA80A); (0xA80C, 0xA822); (0xA830, 0xA835); (0xA840, 0xA873);
    (0xA882, 0xA8B3); (0xA8D0, 0xA8D9); (0xA8F2, 0xA8F7); (0xA8FB, 0xA8FB); (0xA8FD, 0xA8FE);
    (0xA900, 0xA925); (0xA930, 0xA946); (0xA960, 0xA97C); (0xA984, 0xA9B2); (0xA9CF, 0xA9D9);
    (0xA9E0, 0xA9E4); (0xA9E6, 0xA9FE); (0xAA00, 0xAA28); (0xAA40, 0xAA42); (0xAA44, 0xAA4B);
    (0xAA50, 0xAA59); (0xAA60, 0xAA76); (0xAA7A, 0xAA7A); (0xAA7E, 0xAAAF); (0xAAB1, 0xAAB1);
    (0xAAB5, 0xAAB6); (0xAAB9, 0xAABD); (0xAAC0, 0xAAC0); (0xAAC2, 0xAAC2); (0xAADB, 0xAADD);
    (0xAAE0, 0xAAEA); (0xAAF2, 0xAAF4); (0xAB01, 0xAB06); (0xAB09, 0xAB0E); (0xAB11, 0xAB16);
    (0xAB20, 0xAB26); (0xAB28, 0xAB2E); (0xAB30, 0xAB5A); (0xAB5C, 0xAB69); (0xAB70, 0xABE2);
    (0xABF0, 0xABF9); (0xAC00, 0xD7A3); (0xD7B0, 0xD7C6); (0xD7CB, 0xD7FB); (0xF900, 0xFA6D);
    (0xFA70, 0xFAD9); (0xFB00, 0xFB06); (0xFB13, 0xFB17); (0xFB1D, 0xFB1D); (0xFB1F, 0xFB28);
    (0xFB2A, 0xFB36); (0xFB38, 0xFB3C); (0xFB3E, 0xFB3E); (0xFB40, 0xFB41); (0xFB43, 0xFB44);
    (0xFB46, 0xFBB1); (0xFBD3, 0xFD3D); (0xFD50, 0xFD8F); (0xFD92, 0xFDC7); (0xFDF0, 0xFDFB);
    (0xFE70, 0xFE74); (0xFE76, 0xFEFC); (0xFF10, 0xFF19); (0xFF21, 0xFF3A); (0xFF41, 0xFF5A);
    (0xFF66, 0xFFBE); (0xFFC2, 0xFFC7); (0xFFCA, 0xFFCF); (0xFFD2, 0xFFD7); (0xFFDA, 0xFFDC);
    (0x10000, 0x1000B); (0x1000D, 0x10026); (0x10028, 0x1003A); (0x1003C, 0x1003D); (0x1003F, 0x1004D);
    (0x10050, 0x1005D); (0x10080, 0x100FA); (0x10107, 0x10133); (0x10140, 0x10178); (0x1018A, 0x1018B);
    (0x10280, 0x1029C); (0x102A0, 0x102D0); (0x102E1, 0x102FB); (0x10300, 0x10323); (0x1032D, 0x1034A);
    (0x10350, 0x10375); (0x10380, 0x1039D); (0x103A0, 0x103C3); (0x103C8, 0x103CF); (0x103D1, 0x103D5);
    (0x10400, 0x1049D); (0x104A0, 0x104A9); (0x104B0, 0x104D3); (0x104D8, 0x104FB); (0x10500, 0x10527);
    (0x10530, 0x10563); (0x10570, 0x1057A); (0x1057C, 0x1058A); (0x1058C, 0x10592); (0x10594, 0x10595);
    (0x10597, 0x105A1); (0x105A3, 0x105B1); (0x105B3, 0x105B9); (0x105BB, 0x105BC); (0x10600, 0x10736);
    (0x10740, 0x10755); (0x10760, 0x10767); (0x10780, 0x10785); (0x10787, 0x107B0); (0x107B2, 0x107BA);
    (0x10800, 0x10805); (0x10808, 0x10808); (0x1080A, 0x10835); (0x10837, 0x10838); (0x1083C, 0x1083C);
    (0x1083F, 0x10855); (0x10858, 0x10876); (0x10879, 0x1089E); (0x108A7, 0x108AF); (0x108E0, 0x108F2);
    (0x108F4, 0x108F5); (0x108FB, 0x1091B); (0x10920, 0x10939); (0x10980, 0x109B7); (0x109BC, 0x109CF);
    (0x109D2, 0x10A00); (0x10A10, 0x10A13); (0x10A15, 0x10A17); (0x10A19, 0x10A35); (0x10A40, 0x10A48);
    (0x10A60, 0x10A7E); (0x10A80, 0x10A9F); (0x10AC0, 0x10AC7); (0x10AC9, 0x10AE4); (0x10AEB, 0x10AEF);
    (0x10B00, 0x10B35); (0x10B40, 0x10B55); (0x10B58, 0x10B72); (0x10B78, 0x10B91); (0x10BA9, 0x10BAF);
    (0x10C00, 0x10C48); (0x10C80, 0x10CB2); (0x10CC0, 0x10CF2); (0x10CFA, 0x10D23); (0x10D30, 0x10D39);
    (0x10E60, 0x10E7E); (0x10E80, 0x10EA9); (0x10EB0, 0x10EB1); (0x10F00, 0x10F27); (0x10F30, 0x10F45);
    (0x10F51, 0x10F54); (0x10F70, 0x10F81); (0x10FB0, 0x10FCB); (0x10FE0, 0x10FF6); (0x11003, 0x11037);
    (0x11052, 0x1106F); (0x11071, 0x11072); (0x11075, 0x11075); (0x11083, 0x110AF); (0x110D0, 0x110E8);
    (0x110F0, 0x110F9); (0x11103, 0x11126); (0x11136, 0x1113F); (0x11144, 0x11144); (0x11147, 0x11147);
    (0x11150, 0x11172); (0x11176, 0x11176); (0x11183, 0x111B2); (0x111C1, 0x111C4); (0x111D0, 0x111DA);
    (0x111DC, 0x111DC); (0x111E1, 0x111F4); (0x11200, 0x11211); (0x11213, 0x1122B); (0x11280, 0x11286);
    (0x11288, 0x11288); (0x1128A, 0x1128D); (0x1128F, 0x1129D); (0x1129F, 0x112A8); (0x112B0, 0x112DE);
    (0x112F0, 0x112F9); (0x11305, 0x1130C); (0x1130F, 0x11310); (0x11313, 0x11328); (0x1132A, 0x11330);
    (0x11332, 0x11333); (0x11335, 0x11339); (0x1133D, 0x1133D); (0x11350, 0x11350); (0x1135D, 0x11361);
    (0x11400, 0x11434); (0x11447, 0x1144A); (0x11450, 0x11459); (0x1145F, 0x11461); (0x11480, 0x114AF);
    (0x114C4, 0x114C5); (0x114C7, 0x114C7); (0x114D0, 0x114D9); (0x11580, 0x115AE); (0x115D8, 0x115DB);
    (0x11600, 0x1162F); (0x11644, 0x11644); (0x11650, 0x11659); (0x11680, 0x116AA); (0x116B8, 0x116B8);
    (0x116C0, 0x116C9); (0x11700, 0x1171A); (0x11730, 0x1173B); (0x11740, 0x11746); (0x11800, 0x1182B);
    (0x118A0, 0x118F2); (0x118FF, 0x11906); (0x11909, 0x11909); (0x1190C, 0x11913); (0x11915, 0x11916);
    (0x11918, 0x1192F); (0x1193F, 0x1193F); (0x11941, 0x11941); (0x11950, 0x11959); (0x119A0, 0x119A7);
    (0x119AA, 0x119D0); (0x119E1, 0x119E1); (0x119E3, 0x119E3); (0x11A00, 0x11A00); (0x11A0B, 0x11A32);
    (0x11A3A, 0x11A3A); (0x11A50, 0x11A50); (0x11A5C, 0x11A89); (0x11A9D, 0x11A9D); (0x11AB0, 0x11AF8);
    (0x11C00, 0x11C08); (0x11C0A, 0x11C2E); (0x11C40, 0x11C40); (0x11C50, 0x11C6C); (0x11C72, 0x11C8F);
    (0x11D00, 0x11D06); (0x11D08, 0x11D09); (0x11D0B, 0x11D30); (0x11D46, 0x11D46); (0x11D50, 0x11D59);
    (0x11D60, 0x11D65); (0x11D67, 0x11D68); (0x11D6A, 0x11D89); (0x11D98, 0x11D98); (0x11DA0, 0x11DA9);
    (0x11EE0, 0x11EF2); (0x11FB0, 0x11FB0); (0x11FC0, 0x11FD4); (0x12000, 0x12399); (0x12400, 0x1246E);
    (0x12480, 0x12543); (0x12F90, 0x12FF0); (0x13000, 0x1342E); (0x14400, 0x14646); (0x16800, 0x16A38);
    (0x16A40, 0x16A5E); (0x16A60, 0x16A69); (0x16A70, 0x16ABE); (0x16AC0, 0x16AC9); (0x16AD0, 0x16AED);
    (0x16B00, 0x16B2F); (0x16B40, 0x16B43); (0x16B50, 0x16B59); (0x16B5B, 0x16B61); (0x16B63, 0x16B77);
    (0x16B7D, 0x16B8F); (0x16E40, 0x16E96); (0x16F00, 0x16F4A); (0x16F50, 0x16F50); (0x16F93, 0x16F9F);
    (0x16FE0, 0x16FE1); (0x16FE3, 0x16FE3); (0x17000, 0x187F7); (0x18800, 0x18CD5); (0x18D00, 0x18D08);
    (0x1AFF0, 0x1AFF3); (0x1AFF5, 0x1AFFB); (0x1AFFD, 0x1AFFE); (0x1B000, 0x1B122); (0x1B150, 0x1B152);
    (0x1B164, 0x1B167); (0x1B170, 0x1B2FB); (0x1BC00, 0x1BC6A); (0x1BC70, 0x1BC7C); (0x1BC80, 0x1BC88);
    (0x1BC90, 0x1BC99); (0x1D2E0, 0x1D2F3); (0x1D360, 0x1D378); (0x1D400, 0x1D454); (0x1D456, 0x1D49C);
    (0x1D49E, 0x1D49F); (0x1D4A2, 0x1D4A2); (0x1D4A5, 0x1D4A6); (0x1D4A9, 0x1D4AC); (0x1D4AE, 0x1D4B9);
    (0x1D4BB, 0x1D4BB); (0x1D4BD, 0x1D4C3); (0x1D4C5, 0x1D505); (0x1D507, 0x1D50A); (0x1D50D, 0x1D514);
    (0x1D516, 0x1D51C); (0x1D51E, 0x1D539); (0x1D53B, 0x1D53E); (0x1D540, 0x1D544); (0x1D546, 0x1D546);
    (0x1D54A, 0x1D550); (0x1D552, 0x1D6A5); (0x1D6A8, 0x1D6C0); (0x1D6C2, 0x1D6DA); (0x1D6DC, 0x1D6FA);
    (0x1D6FC, 0x1D714); (0x1D716, 0x1D734); (0x1D736, 0x1D74E); (0x1D750, 0x1D76E); (0x1D770, 0x1D788);
    (0x1D78A, 0x1D7A8); (0x1D7AA, 0x1D7C2); (0x1D7C4, 0x1D7CB); (0x1D7CE, 0x1D7FF); (0x1DF00, 0x1DF1E);
    (0x1E100, 0x1E12C); (0x1E137, 0x1E13D); (0x1E140, 0x1E149); (0x1E14E, 0x1E14E); (0x1E290, 0x1E2AD);
    (0x1E2C0, 0x1E2EB); (0x1E2F0, 0x1E2F9); (0x1E7E0, 0x1E7E6); (0x1E7E8, 0x1E7EB); (0x1E7ED, 0x1E7EE);
    (0x1E7F0, 0x1E7FE); (0x1E800, 0x1E8C4); (0x1E8C7, 0x1E8CF); (0x1E900, 0x1E943); (0x1E94B, 0x1E94B);
    (0x1E950, 0x1E959); (0x1EC71, 0x1ECAB); (0x1ECAD, 0x1ECAF); (0x1ECB1, 0x1ECB4); (0x1ED01, 0x1ED2D);
    (0x1ED2F, 0x1ED3D); (0x1EE00, 0x1EE03); (0x1EE05, 0x1EE1F); (0x1EE21, 0x1EE22); (0x1EE24, 0x1EE24);
    (0x1EE27, 0x1EE27); (0x1EE29, 0x1EE32); (0x1EE34, 0x1EE37); (0x1EE39, 0x1EE39); (0x1EE3B, 0x1EE3B);
    (0x1EE42, 0x1EE42); (0x1EE47, 0x1EE47); (0x1EE49, 0x1EE49); (0x1EE4B, 0x1EE4B); (0x1EE4D, 0x1EE4F);
    (0x1EE51, 0x1EE52); (0x1EE54, 0x1EE54); (0x1EE57, 0x1EE57); (0x1EE59, 0x1EE59); (0x1EE5B, 0x1EE5B);
    (0x1EE5D, 0x1EE5D); (0x1EE5F, 0x1EE5F); (0x1EE61, 0x1EE62); (0x1EE64, 0x1EE64); (0x1EE67, 0x1EE6A);
    (0x1EE6C, 0x1EE72); (0x1EE74, 0x1EE77); (0x1EE79, 0x1EE7C); (0x1EE7E, 0x1EE7E); (0x1EE80, 0x1EE89);
    (0x1EE8B, 0x1EE9B); (0x1EEA1, 0x1EEA3); (0x1EEA5, 0x1EEA9); (0x1EEAB, 0x1EEBB); (0x1F100, 0x1F10C);
    (0x1FBF0, 0x1FBF9); (0x20000, 0x2A6DF); (0x2A700, 0x2B738); (0x2B740, 0x2B81D); (0x2B820, 0x2CEA1);
    (0x2CEB0, 0x2EBE0); (0x2F800, 0x2FA1D); (0x30000, 0x3134A) ]%N.

(** The one-to-one part of the lower-case mapping: the characters [lo], [lo + step], ..., up to [hi], map to [dst], [dst + step], ...  The entries are [(lo, hi, step, dst)]. *)
Definition lower_runs : list (N * N * N * N) :=
  [ (0x41, 0x5A, 1, 0x61); (0xC0, 0xD6, 1, 0xE0); (0xD8, 0xDE, 1, 0xF8);
    (0x100, 0x12E, 2, 0x101); (0x132, 0x136, 2, 0x133); (0x139, 0x147, 2, 0x13A);
    (0x14A, 0x176, 2, 0x14B); (0x178, 0x178, 1, 0xFF); (0x179, 0x17D, 2, 0x17A);
    (0x181, 0x181, 1, 0x253); (0x182, 0x184, 2, 0x183); (0x186, 0x186, 1, 0x254);
    (0x187, 0x187, 1, 0x188); (0x189, 0x18A, 1, 0x256); (0x18B, 0x18B, 1, 0x18C);
    (0x18E, 0x18E, 1, 0x1DD); (0x18F, 0x18F, 1, 0x259); (0x190, 0x190, 1, 0x25B);
    (0x191, 0x191, 1, 0x192); (0x193, 0x193, 1, 0x260); (0x194, 0x194, 1, 0x263);
    (0x196, 0x196, 1, 0x269); (0x197, 0x197, 1, 0x268); (0x198, 0x198, 1, 0x199);
    (0x19C, 0x19C, 1, 0x26F); (0x19D, 0x19D, 1, 0x272); (0x19F, 0x19F, 1, 0x275);
    (0x1A0, 0x1A4, 2, 0x1A1); (0x1A6, 0x1A6, 1, 0x280); (0x1A7, 0x1A7, 1, 0x1A8);
    (0x1A9, 0x1A9, 1, 0x283); (0x1AC, 0x1AC, 1, 0x1AD); (0x1AE, 0x1AE, 1, 0x288);
    (0x1AF, 0x1AF, 1, 0x1B0); (0x1B1, 0x1B2, 1, 0x28A); (0x1B3, 0x1B5, 2, 0x1B4);
    (0x1B7, 0x1B7, 1, 0x292); (0x1B8, 0x1B8, 1, 0x1B9); (0x1BC, 0x1BC, 1, 0x1BD);
    (0x1C4, 0x1C4, 1, 0x1C6); (0x1C5, 0x1C5, 1, 0x1C6); (0x1C7, 0x1C7, 1, 0x1C9);
    (0x1C8, 0x1C8, 1, 0x1C9); (0x1CA, 0x1CA, 1, 0x1CC); (0x1CB, 0x1DB, 2, 0x1CC);
    (0x1DE, 0x1EE, 2, 0x1DF); (0x1F1, 0x1F1, 1, 0x1F3); (0x1F2, 0x1F4, 2, 0x1F3);
    (0x1F6, 0x1F6, 1, 0x195); (0x1F7, 0x1F7, 1, 0x1BF); (0x1F8, 0x21E, 2, 0x1F9);
    (0x220, 0x220, 1, 0x19E); (0x222, 0x232, 2, 0x223); (0x23A, 0x23A, 1, 0x2C65);
    (0x23B, 0x23B, 1, 0x23C); (0x23D, 0x23D, 1, 0x19A); (0x23E, 0x23E, 1, 0x2C66);
    (0x241, 0x241, 1, 0x242); (0x243, 0x243, 1, 0x180); (0x244, 0x244, 1, 0x289);
    (0x245, 0x245, 1, 0x28C); (0x246, 0x24E, 2, 0x247); (0x370, 0x372, 2, 0x371);
    (0x376, 0x376, 1, 0x377); (0x37F, 0x37F, 1, 0x3F3); (0x386, 0x386, 1, 0x3AC);
    (0x388, 0x38A, 1, 0x3AD); (0x38C, 0x38C, 1, 0x3CC); (0x38E, 0x38F, 1, 0x3CD);
    (0x391, 0x3A1, 1, 0x3B1); (0x3A3, 0x3AB, 1, 0x3C3); (0x3CF, 0x3CF, 1, 0x3D7);
    (0x3D8, 0x3EE, 2, 0x3D9); (0x3F4, 0x3F4, 1, 0x3B8); (0x3F7, 0x3F7, 1, 0x3F8);
    (0x3F9, 0x3F9, 1, 0x3F2); (0x3FA, 0x3FA, 1, 0x3FB); (0x3FD, 0x3FF, 1, 0x37B);
    (0x400, 0x40F, 1, 0x450); (0x410, 0x42F, 1, 0x430); (0x460, 0x480, 2, 0x461);
    (0x48A, 0x4BE, 2, 0x48B); (0x4C0, 0x4C0, 1, 0x4CF); (0x4C1, 0x4CD, 2, 0x4C2);
    (0x4D0, 0x52E, 2, 0x4D1); (0x531, 0x556, 1, 0x561); (0x10A0, 0x10C5, 1, 0x2D00);
    (0x10C7, 0x10C7, 1, 0x2D27); (0x10CD, 0x10CD, 1, 0x2D2D); (0x13A0, 0x13EF, 1, 0xAB70);
    (0x13F0, 0x13F5, 1, 0x13F8); (0x1C90, 0x1CBA, 1, 0x10D0); (0x1CBD, 0x1CBF, 1, 0x10FD);
    (0x1E00, 0x1E94, 2, 0x1E01); (0x1E9E, 0x1E9E, 1, 0xDF); (0x1EA0, 0x1EFE, 2, 0x1EA1);
    (0x1F08, 0x1F0F, 1, 0x1F00); (0x1F18, 0x1F1D, 1, 0x1F10); (0x1F28, 0x1F2F, 1, 0x1F20);
    (0x1F38, 0x1F3F, 1, 0x1F30); (0x1F48, 0x1F4D, 1, 0x1F40); (0x1F59, 0x1F5F, 2, 0x1F51);
    (0x1F68, 0x1F6F, 1, 0x1F60); (0x1F88, 0x1F8F, 1, 0x1F80); (0x1F98, 0x1F9F, 1, 0x1F90);
    (0x1FA8, 0x1FAF, 1, 0x1FA0); (0x1FB8, 0x1FB9, 1, 0x1FB0); (0x1FBA, 0x1FBB, 1, 0x1F70);
    (0x1FBC, 0x1FBC, 1, 0x1FB3); (0x1FC8, 0x1FCB, 1, 0x1F72); (0x1FCC, 0x1FCC, 1, 0x1FC3);
    (0x1FD8, 0x1FD9, 1, 0x1FD0); (0x1FDA, 0x1FDB, 1, 0x1F76); (0x1FE8, 0x1FE9, 1, 0x1FE0);
    (0x1FEA, 0x1FEB, 1, 0x1F7A); (0x1FEC, 0x1FEC, 1, 0x1FE5); (0x1FF8, 0x1FF9, 1, 0x1F78);
    (0x1FFA, 0x1FFB, 1, 0x1F7C); (0x1FFC, 0x1FFC, 1, 0x1FF3); (0x2126, 0x2126, 1, 0x3C9);
    (0x212A, 0x212A, 1, 0x6B); (0x212B, 0x212B, 1, 0xE5); (0x2132, 0x2132, 1, 0x214E);
    (0x2160, 0x216F, 1, 0x2170); (0x2183, 0x2183, 1, 0x2184); (0x24B6, 0x24CF, 1, 0x24D0);
    (0x2C00, 0x2C2F, 1, 0x2C30); (0x2C60, 0x2C60, 1, 0x2C61); (0x2C62, 0x2C62, 1, 0x26B);
    (0x2C63, 0x2C63, 1, 0x1D7D); (0x2C64, 0x2C64, 1, 0x27D); (0x2C67, 0x2C6B, 2, 0x2C68);
    (0x2C6D, 0x2C6D, 1, 0x251); (0x2C6E, 0x2C6E, 1, 0x271); (0x2C6F, 0x2C6F, 1, 0x250);
    (0x2C70, 0x2C70, 1, 0x252); (0x2C72, 0x2C72, 1, 0x2C73); (0x2C75, 0x2C75, 1, 0x2C76);
    (0x2C7E, 0x2C7F, 1, 0x23F); (0x2C80, 0x2CE2, 2, 0x2C81); (0x2CEB, 0x2CED, 2, 0x2CEC);
    (0x2CF2, 0x2CF2, 1, 0x2CF3); (0xA640, 0xA66C, 2, 0xA641); (0xA680, 0xA69A, 2, 0xA681);
    (0xA722, 0xA72E, 2, 0xA723); (0xA732, 0xA76E, 2, 0xA733); (0xA779, 0xA77B, 2, 0xA77A);
    (0xA77D, 0xA77D, 1, 0x1D79); (0xA77E, 0xA786, 2, 0xA77F); (0xA78B, 0xA78B, 1, 0xA78C);
    (0xA78D, 0xA78D, 1, 0x265); (0xA790, 0xA792, 2, 0xA791); (0xA796, 0xA7A8, 2, 0xA797);
    (0xA7AA, 0xA7AA, 1, 0x266); (0xA7AB, 0xA7AB, 1, 0x25C); (0xA7AC, 0xA7AC, 1, 0x261);
    (0xA7AD, 0xA7AD, 1, 0x26C); (0xA7AE, 0xA7AE, 1, 0x26A); (0xA7B0, 0xA7B0, 1, 0x29E);
    (0xA7B1, 0xA7B1, 1, 0x287); (0xA7B2, 0xA7B2, 1, 0x29D); (0xA7B3, 0xA7B3, 1, 0xAB53);
    (0xA7B4, 0xA7C2, 2, 0xA7B5); (0xA7C4, 0xA7C4, 1, 0xA794); (0xA7C5, 0xA7C5, 1, 0x282);
    (0xA7C6, 0xA7C6, 1, 0x1D8E); (0xA7C7, 0xA7C9, 2, 0xA7C8); (0xA7D0, 0xA7D0, 1, 0xA7D1);
    (0xA7D6, 0xA7D8, 2, 0xA7D7); (0xA7F5, 0xA7F5, 1, 0xA7F6); (0xFF21, 0xFF3A, 1, 0xFF41);
    (0x10400, 0x10427, 1, 0x10428); (0x104B0, 0x104D3, 1, 0x104D8); (0x10570, 0x1057A, 1, 0x10597);
    (0x1057C, 0x1058A, 1, 0x105A3); (0x1058C, 0x10592, 1, 0x105B3); (0x10594, 0x10595, 1, 0x105BB);
    (0x10C80, 0x10CB2, 1, 0x10CC0); (0x118A0, 0x118BF, 1, 0x118C0); (0x16E40, 0x16E5F, 1, 0x16E60);
    (0x1E900, 0x1E921, 1, 0x1E922) ]%N.

(** The cased characters that are not case-ignorable. *)
Definition cased_ranges : list (N * N) :=
  [ (0x41, 0x5A); (0x61, 0x7A); (0xAA, 0xAA); (0xB5, 0xB5); (0xBA, 0xBA);
    (0xC0, 0xD6); (0xD8, 0xF6); (0xF8, 0x1BA); (0x1BC, 0x1BF); (0x1C4, 0x293);
    (0x295, 0x2AF); (0x370, 0x373); (0x376, 0x377); (0x37B, 0x37D); (0x37F, 0x37F);
    (0x386, 0x386); (0x388, 0x38A); (0x38C, 0x38C); (0x38E, 0x3A1); (0x3A3, 0x3F5);
    (0x3F7, 0x481); (0x48A, 0x52F); (0x531, 0x556); (0x560, 0x588); (0x10A0, 0x10C5);
    (0x10C7, 0x10C7); (0x10CD, 0x10CD); (0x10D0, 0x10FA); (0x10FD, 0x10FF); (0x13A0, 0x13F5);
    (0x13F8, 0x13FD); (0x1C80, 0x1C88); (0x1C90, 0x1CBA); (0x1CBD, 0x1CBF); (0x1D00, 0x1D2B);
    (0x1D6B, 0x1D77); (0x1D79, 0x1D9A); (0x1E00, 0x1F15); (0x1F18, 0x1F1D); (0x1F20, 0x1F45);
    (0x1F48, 0x1F4D); (0x1F50, 0x1F57); (0x1F59, 0x1F59); (0x1F5B, 0x1F5B); (0x1F5D, 0x1F5D);
    (0x1F5F, 0x1F7D); (0x1F80, 0x1FB4); (0x1FB6, 0x1FBC); (0x1FBE, 0x1FBE); (0x1FC2, 0x1FC4);
    (0x1FC6, 0x1FCC); (0x1FD0, 0x1FD3); (0x1FD6, 0x1FDB); (0x1FE0, 0x1FEC); (0x1FF2, 0x1FF4);
    (0x1FF6, 0x1FFC); (0x2102, 0x2102); (0x2107, 0x2107); (0x210A, 0x2113); (0x2115, 0x2115);
    (0x2119, 0x211D); (0x2124, 0x2124); (0x2126, 0x2126); (0x2128, 0x2128); (0x212A, 0x212D);
    (0x212F, 0x2134); (0x2139, 0x2139); (0x213C, 0x213F); (0x2145, 0x2149); (0x214E, 0x214E);
    (0x2160, 0x217F); (0x2183, 0x2184); (0x24B6, 0x24E9); (0x2C00, 0x2C7B); (0x2C7E, 0x2CE4);
    (0x2CEB, 0x2CEE); (0x2CF2, 0x2CF3); (0x2D00, 0x2D25); (0x2D27, 0x2D27); (0x2D2D, 0x2D2D);
    (0xA640, 0xA66D); (0xA680, 0xA69B); (0xA722, 0xA76F); (0xA771, 0xA787); (0xA78B, 0xA78E);
    (0xA790, 0xA7CA); (0xA7D0, 0xA7D1); (0xA7D3, 0xA7D3); (0xA7D5, 0xA7D9); (0xA7F5, 0xA7F6);
    (0xA7FA, 0xA7FA); (0xAB30, 0xAB5A); (0xAB60, 0xAB68); (0xAB70, 0xABBF); (0xFB00, 0xFB06);
    (0xFB13, 0xFB17); (0xFF21, 0xFF3A); (0xFF41, 0xFF5A); (0x10400, 0x1044F); (0x104B0, 0x104D3);
    (0x104D8, 0x104FB); (0x10570, 0x1057A); (0x1057C, 0x1058A); (0x1058C, 0x10592); (0x10594, 0x10595);
    (0x10597, 0x105A1); (0x105A3, 0x105B1); (0x105B3, 0x105B9); (0x105BB, 0x105BC); (0x10C80, 0x10CB2);
    (0x10CC0, 0x10CF2); (0x118A0, 0x118DF); (0x16E40, 0x16E7F); (0x1D400, 0x1D454); (0x1D456, 0x1D49C);
    (0x1D49E, 0x1D49F); (0x1D4A2, 0x1D4A2); (0x1D4A5, 0x1D4A6); (0x1D4A9, 0x1D4AC); (0x1D4AE, 0x1D4B9);
    (0x1D4BB, 0x1D4BB); (0x1D4BD, 0x1D4C3); (0x1D4C5, 0x1D505); (0x1D507, 0x1D50A); (0x1D50D, 0x1D514);
    (0x1D516, 0x1D51C); (0x1D51E, 0x1D539); (0x1D53B, 0x1D53E); (0x1D540, 0x1D544); (0x1D546, 0x1D546);
    (0x1D54A, 0x1D550); (0x1D552, 0x1D6A5); (0x1D6A8, 0x1D6C0); (0x1D6C2, 0x1D6DA); (0x1D6DC, 0x1D6FA);
    (0x1D6FC, 0x1D714); (0x1D716, 0x1D734); (0x1D736, 0x1D74E); (0x1D750, 0x1D76E); (0x1D770, 0x1D788);
    (0x1D78A, 0x1D7A8); (0x1D7AA, 0x1D7C2); (0x1D7C4, 0x1D7CB); (0x1DF00, 0x1DF09); (0x1DF0B, 0x1DF1E);
    (0x1E900, 0x1E943); (0x1F130, 0x1F149); (0x1F150, 0x1F169); (0x1F170, 0x1F189) ]%N.

(** The case-ignorable characters. *)
Definition ignorable_ranges : list (N * N) :=
  [ (0x27, 0x27); (0x2E, 0x2E); (0x3A, 0x3A); (0x5E, 0x5E); (0x60, 0x60);
    (0xA8, 0xA8); (0xAD, 0xAD); (0xAF, 0xAF); (0xB4, 0xB4); (0xB7, 0xB8);
    (0x2B0, 0x36F); (0x374, 0x375); (0x37A, 0x37A); (0x384, 0x385); (0x387, 0x387);
    (0x483, 0x489); (0x559, 0x559); (0x55F, 0x55F); (0x591, 0x5BD); (0x5BF, 0x5BF);
    (0x5C1, 0x5C2); (0x5C4, 0x5C5); (0x5C7, 0x5C7); (0x5F4, 0x5F4); (0x600, 0x605);
    (0x610, 0x61A); (0x61C, 0x61C); (0x640, 0x640); (0x64B, 0x65F); (0x670, 0x670);
    (0x6D6, 0x6DD); (0x6DF, 0x6E8); (0x6EA, 0x6ED); (0x70F, 0x70F); (0x711, 0x711);
    (0x730, 0x74A); (0x7A6, 0x7B0); (0x7EB, 0x7F5); (0x7FA, 0x7FA); (0x7FD, 0x7FD);
    (0x816, 0x82D); (0x859, 0x85B); (0x888, 0x888); (0x890, 0x891); (0x898, 0x89F);
    (0x8C9, 0x902); (0x93A, 0x93A); (0x93C, 0x93C); (0x941, 0x948); (0x94D, 0x94D);
    (0x951, 0x957); (0x962, 0x963); (0x971, 0x971); (0x981, 0x981); (0x9BC, 0x9BC);
    (0x9C1, 0x9C4); (0x9CD, 0x9CD); (0x9E2, 0x9E3); (0x9FE, 0x9FE); (0xA01, 0xA02);
    (0xA3C, 0xA3C); (0xA41, 0xA42); (0xA47, 0xA48); (0xA4B, 0xA4D); (0xA51, 0xA51);
    (0xA70, 0xA71); (0xA75, 0xA75); (0xA81, 0xA82); (0xABC, 0xABC); (0xAC1, 0xAC5);
    (0xAC7, 0xAC8); (0xACD, 0xACD); (0xAE2, 0xAE3); (0xAFA, 0xAFF); (0xB01, 0xB01);
    (0xB3C, 0xB3C); (0xB3F, 0xB3F); (0xB41, 0xB44); (0xB4D, 0xB4D); (0xB55, 0xB56);
    (0xB62, 0xB63); (0xB82, 0xB82); (0xBC0, 0xBC0); (0xBCD, 0xBCD); (0xC00, 0xC00);
    (0xC04, 0xC04); (0xC3C, 0xC3C); (0xC3E, 0xC40); (0xC46, 0xC48); (0xC4A, 0xC4D);
    (0xC55, 0xC56); (0xC62, 0xC63); (0xC81, 0xC81); (0xCBC, 0xCBC); (0xCBF, 0xCBF);
    (0xCC6, 0xCC6); (0xCCC, 0xCCD); (0xCE2, 0xCE3); (0xD00, 0xD01); (0xD3B, 0xD3C);
    (0xD41, 0xD44); (0xD4D, 0xD4D); (0xD62, 0xD63); (0xD81, 0xD81); (0xDCA, 0xDCA);
    (0xDD2, 0xDD4); (0xDD6, 0xDD6); (0xE31, 0xE31); (0xE34, 0xE3A); (0xE46, 0xE4E);
    (0xEB1, 0xEB1); (0xEB4, 0xEBC); (0xEC6, 0xEC6); (0xEC8, 0xECD); (0xF18, 0xF19);
    (0xF35, 0xF35); (0xF37, 0xF37); (0xF39, 0xF39); (0xF71, 0xF7E); (0xF80, 0xF84);
    (0xF86, 0xF87); (0xF8D, 0xF97); (0xF99, 0xFBC); (0xFC6, 0xFC6); (0x102D, 0x1030);
    (0x1032, 0x1037); (0x1039, 0x103A); (0x103D, 0x103E); (0x1058, 0x1059); (0x105E, 0x1060);
    (0x1071, 0x1074); (0x1082, 0x1082); (0x1085, 0x1086); (0x108D, 0x108D); (0x109D, 0x109D);
    (0x10FC, 0x10FC); (0x135D, 0x135F); (0x1712, 0x1714); (0x1732, 0x1733); (0x1752, 0x1753);
    (0x1772, 0x1773); (0x17B4, 0x17B5); (0x17B7, 0x17BD); (0x17C6, 0x17C6); (0x17C9, 0x17D3);
    (0x17D7, 0x17D7); (0x17DD, 0x17DD); (0x180B, 0x180F); (0x1843, 0x1843); (0x1885, 0x1886);
    (0x18A9, 0x18A9); (0x1920, 0x1922); (0x1927, 0x1928); (0x1932, 0x1932); (0x1939, 0x193B);
    (0x1A17, 0x1A18); (0x1A1B, 0x1A1B); (0x1A56, 0x1A56); (0x1A58, 0x1A5E); (0x1A60, 0x1A60);
    (0x1A62, 0x1A62); (0x1A65, 0x1A6C); (0x1A73, 0x1A7C); (0x1A7F, 0x1A7F); (0x1AA7, 0x1AA7);
    (0x1AB0, 0x1ACE); (0x1B00, 0x1B03); (0x1B34, 0x1B34); (0x1B36, 0x1B3A); (0x1B3C, 0x1B3C);
    (0x1B42, 0x1B42); (0x1B6B, 0x1B73); (0x1B80, 0x1B81); (0x1BA2, 0x1BA5); (0x1BA8, 0x1BA9);
    (0x1BAB, 0x1BAD); (0x1BE6, 0x1BE6); (0x1BE8, 0x1BE9); (0x1BED, 0x1BED); (0x1BEF, 0x1BF1);
    (0x1C2C, 0x1C33); (0x1C36, 0x1C37); (0x1C78, 0x1C7D); (0x1CD0, 0x1CD2); (0x1CD4, 0x1CE0);
    (0x1CE2, 0x1CE8); (0x1CED, 0x1CED); (0x1CF4, 0x1CF4); (0x1CF8, 0x1CF9); (0x1D2C, 0x1D6A);
    (0x1D78, 0x1D78); (0x1D9B, 0x1DFF); (0x1FBD, 0x1FBD); (0x1FBF, 0x1FC1); (0x1FCD, 0x1FCF);
    (0x1FDD, 0x1FDF); (0x1FED, 0x1FEF); (0x1FFD, 0x1FFE); (0x200B, 0x200F); (0x2018, 0x2019);
    (0x2024, 0x2024); (0x2027, 0x2027); (0x202A, 0x202E); (0x2060, 0x2064); (0x2066, 0x206F);
    (0x2071, 0x2071); (0x207F, 0x207F); (0x2090, 0x209C); (0x20D0, 0x20F0); (0x2C7C, 0x2C7D);
    (0x2CEF, 0x2CF1); (0x2D6F, 0x2D6F); (0x2D7F, 0x2D7F); (0x2DE0, 0x2DFF); (0x2E2F, 0x2E2F);
    (0x3005, 0x3005); (0x302A, 0x302D); (0x3031, 0x3035); (0x303B, 0x303B); (0x3099, 0x309E);
    (0x30FC, 0x30FE); (0xA015, 0xA015); (0xA4F8, 0xA4FD); (0xA60C, 0xA60C); (0xA66F, 0xA672);
    (0xA674, 0xA67D); (0xA67F, 0xA67F); (0xA69C, 0xA69F); (0xA6F0, 0xA6F1); (0xA700, 0xA721);
    (0xA770, 0xA770); (0xA788, 0xA78A); (0xA7F2, 0xA7F4); (0xA7F8, 0xA7F9); (0xA802, 0xA802);
    (0xA806, 0xA806); (0xA80B, 0xA80B); (0xA825, 0xA826); (0xA82C, 0xA82C); (0xA8C4, 0xA8C5);
    (0xA8E0, 0xA8F1); (0xA8FF, 0xA8FF); (0xA926, 0xA92D); (0xA947, 0xA951); (0xA980, 0xA982);
    (0xA9B3, 0xA9B3); (0xA9B6, 0xA9B9); (0xA9BC, 0xA9BD); (0xA9CF, 0xA9CF); (0xA9E5, 0xA9E6);
    (0xAA29, 0xAA2E); (0xAA31, 0xAA32); (0xAA35, 0xAA36); (0xAA43, 0xAA43); (0xAA4C, 0xAA4C);
    (0xAA70, 0xAA70); (0xAA7C, 0xAA7C); (0xAAB0, 0xAAB0); (0xAAB2, 0xAAB4); (0xAAB7, 0xAAB8);
    (0xAABE, 0xAABF); (0xAAC1, 0xAAC1); (0xAADD, 0xAADD); (0xAAEC, 0xAAED); (0xAAF3, 0xAAF4);
    (0xAAF6, 0xAAF6); (0xAB5B, 0xAB5F); (0xAB69, 0xAB6B); (0xABE5, 0xABE5); (0xABE8, 0xABE8);
    (0xABED, 0xABED); (0xFB1E, 0xFB1E); (0xFBB2, 0xFBC2); (0xFE00, 0xFE0F); (0xFE13, 0xFE13);
    (0xFE20, 0xFE2F); (0xFE52, 0xFE52); (0xFE55, 0xFE55); (0xFEFF, 0xFEFF); (0xFF07, 0xFF07);
    (0xFF0E, 0xFF0E); (0xFF1A, 0xFF1A); (0xFF3E, 0xFF3E); (0xFF40, 0xFF40); (0xFF70, 0xFF70);
    (0xFF9E, 0xFF9F); (0xFFE3, 0xFFE3); (0xFFF9, 0xFFFB); (0x101FD, 0x101FD); (0x102E0, 0x102E0);
    (0x10376, 0x1037A); (0x10780, 0x10785); (0x10787, 0x107B0); (0x107B2, 0x107BA); (0x10A01, 0x10A03);
    (0x10A05, 0x10A06); (0x10A0C, 0x10A0F); (0x10A38, 0x10A3A); (0x10A3F, 0x10A3F); (0x10AE5, 0x10AE6);
    (0x10D24, 0x10D27); (0x10EAB, 0x10EAC); (0x10F46, 0x10F50); (0x10F82, 0x10F85); (0x11001, 0x11001);
    (0x11038, 0x11046); (0x11070, 0x11070); (0x11073, 0x11074); (0x1107F, 0x11081); (0x110B3, 0x110B6);
    (0x110B9, 0x110BA); (0x110BD, 0x110BD); (0x110C2, 0x110C2); (0x110CD, 0x110CD); (0x11100, 0x11102);
    (0x11127, 0x1112B); (0x1112D, 0x11134); (0x11173, 0x11173); (0x11180, 0x11181); (0x111B6, 0x111BE);
    (0x111C9, 0x111CC); (0x111CF, 0x111CF); (0x1122F, 0x11231); (0x11234, 0x11234); (0x11236, 0x11237);
    (0x1123E, 0x1123E); (0x112DF, 0x112DF); (0x112E3, 0x112EA); (0x11300, 0x11301); (0x1133B, 0x1133C);
    (0x11340, 0x11340); (0x11366, 0x1136C); (0x11370, 0x11374); (0x11438, 0x1143F); (0x11442, 0x11444);
    (0x11446, 0x11446); (0x1145E, 0x1145E); (0x114B3, 0x114B8); (0x114BA, 0x114BA); (0x114BF, 0x114C0);
    (0x114C2, 0x114C3); (0x115B2, 0x115B5); (0x115BC, 0x115BD); (0x115BF, 0x115C0); (0x115DC, 0x115DD);
    (0x11633, 0x1163A); (0x1163D, 0x1163D); (0x1163F, 0x11640); (0x116AB, 0x116AB); (0x116AD, 0x116AD);
    (0x116B0, 0x116B5); (0x116B7, 0x116B7); (0x1171D, 0x1171F); (0x11722, 0x11725); (0x11727, 0x1172B);
    (0x1182F, 0x11837); (0x11839, 0x1183A); (0x1193B, 0x1193C); (0x1193E, 0x1193E); (0x11943, 0x11943);
    (0x119D4, 0x119D7); (0x119DA, 0x119DB); (0x119E0, 0x119E0); (0x11A01, 0x11A0A); (0x11A33, 0x11A38);
    (0x11A3B, 0x11A3E); (0x11A47, 0x11A47); (0x11A51, 0x11A56); (0x11A59, 0x11A5B); (0x11A8A, 0x11A96);
    (0x11A98, 0x11A99); (0x11C30, 0x11C36); (0x11C38, 0x11C3D); (0x11C3F, 0x11C3F); (0x11C92, 0x11CA7);
    (0x11CAA, 0x11CB0); (0x11CB2, 0x11CB3); (0x11CB5, 0x11CB6); (0x11D31, 0x11D36); (0x11D3A, 0x11D3A);
    (0x11D3C, 0x11D3D); (0x11D3F, 0x11D45); (0x11D47, 0x11D47); (0x11D90, 0x11D91); (0x11D95, 0x11D95);
    (0x11D97, 0x11D97); (0x11EF3, 0x11EF4); (0x13430, 0x13438); (0x16AF0, 0x16AF4); (0x16B30, 0x16B36);
    (0x16B40, 0x16B43); (0x16F4F, 0x16F4F); (0x16F8F, 0x16F9F); (0x16FE0, 0x16FE1); (0x16FE3, 0x16FE4);
    (0x1AFF0, 0x1AFF3); (0x1AFF5, 0x1AFFB); (0x1AFFD, 0x1AFFE); (0x1BC9D, 0x1BC9E); (0x1BCA0, 0x1BCA3);
    (0x1CF00, 0x1CF2D); (0x1CF30, 0x1CF46); (0x1D167, 0x1D169); (0x1D173, 0x1D182); (0x1D185, 0x1D18B);
    (0x1D1AA, 0x1D1AD); (0x1D242, 0x1D244); (0x1DA00, 0x1DA36); (0x1DA3B, 0x1DA6C); (0x1DA75, 0x1DA75);
    (0x1DA84, 0x1DA84); (0x1DA9B, 0x1DA9F); (0x1DAA1, 0x1DAAF); (0x1E000, 0x1E006); (0x1E008, 0x1E018);
    (0x1E01B, 0x1E021); (0x1E023, 0x1E024); (0x1E026, 0x1E02A); (0x1E130, 0x1E13D); (0x1E2AE, 0x1E2AE);
    (0x1E2EC, 0x1E2EF); (0x1E8D0, 0x1E8D6); (0x1E944, 0x1E94B); (0x1F3FB, 0x1F3FF); (0xE0001, 0xE0001);
    (0xE0020, 0xE007F); (0xE0100, 0xE01EF) ]%N.
(** [str.isspace], the class [\s]. *)
Definition is_space (c : char) : bool := in_ranges space_ranges c.

(** [str.isdecimal], the class [\d]. *)
Definition is_digit (c : char) : bool := in_ranges decimal_runs c.

(** The value of a decimal digit. *)
Definition digit_val (c : char) : Z := Z.of_N (offset_in decimal_runs c).

Definition is_alnum (c : char) : bool := in_ranges alnum_ranges c.

(** [\w]: alphanumeric characters and the underscore. *)
Definition is_word (c : char) : bool := is_alnum c || (c =? 95)%N.

Fixpoint lower_in (rs : list (N * N * N * N)) (c : char) : char :=
  match rs with
  | [] => c
  | (lo, hi, step, dst) :: tl =>
      if (lo <=? c)%N && (c <=? hi)%N && ((c - lo) mod step =? 0)%N
      then (dst + (c - lo))%N
      else lower_in tl c
  end.

(** The lower-case mapping of one character: one character, but for the
    capital I with a dot above, which becomes [i] and a combining dot. *)
Definition lower_full (c : char) : list char :=
  if (c =? 0x130)%N then [0x69; 0x307]%N else [lower_in lower_runs c].

Definition is_cased (c : char) : bool := in_ranges cased_ranges c.
Definition case_ignorable (c : char) : bool := in_ranges ignorable_ranges c.

Fixpoint skip_ignorable (l : list char) : list char :=
  match l with
  | c :: tl => if case_ignorable c then skip_ignorable tl else l
  | [] => []
  end.

(** The first character of [l] that is not case-ignorable is cased. *)
Definition cased_next (l : list char) : bool :=
  match skip_ignorable l with
  | c :: _ => is_cased c
  | [] => false
  end.

(** A capital sigma is final when a cased character comes before it and
    none comes after it, case-ignorable characters skipped; [before] is the
    text before it, nearest character first. *)
Definition final_sigma (before after : list char) : bool :=
  cased_next before && negb (cased_next after).

Fixpoint lower_from (before : list char) (l : list char) : list char :=
  match l with
  | [] => []
  | c :: tl =>
      (if (c =? 0x3A3)%N
       then [if final_sigma before tl then 0x3C2 else 0x3C3]%N
       else lower_full c)
      ++ lower_from (c :: before) tl
  end.

(** [s.lower()] *)
Definition lower (s : str) : str := lower_from [] s.

Definition between (lo hi c : N) : bool := (lo <=? c)%N && (c <=? hi)%N.

(** What [re.I] takes for a lower-case Latin-1 letter besides its two
    cases: the dotted capital I and the dotless i, the long s, the Kelvin
    sign and the Angstrom sign. *)
Definition fold_extra (n : N) : list char :=
  if (n =? 0x69)%N then [0x130; 0x131]%N
  else if (n =? 0x73)%N then [0x17F]%N
  else if (n =? 0x6B)%N then [0x212A]%N
  else if (n =? 0xE5)%N then [0x212B]%N
  else [].

(** The characters that the pattern literal [a] matches under [re.I]. *)
Definition fold_variants (a : ascii) : list char :=
  let n := code a in
  if between 0x41 0x5A n || (between 0xC0 0xDE n && negb (n =? 0xD7)%N)
  then [n; n + 32]%N ++ fold_extra (n + 32)
  else if between 0x61 0x7A n || (between 0xE0 0xFE n && negb (n =? 0xF7)%N)
  then [n - 32; n]%N ++ fold_extra n
  else if (n =? 0xB5)%N then [0xB5; 0x39C; 0x3BC]%N
  else if (n =? 0xDF)%N then [0xDF; 0x1E9E]%N
  else if (n =? 0xFF)%N then [0xFF; 0x178]%N
  else [n].

Definition ci_char (a : ascii) (x : char) : bool :=
  existsb (N.eqb x) (fold_variants a).

(** ** The fragment of Python's [re] the program uses *)

(** One member of a character set. *)
Inductive cls : Type :=
| CLit (c : ascii)
| CDigit
| CSpace
| CWord.

(** A pattern element that consumes exactly one character. *)
Inductive atom : Type :=
| One (c : cls)
| NotOne (c : cls)            (* the negated escape, as in [\D] *)
| AnyOf (cs : list cls)       (* [[...]] *)
| NoneOf (cs : list cls).     (* [[^...]] *)

Inductive regex : Type :=
| Eps
| Chr (a : atom)
| Cat (r1 r2 : regex)
| Alt (r1 r2 : regex)                       (* [r1|r2], left first *)
| Rep (a : atom) (lo : nat) (hi : option nat)  (* greedy [a{lo,hi}] *)
| Grp (r : regex)                           (* capturing group 1 *)
| WordB                                     (* [\b] *)
| Eol.                                      (* [$] without MULTILINE *)

(** [ic] is the [re.I] flag. *)
Definition cls_match (ic : bool) (k : cls) (x : char) : bool :=
  match k with
  | CLit c => if ic then ci_char c x else N.eqb x (code c)
  | CDigit => is_digit x
  | CSpace => is_space x
  | CWord => is_word x
  end.

Definition atom_match (ic : bool) (a : atom) (x : char) : bool :=
  match a with
  | One k => cls_match ic k x
  | NotOne k => negb (cls_match ic k x)
  | AnyOf ks => existsb (fun k => cls_match ic k x) ks
  | NoneOf ks => negb (existsb (fun k => cls_match ic k x) ks)
  end.

(** The matcher's position: the character before it, the text after it,
    and what group 1 holds so far. *)
Record mstate : Type := MState {
  prev : option char;
  rest : list char;
  grp : option (list char)
}.

Definition word_opt (o : option char) : bool :=
  match o with Some c => is_word c | None => false end.

(** [\b]: exactly one side of the position is a word character. *)
Definition at_boundary (p : option char) (l : list char) : bool :=
  xorb (word_opt p) (word_opt (head l)).

(** [$]: the end of the text, or just before a final line feed. *)
Definition at_eol (l : list char) : bool :=
  match l with
  | [] => true
  | [c] => N.eqb c 10
  | _ => false
  end.

Definition can_more (hi : option nat) : bool :=
  match hi with Some O => false | _ => true end.

Definition dec_hi (hi : option nat) : option nat :=
  match hi with Some n => Some (Nat.pred n) | None => None end.

(** Greedy repetition of a one-character element: take a character while
    allowed, and fall back to stopping here when the rest of the pattern
    fails further on. *)
Fixpoint rep (ic : bool) (a : atom) (lo : nat) (hi : option nat)
    (k : mstate -> option mstate)
    (p : option char) (l : list char) (g : option (list char))
    : option mstate :=
  let stop := match lo with O => k (MState p l g) | S _ => None end in
  match l with
  | c :: tl =>
      if can_more hi && atom_match ic a c then
        match rep ic a (Nat.pred lo) (dec_hi hi) k (Some c) tl g with
        | Some st => Some st
        | None => stop
        end
      else stop
  | [] => stop
  end.

(** Backtracking matcher: [k] is the rest of the pattern. *)
Fixpoint exec (ic : bool) (r : regex) (k : mstate -> option mstate)
    (st : mstate) : option mstate :=
  match r with
  | Eps => k st
  | Chr a =>
      match rest st with
      | c :: tl =>
          if atom_match ic a c then k (MState (Some c) tl (grp st)) else None
      | [] => None
      end
  | Cat r1 r2 => exec ic r1 (exec ic r2 k) st
  | Alt r1 r2 =>
      match exec ic r1 k st with
      | Some st' => Some st'
      | None => exec ic r2 k st
      end
  | Rep a lo hi => rep ic a lo hi k (prev st) (rest st) (grp st)
  | Grp r1 =>
      exec ic r1
        (fun st' =>
           k (MState (prev st') (rest st')
                (Some (firstn (length (rest st) - length (rest st'))
                         (rest st)))))
        st
  | WordB => if at_boundary (prev st) (rest st) then k st else None
  | Eol => if at_eol (rest st) then k st else None
  end.

(** A match object: where it starts, [group(0)] and [group(1)]. *)
Record rmatch : Type := RMatch {
  m_start : nat;
  group0 : list char;
  group1 : option (list char)
}.

Definition match_here (ic : bool) (r : regex) (p : option char)
    (l : list char) (i : nat) : option rmatch :=
  match exec ic r Some (MState p l None) with
  | Some st' =>
      Some (RMatch i (firstn (length l - length (rest st')) l) (grp st'))
  | None => None
  end.

(** [re.search]: the match at the leftmost position that has one. *)
Fixpoint search_from (ic : bool) (r : regex) (p : option char)
    (l : list char) (i : nat) : option rmatch :=
  match match_here ic r p l i with
  | Some m => Some m
  | None =>
      match l with
      | [] => None
      | c :: tl => search_from ic r (Some c) tl (S i)
      end
  end.

Definition search (ic : bool) (r : regex) (s : str) : option rmatch :=
  search_from ic r None s 0.

(** [re.sub] with the empty replacement, for a one-character pattern. *)
Definition sub_atom (ic : bool) (a : atom) (s : str) : str :=
  List.filter (fun c => negb (atom_match ic a c)) s.

(** Pattern syntax helpers. *)
Fixpoint lit_chars (l : list ascii) : regex :=
  match l with
  | [] => Eps
  | c :: tl => Cat (Chr (One (CLit c))) (lit_chars tl)
  end.

Definition lit (s : string) : regex := lit_chars (chars s).

Fixpoint cat (rs : list regex) : regex :=
  match rs with
  | [] => Eps
  | r :: tl => Cat r (cat tl)
  end.

Fixpoint alt (r : regex) (rs : list regex) : regex :=
  match rs with
  | [] => r
  | r' :: tl => Alt r (alt r' tl)
  end.

Definition d : atom := One CDigit.
Definition s_plus : regex := Rep (One CSpace) 1 None.

(** ** Configuration (module level of the source) *)

Definition SESSION_FOLDERS : list (str * str) :=
  [ (str_of "2023-24",
     str_of "https://app.leg.wa.gov/documents/billdocs/2023-24/Htm/Bills/House%20Bills/");
    (str_of "2025-26",
     str_of "https://app.leg.wa.gov/documents/billdocs/2025-26/Htm/Bills/House%20Bills/") ].

Definition DEFAULT_YEARS : gset Z := {[ 2023%Z; 2024%Z; 2025%Z ]}.

(** The pattern [\bclimate\b]. *)
Definition KEYWORDS : list regex := [ cat [WordB; lit "climate"; WordB] ].

(** The pattern [\b(20\d{2})\s+(?:Regular|1st|2nd|3rd)\s+Session],
    compiled with [re.I]. *)
Definition YEAR_RE : regex :=
  cat [ WordB;
        Grp (Cat (lit "20") (Rep d 2 (Some 2)));
        s_plus;
        alt (lit "Regular") [lit "1st"; lit "2nd"; lit "3rd"];
        s_plus;
        lit "Session" ].

(** The pattern [\bHOUSE\s+BILL\s+(\d{3,4})\b], compiled with [re.I]. *)
Definition BILLNUM_RE : regex :=
  cat [ WordB; lit "HOUSE"; s_plus; lit "BILL"; s_plus;
        Grp (Rep d 3 (Some 4)); WordB ].

(** The pattern [\bAN\s+ACT\s+Relating\s+to] followed by any number of
    characters other than LF and CR, compiled with [re.I]. *)
Definition AN_ACT_RE : regex :=
  cat [ WordB; lit "AN"; s_plus; lit "ACT"; s_plus; lit "Relating"; s_plus;
        lit "to"; Rep (NoneOf [CLit "010"%char; CLit "013"%char]) 0 None ].

(** The fallback pattern of [parse_bill_page], without flags: a slash, the
    group [(\d{3,4})], any number of hyphens and word characters, then
    [\.htm$]. *)
Definition hyphen_word : atom := AnyOf [CLit "-"%char; CWord].

Definition FILENAME_RE : regex :=
  cat [ lit "/"; Grp (Rep d 3 (Some 4)); Rep hyphen_word 0 None;
        lit ".htm"; Eol ].

(** ** Values *)

(** A [float]: a finite value [m * 2^e], an infinity, or a NaN. *)
Inductive pyfloat : Type :=
| Finite (m e : Z)
| Infinity (negative : bool)
| NaN.

(** [x > 0] *)
Definition float_pos (x : pyfloat) : bool :=
  match x with
  | Finite m _ => (0 <? m)%Z
  | Infinity negative => negb negative
  | NaN => false
  end.

(** The ASCII character [int] reads for a character of its argument:
    ASCII characters as they are, other whitespace as a space, other
    decimal digits as the ASCII digit of the same value, and a question
    mark for the rest. *)
Definition int_char (c : char) : char :=
  if (c <? 127)%N then c
  else if is_space c then 32%N
  else if is_digit c then (48 + offset_in decimal_runs c)%N
  else 63%N.

(** The whitespace [int] skips around a literal: TAB, LF, VT, FF, CR and
    the space. *)
Definition is_c_space (c : char) : bool := between 9 13 c || (c =? 32)%N.

Definition is_ascii_digit (c : char) : bool := between 48 57 c.

Fixpoint drop_c_space (l : list char) : list char :=
  match l with
  | c :: tl => if is_c_space c then drop_c_space tl else l
  | [] => []
  end.

(** Digits, with single underscores allowed between two digits. *)
Fixpoint body_ok (after_digit : bool) (l : list char) : bool :=
  match l with
  | [] => after_digit
  | c :: tl =>
      if is_ascii_digit c then body_ok true tl
      else if (c =? 95)%N then after_digit && body_ok false tl
      else false
  end.

(** The limit on the digits of a literal applies above 640 digits, and a
    limit of 0 means none. *)
Definition too_many (limit n : nat) : bool :=
  (640 <? n)%nat && (0 <? limit)%nat && (limit <? n)%nat.

Definition int_value (ds : list char) : Z :=
  fold_left (fun n c => 10 * n + Z.of_N (c - 48))%Z ds 0%Z.

Definition int_body (limit : nat) (l : list char) : option Z :=
  let ds := List.filter is_ascii_digit l in
  if body_ok false l && negb (too_many limit (length ds))
  then Some (int_value ds)
  else None.

(** [int(s)] for a [str] in base 10; [None] is [ValueError]. *)
Definition int_of_str (limit : nat) (s : str) : option Z :=
  match rev (drop_c_space (rev (drop_c_space (map int_char s)))) with
  | c :: b =>
      if (c =? 43)%N then int_body limit b
      else if (c =? 45)%N then option_map Z.opp (int_body limit b)
      else int_body limit (c :: b)
  | [] => None
  end.

(** [str(n)], as an f-string formats an [int]. *)
Definition py_str (n : Z) : str :=
  str_of (NilZero.string_of_int (Z.to_int n)).

Fixpoint strip_left (l : list char) : list char :=
  match l with
  | c :: tl => if is_space c then strip_left tl else l
  | [] => []
  end.

(** [s.strip()] *)
Definition strip (s : str) : str :=
  rev (strip_left (rev (strip_left s))).

(** Truth value of an optional [str] and of an optional [int]. *)
Definition truthy_str (o : option str) : bool :=
  match o with Some (_ :: _) => true | _ => false end.

Definition truthy_int (o : option Z) : bool :=
  match o with Some n => negb (n =? 0)%Z | None => false end.

(** ** The world outside the program *)

Record env : Type := Env {
  (** [requests.get(url, ...)] followed by [raise_for_status()] and [.text],
      for a bill document; [None] when either raises. *)
  http_get : str -> option str;
  (** The [.htm] anchors of the listing page at a base URL, joined to it;
      [None] when [get_soup] raises. *)
  listing : str -> option (list str);
  (** The order in which the futures of one session complete, given its
      label and the submitted URLs. *)
  completion : str -> list str -> list str;
  html_unescape : str -> str;
  (** [time.sleep(delay)]; [None] when it raises. *)
  sleep : pyfloat -> option unit;
  (** [open(out_csv, "w", ...)]; [None] when it raises. *)
  open_csv : str -> option unit;
  (** [sys.get_int_max_str_digits()] *)
  int_max_str_digits : nat
}.

Definition py_int (e : env) (s : str) : option Z :=
  int_of_str (int_max_str_digits e) s.

(** ** The extractor *)

Record info : Type := Info {
  year : option Z;
  bill_number : option str;
  title : option str;
  matched : bool;
  bill_text_url : str
}.

Definition list_bill_files (e : env) (biennium base_url : str)
    : option (list str) :=
  listing e base_url.

(** Lines 51-54.  The outer [None] is an exception from [int]. *)
Definition extract_year (e : env) (text : str) : option (option Z) :=
  match search true YEAR_RE text with
  | Some m =>
      match group1 m with
      | Some g =>
          match py_int e g with
          | Some y => Some (Some y)
          | None => None
          end
      | None => None
      end
  | None => Some None
  end.

(** Lines 61-64: the number in the file name. *)
Definition filename_fallback (url : str) : option str :=
  match search false FILENAME_RE url with
  | Some mfn => group1 mfn
  | None => None
  end.

(** Lines 56-64. *)
Definition extract_bill_number (text url : str) : option str :=
  match search true BILLNUM_RE text with
  | Some n => group1 n
  | None => filename_fallback url
  end.

(** Lines 66-70. *)
Definition extract_title (e : env) (text : str) : option str :=
  match search true AN_ACT_RE text with
  | Some t => Some (strip (html_unescape e (group0 t)))
  | None => None
  end.

(** Lines 72-74. *)
Definition extract_matched (text : str) : bool :=
  existsb (fun k => bool_decide (is_Some (search true k (lower text))))
    KEYWORDS.

Definition parse_text (e : env) (url text : str) : option info :=
  match extract_year e text with
  | Some y =>
      Some {| year := y;
              bill_number := extract_bill_number text url;
              title := extract_title e text;
              matched := extract_matched text;
              bill_text_url := url |}
  | None => None
  end.

Definition parse_bill_page (e : env) (url : str) : option info :=
  match http_get e url with
  | Some text => parse_text e url text
  | None => None
  end.

Definition summary_template (b : str) (y : Z) : str :=
  str_of "https://app.leg.wa.gov/BillSummary/?BillNumber=" ++ b ++
  str_of "&Year=" ++ py_str y ++ str_of "&Initiative=false".

Definition bill_summary_url (bill_number : option str) (year : option Z)
    : option str :=
  match bill_number, year with
  | Some b, Some y =>
      if negb (truthy_str bill_number) || negb (truthy_int year) then None
      else Some (summary_template b y)
  | _, _ => None
  end.

(** [x or ""] for an optional string. *)
Definition or_empty (o : option str) : str :=
  match o with
  | Some s => s
  | None => []
  end.

(** ** Checks on the tables *)

(** The ranges are listed in ascending order, none at or below [b]. *)
Fixpoint ascending_from (b : N) (rs : list (N * N)) : bool :=
  match rs with
  | [] => true
  | (lo, hi) :: tl =>
      (b <=? lo)%N && (lo <=? hi)%N && ascending_from (hi + 1) tl
  end.

Definition ascending (rs : list (N * N)) : bool := ascending_from 0 rs.

(** Range [r] lies within one range of [rs]. *)
Definition covered (rs : list (N * N)) (r : N * N) : bool :=
  existsb (fun r' => (r'.1 <=? r.1)%N && (r.2 <=? r'.2)%N) rs.

(** Two ranges without a common element. *)
Definition apart (r s : N * N) : bool :=
  (r.2 <? s.1)%N || (s.2 <? r.1)%N.

(** ** The pipeline *)

Record row : Type := Row {
  r_biennium : str;
  r_year : Z;
  r_bill_number : str;
  r_title : str;
  r_bill_text_url : str;
  r_bill_summary_url : str
}.

Inductive event : Type :=
| Scanning (biennium : str)
| ListFailed (biennium : str)
| FetchFailed (url : str)
| Wrote (n : nat).

(** The variables of [main]: [rows], [seen] and what was printed. *)
Record acc : Type := Acc {
  rows : list row;
  seen : gset (str * Z * str);
  printed : list event
}.

Definition say (ev : event) (a : acc) : acc :=
  {| rows := rows a; seen := seen a; printed := printed a ++ [ev] |}.

Definition make_row (biennium : str) (i : info) (y : Z) (b : str)
    : row :=
  {| r_biennium := biennium;
     r_year := y;
     r_bill_number := str_of "HB " ++ b;
     r_title := or_empty (title i);
     r_bill_text_url := bill_text_url i;
     r_bill_summary_url := or_empty (bill_summary_url (Some b) (Some y)) |}.

(** Lines 135-136: the optional pause after a row is appended. *)
Definition pause (e : env) (delay : pyfloat) (a : acc) : option acc :=
  if float_pos delay then
    match sleep e delay with
    | Some _ => Some a
    | None => None
    end
  else Some a.

(** The body of the loop over completed futures, lines 104-136. *)
Definition consume (e : env) (years : gset Z) (delay : pyfloat)
    (biennium url : str) (res : option info) (a : acc) : option acc :=
  match res with
  | None => Some (say (FetchFailed url) a)
  | Some i =>
      if negb (truthy_int (year i) && truthy_str (bill_number i)) then Some a
      else
        match year i, bill_number i with
        | Some y, Some b =>
            if negb (bool_decide (y ∈ years)) then Some a
            else if negb (matched i) then Some a
            else
              let key := (biennium, y, b) in
              if bool_decide (key ∈ seen a) then Some a
              else
                pause e delay
                  {| rows := rows a ++ [make_row biennium i y b];
                     seen := {[ key ]} ∪ seen a;
                     printed := printed a |}
        | _, _ => Some a
        end
  end.

(** The loop over the futures of one session in the order they complete,
    lines 102-136.  The future submitted for [url] holds the outcome of
    [parse_bill_page url]. *)
Fixpoint drain (e : env) (years : gset Z) (delay : pyfloat)
    (biennium : str) (completed : list str) (a : acc) : option acc :=
  match completed with
  | [] => Some a
  | url :: tl =>
      match consume e years delay biennium url (parse_bill_page e url) a with
      | Some a' => drain e years delay biennium tl a'
      | None => None
      end
  end.

(** One iteration of the loop over sessions, lines 93-136.
    [ThreadPoolExecutor] raises for a pool size that is not positive. *)
Definition scan_session (e : env) (years : gset Z) (max_workers : Z)
    (delay : pyfloat) (a : acc) (s : str * str) : option acc :=
  let a1 := say (Scanning s.1) a in
  match list_bill_files e s.1 s.2 with
  | None => Some (say (ListFailed s.1) a1)
  | Some files =>
      if (0 <? max_workers)%Z
      then drain e years delay s.1 (completion e s.1 files) a1
      else None
  end.

Fixpoint scan_from (e : env) (years : gset Z) (max_workers : Z)
    (delay : pyfloat) (sessions : list (str * str)) (a : acc)
    : option acc :=
  match sessions with
  | [] => Some a
  | s :: tl =>
      match scan_session e years max_workers delay a s with
      | Some a' => scan_from e years max_workers delay tl a'
      | None => None
      end
  end.

Definition scan_all (e : env) (years : gset Z) (max_workers : Z)
    (delay : pyfloat) (sessions : list (str * str)) : option acc :=
  scan_from e years max_workers delay sessions (Acc [] ∅ []).

(** The sort key of line 139; [None] when [int] raises. *)
Definition sort_key (e : env) (r : row) : option (Z * Z) :=
  match py_int e (sub_atom false (NotOne CDigit) (r_bill_number r)) with
  | Some n => Some (r_year r, n)
  | None => None
  end.

(** [<] on pairs of integers. *)
Definition key_lt (a b : Z * Z) : bool :=
  (a.1 <? b.1)%Z || ((a.1 =? b.1)%Z && (a.2 <? b.2)%Z).

Fixpoint decorate (e : env) (l : list row) : option (list (Z * Z * row)) :=
  match l with
  | [] => Some []
  | r :: tl =>
      match sort_key e r, decorate e tl with
      | Some k, Some tl' => Some ((k, r) :: tl')
      | _, _ => None
      end
  end.

Fixpoint insert_keyed (x : Z * Z * row) (l : list (Z * Z * row))
    : list (Z * Z * row) :=
  match l with
  | [] => [x]
  | y :: tl => if key_lt y.1 x.1 then y :: insert_keyed x tl else x :: l
  end.

(** A stable sort by key.  [list.sort] is stable, and the result of a
    stable sort does not depend on the algorithm. *)
Fixpoint sort_keyed (l : list (Z * Z * row)) : list (Z * Z * row) :=
  match l with
  | [] => []
  | x :: tl => insert_keyed x (sort_keyed tl)
  end.

(** [rows.sort(key=...)]; [None] when computing a key raises. *)
Definition sort_rows (e : env) (l : list row) : option (list row) :=
  match decorate e l with
  | Some kl => Some (map snd (sort_keyed kl))
  | None => None
  end.

(** What a run leaves behind: the rows handed to the CSV writer, in order,
    and the lines printed. *)
Record report : Type := Report {
  written : list row;
  output : list event
}.

(** Lines 138-147: sort, open the file, write, and print the count. *)
Definition finish (e : env) (out_csv : str) (a : acc) : option report :=
  match sort_rows e (rows a) with
  | Some sorted =>
      match open_csv e out_csv with
      | Some _ =>
          Some {| written := sorted;
                  output := printed a ++ [Wrote (length sorted)] |}
      | None => None
      end
  | None => None
  end.

(** [main] with the table of sessions as a parameter. *)
Definition main_with (sessions : list (str * str)) (e : env)
    (out_csv : str) (years : gset Z) (max_workers : Z) (delay : pyfloat)
    : option report :=
  match scan_all e years max_workers delay sessions with
  | Some a => finish e out_csv a
  | None => None
  end.

Definition main (e : env) (out_csv : str) (years : gset Z)
    (max_workers : Z) (delay : pyfloat) : option report :=
  main_with SESSION_FOLDERS e out_csv years max_workers delay.

(** ** The script entry point (lines 149-158) *)

(** [s.split(sep)] for a one-character separator. *)
Fixpoint split_on (sep : char) (l : list char) : list (list char) :=
  match l with
  | [] => [[]]
  | c :: tl =>
      if N.eqb c sep then [] :: split_on sep tl
      else
        match split_on sep tl with
        | w :: ws => (c :: w) :: ws
        | [] => [[c]]
        end
  end.

(** The set comprehension of line 157 over the split items. *)
Fixpoint years_of_items (e : env) (items : list str) : option (gset Z) :=
  match items with
  | [] => Some ∅
  | y :: tl =>
      match strip y with
      | [] => years_of_items e tl
      | _ :: _ =>
          match py_int e (strip y), years_of_items e tl with
          | Some n, Some s => Some ({[ n ]} ∪ s)
          | _, _ => None
          end
      end
  end.

(** Line 157: the year filter named by [--years]. *)
Definition years_of_arg (e : env) (arg : str) : option (gset Z) :=
  years_of_items e (split_on 44%N arg).

(** Lines 157-158, after [argparse] has converted the arguments. *)
Definition script (e : env) (out_csv years_arg : str) (max_workers : Z)
    (delay : pyfloat) : option report :=
  match years_of_arg e years_arg with
  | Some years => main e out_csv years max_workers delay
  | None => None
  end.

(** ** What a pattern denotes *)

(** The character before the position reached after reading [w] from a
    position preceded by [p]. *)
Definition prev_after (p : option char) (w : list char) : option char :=
  List.last (map Some w) p.

Definition within (hi : option nat) (n : nat) : Prop :=
  match hi with Some h => (n <= h)%nat | None => True end.

(** [den ic r p w after g g']: pattern [r] can consume exactly [w] at a
    position preceded by [p] and followed by [w ++ after], changing the
    content of group 1 from [g] to [g']. *)
Fixpoint den (ic : bool) (r : regex) (p : option char)
    (w after : list char) (g g' : option (list char)) : Prop :=
  match r with
  | Eps => w = [] /\ g' = g
  | Chr a => exists c, w = [c] /\ atom_match ic a c = true /\ g' = g
  | Cat r1 r2 =>
      exists w1 w2 gm,
        w = w1 ++ w2 /\
        den ic r1 p w1 (w2 ++ after) g gm /\
        den ic r2 (prev_after p w1) w2 after gm g'
  | Alt r1 r2 => den ic r1 p w after g g' \/ den ic r2 p w after g g'
  | Rep a lo hi =>
      forallb (atom_match ic a) w = true /\
      (lo <= length w)%nat /\ within hi (length w) /\ g' = g
  | Grp r1 => (exists gi, den ic r1 p w after g gi) /\ g' = Some w
  | WordB => w = [] /\ at_boundary p after = true /\ g' = g
  | Eol => w = [] /\ at_eol after = true /\ g' = g
  end.

(** Pattern [r] has a match in [l] that starts at offset [i], covers [w]
    and leaves [g] in group 1. *)
Definition matches_at (ic : bool) (r : regex) (l : list char) (i : nat)
    (w : list char) (g : option (list char)) : Prop :=
  exists pre after,
    l = pre ++ w ++ after /\ length pre = i /\
    den ic r (prev_after None pre) w after None g.

(** ** The specification's wording of the extraction rules *)

(** [w] is the word [s] as [re.I] reads it: letter by letter, in either
    case or in a form folded to the letter. *)
Definition ci_eq (w : list char) (s : string) : Prop :=
  Forall2 (fun x c => ci_char c x = true) w (chars s).

Definition blank (ws : list char) : Prop :=
  ws <> [] /\ forallb is_space ws = true.

Definition digits (ds : list char) : Prop := forallb is_digit ds = true.

(** A four-digit year 2000-2099, whitespace, one of the session
    qualifiers, whitespace, and the word Session; [y] is the year. *)
Definition year_phrase (w : list char) (y : Z) : Prop :=
  exists d3 d4 ws1 q ws2 sess,
    w = str_of "20" ++ [d3; d4] ++ ws1 ++ q ++ ws2 ++ sess /\
    digits [d3; d4] /\
    y = (2000 + 10 * digit_val d3 + digit_val d4)%Z /\
    blank ws1 /\
    (ci_eq q "Regular" \/ ci_eq q "1st" \/ ci_eq q "2nd" \/ ci_eq q "3rd") /\
    blank ws2 /\
    ci_eq sess "Session".

(** The phrase occurs in [text] at offset [i]. *)
Definition year_phrase_at (text : str) (i : nat) (y : Z) : Prop :=
  exists pre w post,
    text = pre ++ w ++ post /\ length pre = i /\ year_phrase w y.

(** The phrase occurs at offset [i] and is not glued to a word character
    before it. *)
Definition year_match_at (text : str) (i : nat) (y : Z) : Prop :=
  exists pre w post,
    text = pre ++ w ++ post /\ length pre = i /\ year_phrase w y /\
    word_opt (prev_after None pre) = false.

(** The words HOUSE and BILL and a number of three or four digits,
    separated by whitespace, in any case. *)
Definition house_bill_phrase (w : list char) (n : list char) : Prop :=
  exists h ws1 b ws2,
    w = h ++ ws1 ++ b ++ ws2 ++ n /\
    ci_eq h "HOUSE" /\ blank ws1 /\ ci_eq b "BILL" /\ blank ws2 /\
    digits n /\ (3 <= length n <= 4)%nat.

(** The HOUSE BILL phrase with number [n] stands in [text] at offset [i],
    with no word character directly before or after it. *)
Definition house_bill_match_at (text : str) (i : nat) (n : list char)
    : Prop :=
  exists pre w post,
    text = pre ++ w ++ post /\ length pre = i /\
    house_bill_phrase w n /\
    word_opt (prev_after None pre) = false /\
    word_opt (head post) = false.

(** The text holds no HOUSE BILL phrase at all. *)
Definition no_house_bill_phrase (text : str) : Prop :=
  forall pre w post n,
    text = pre ++ w ++ post -> ~ house_bill_phrase w n.

(** A hyphen and further hyphens or word characters, as in [-S]; or
    nothing. *)
Definition qualifier_suffix (suf : list char) : Prop :=
  forallb (atom_match false hyphen_word) suf = true /\
  (suf = [] \/ head suf = Some 45%N).

(** The text has a match of some configured keyword, letter case ignored. *)
Definition keyword_found (text : str) : Prop :=
  exists k i w g, In k KEYWORDS /\ matches_at true k text i w g.

(** The deduplication triple of a written row. *)
Definition row_triple (r : row) : str * Z * str :=
  (r_biennium r, r_year r, r_bill_number r).

(** [<=] on sort keys, and the order of a written list. *)
Definition key_le (a b : Z * Z) : Prop :=
  (a.1 < b.1)%Z \/ (a.1 = b.1 /\ a.2 <= b.2)%Z.

Definition rows_sorted (e : env) (l : list row) : Prop :=
  exists ks,
    Forall2 (fun r k => sort_key e r = Some k) l ks /\
    StronglySorted key_le ks.

(** ** Notions used to state the properties of a run *)

(** The same world with another completion order. *)
Definition reorder (e : env)
    (order : str -> list str -> list str) : env :=
  {| http_get := http_get e;
     listing := listing e;
     completion := order;
     html_unescape := html_unescape e;
     sleep := sleep e;
     open_csv := open_csv e;
     int_max_str_digits := int_max_str_digits e |}.

(** Whether a search or a call returned a value. *)
Definition found {A : Type} (o : option A) : bool :=
  match o with Some _ => true | None => false end.

(** Nothing outside the documents and listings aborts the run: the pool
    can be created, the pause after a row does not raise, and the output
    file can be opened. *)
Definition runs_through (e : env) (out_csv : str) (max_workers : Z)
    (delay : pyfloat) : Prop :=
  (0 < max_workers)%Z /\
  (float_pos delay = true -> found (sleep e delay) = true) /\
  found (open_csv e out_csv) = true.

(** Record [i] passes the qualification filter with year [y] and
    identifier [b]. *)
Definition qualifies (years : gset Z) (i : info) (y : Z) (b : str)
    : Prop :=
  year i = Some y /\ bill_number i = Some b /\
  y <> 0%Z /\ b <> [] /\ y ∈ years /\ matched i = true.

(** Row [r] was built from a document that a session with a successful
    listing submitted and that passed the qualification filter. *)
Definition produced (e : env) (years : gset Z)
    (sessions : list (str * str)) (r : row) : Prop :=
  exists biennium base files url i y b,
    In (biennium, base) sessions /\
    listing e base = Some files /\
    In url (completion e biennium files) /\
    parse_bill_page e url = Some i /\
    qualifies years i y b /\
    r = make_row biennium i y b.

(** The deduplication key and the row that the document at [url] stands
    for when it passes the qualification filter. *)
Definition candidate (e : env) (years : gset Z) (biennium url : str)
    : option (str * Z * str * row) :=
  match parse_bill_page e url with
  | Some i =>
      match year i, bill_number i with
      | Some y, Some b =>
          if truthy_int (year i) && truthy_str (bill_number i)
             && bool_decide (y ∈ years) && matched i
          then Some ((biennium, y, b), make_row biennium i y b)
          else None
      | _, _ => None
      end
  | None => None
  end.

(** No session lists two different URLs whose documents both qualify with
    the same year and the same numeric bill number. *)
Definition tie_free (e : env) (years : gset Z) : Prop :=
  forall biennium base files u u' k r k' r',
    In (biennium, base) SESSION_FOLDERS ->
    listing e base = Some files ->
    In u files -> In u' files ->
    candidate e years biennium u = Some (k, r) ->
    candidate e years biennium u' = Some (k', r') ->
    sort_key e r = sort_key e r' ->
    u = u'.

(** The rows of [l] whose sort key is [k], in order. *)
Definition with_key (e : env) (k : Z * Z) (l : list row) : list row :=
  filter (fun r => sort_key e r = Some k) l.

Definition row_le (e : env) (r1 r2 : row) : Prop :=
  exists k1 k2,
    sort_key e r1 = Some k1 /\ sort_key e r2 = Some k2 /\ key_le k1 k2.

Definition keyed_le (a b : Z * Z * row) : Prop := key_le a.1 b.1.

(** A decorated row carries its own sort key. *)
Definition consistent (e : env) (kr : Z * Z * row) : Prop :=
  sort_key e kr.2 = Some kr.1.

(** *** The variables of the loop when nothing aborts it

    The state that [consume], [drain], [scan_session] and [scan_all]
    return when they return: the same updates without the pool and the
    pause. *)

Definition consume_acc (years : gset Z) (biennium url : str)
    (res : option info) (a : acc) : acc :=
  match res with
  | None => say (FetchFailed url) a
  | Some i =>
      if negb (truthy_int (year i) && truthy_str (bill_number i)) then a
      else
        match year i, bill_number i with
        | Some y, Some b =>
            if negb (bool_decide (y ∈ years)) then a
            else if negb (matched i) then a
            else
              let key := (biennium, y, b) in
              if bool_decide (key ∈ seen a) then a
              else {| rows := rows a ++ [make_row biennium i y b];
                      seen := {[ key ]} ∪ seen a;
                      printed := printed a |}
        | _, _ => a
        end
  end.

Definition drain_acc (e : env) (years : gset Z) (biennium : str)
    (completed : list str) (a : acc) : acc :=
  fold_left
    (fun a' url => consume_acc years biennium url (parse_bill_page e url) a')
    completed a.

Definition scan_session_acc (e : env) (years : gset Z) (a : acc)
    (s : str * str) : acc :=
  let a1 := say (Scanning s.1) a in
  match list_bill_files e s.1 s.2 with
  | None => say (ListFailed s.1) a1
  | Some files => drain_acc e years s.1 (completion e s.1 files) a1
  end.

Definition scan_all_acc (e : env) (years : gset Z)
    (sessions : list (str * str)) : acc :=
  fold_left (scan_session_acc e years) sessions (Acc [] ∅ []).

(** The pool is never created with a size that is not positive. *)
Definition pool_fine (e : env) (max_workers : Z)
    (sessions : list (str * str)) : bool :=
  (0 <? max_workers)%Z ||
  forallb (fun s => negb (found (listing e s.2))) sessions.

(** The pause after a row returns. *)
Definition can_pause (e : env) (delay : pyfloat) : bool :=
  negb (float_pos delay) || found (sleep e delay).

(** ** Further notions for the extractor and the log *)

(** The word [s], as [re.I] reads it, stands in [l] at offset [i] with no
    word character directly before or after it. *)
Definition whole_word_at (s : string) (l : list char) (i : nat) : Prop :=
  exists pre w post,
    l = pre ++ w ++ post /\ length pre = i /\ ci_eq w s /\
    word_opt (prev_after None pre) = false /\
    word_opt (head post) = false.

(** [c] is a line feed or a carriage return. *)
Definition line_break (c : char) : Prop := c = 10%N \/ c = 13%N.

(** [l] neither begins nor ends with a whitespace character. *)
Definition trimmed (l : list char) : Prop :=
  (forall c, head l = Some c -> is_space c = false) /\
  (forall c, head (rev l) = Some c -> is_space c = false).

(** The session labels announced in a printed log, in order. *)
Fixpoint scanned (log : list event) : list str :=
  match log with
  | [] => []
  | Scanning b :: tl => b :: scanned tl
  | _ :: tl => scanned tl
  end.

(** Item [y] of the argument names the year [n]. *)
Definition names_year (e : env) (arg : str) (n : Z) : Prop :=
  exists y,
    In y (split_on 44%N arg) /\
    strip y <> [] /\
    py_int e (strip y) = Some n.

(** Some item of the argument is not blank and [int] rejects it. *)
Definition has_bad_item (e : env) (arg : str) : Prop :=
  exists y,
    In y (split_on 44%N arg) /\
    strip y <> [] /\
    py_int e (strip y) = None.

(** ** Example worlds *)

(** Two completion orders: as submitted, and last submitted first. *)
Definition in_order (biennium : str) (l : list str) : list str := l.

Definition reversed (biennium : str) (l : list str) : list str :=
  rev l.

Definition base_2023 : str :=
  str_of "https://app.leg.wa.gov/documents/billdocs/2023-24/Htm/Bills/House%20Bills/".

Definition base_2025 : str :=
  str_of "https://app.leg.wa.gov/documents/billdocs/2025-26/Htm/Bills/House%20Bills/".

(** A world given by its documents and its listings, in which [sleep] and
    [open] return and the digit limit is the default. *)
Definition world (docs : list (str * str)) (lists : list (str * list str))
    : env :=
  {| http_get := fun u =>
       option_map snd (List.find (fun d => bool_decide (d.1 = u)) docs);
     listing := fun b =>
       option_map snd (List.find (fun d => bool_decide (d.1 = b)) lists);
     completion := fun _ l => l;
     html_unescape := fun s => s;
     sleep := fun _ => Some tt;
     open_csv := fun _ => Some tt;
     int_max_str_digits := 4300 |}.

Definition doc_1181 : str :=
  str_of "HOUSE BILL 1181, 2024 Regular Session, on climate".

(** The listing of the second session cannot be fetched; the first session
    lists one climate bill. *)
Definition one_session_env : env :=
  world [ (base_2023 ++ str_of "1181.htm", doc_1181) ]
        [ (base_2023, [base_2023 ++ str_of "1181.htm"]) ].

(** The world of [one_session_env] in which [time.sleep] raises. *)
Definition no_sleep_env : env :=
  {| http_get := http_get one_session_env;
     listing := listing one_session_env;
     completion := completion one_session_env;
     html_unescape := html_unescape one_session_env;
     sleep := fun _ => None;
     open_csv := open_csv one_session_env;
     int_max_str_digits := int_max_str_digits one_session_env |}.

(** A document whose bill number is written with Arabic-Indic digits. *)
Definition arabic_env : env :=
  world [ (base_2023 ++ str_of "1181.htm",
           str_of "HOUSE BILL " ++ [0x661; 0x661; 0x668; 0x661]%N
           ++ str_of ", 2024 Regular Session, on climate") ]
        [ (base_2023, [base_2023 ++ str_of "1181.htm"]) ].

(** The listing of the first session cannot be fetched; the second session
    lists one climate bill. *)
Definition second_session_env : env :=
  world [ (base_2025 ++ str_of "1181.htm",
           str_of "HOUSE BILL 1181, 2025 Regular Session, on climate") ]
        [ (base_2025, [base_2025 ++ str_of "1181.htm"]) ].

(** The first session lists two different climate bills. *)
Definition two_bills_env : env :=
  world [ (base_2023 ++ str_of "1181.htm", doc_1181);
          (base_2023 ++ str_of "1200.htm",
           str_of "HOUSE BILL 1200, 2023 Regular Session, on climate") ]
        [ (base_2023,
           [base_2023 ++ str_of "1181.htm"; base_2023 ++ str_of "1200.htm"]) ].

(** The first session lists a bill and its substitute; both documents name
    the same bill and year. *)
Definition two_versions_env : env :=
  world [ (base_2023 ++ str_of "1181.htm", doc_1181);
          (base_2023 ++ str_of "1181-S.htm",
           str_of "SUBSTITUTE HOUSE BILL 1181, 2024 Regular Session, on climate") ]
        [ (base_2023,
           [base_2023 ++ str_of "1181.htm"; base_2023 ++ str_of "1181-S.htm"]) ].

(** A document in which the keyword follows a capital I with a dot above
    (code point 304) without a space. *)
Definition dotted_text : str :=
  str_of "HOUSE BILL 1181, 2024 Regular Session, " ++ [0x130%N]
  ++ str_of "climate".

Definition dotted_env : env :=
  world [ (base_2023 ++ str_of "1181.htm", dotted_text) ]
        [ (base_2023, [base_2023 ++ str_of "1181.htm"]) ].

(** A text of two lines with a title on the first. *)
Definition two_line_text : str :=
  str_of "x AN ACT Relating to salmon" ++ [10%N] ++ str_of "y".

(** The default arguments of the script. *)
Definition default_out : str :=
  str_of "wa_house_climate_bills_2023_2025.csv".

Definition no_delay : pyfloat := Finite 0 0.

(** A delay that [time.sleep] cannot take. *)
Definition long_delay : pyfloat := Infinity false.

(** * Proofs *)

#[global] Arguments is_space : simpl never.
#[global] Arguments is_digit : simpl never.
#[global] Arguments is_alnum : simpl never.
#[global] Arguments is_word : simpl never.
#[global] Arguments digit_val : simpl never.
#[global] Arguments lower : simpl never.
#[global] Arguments fold_variants : simpl never.
#[global] Arguments int_char : simpl never.

(** Case analysis over the 256 pattern characters. *)
Ltac ascii_cases c := destruct c as [[] [] [] [] [] [] [] []].

(** ** Tables of ranges *)

Lemma in_ranges_In (rs : list (N * N)) (c : char) :
  in_ranges rs c = true ->
  exists lo hi, In (lo, hi) rs /\ (lo <= c <= hi)%N.
Proof.
  induction rs as [|[lo hi] tl IH]; simpl; [discriminate|].
  destruct (N.ltb_spec c lo); [discriminate|].
  destruct (N.leb_spec c hi).
  - intros _. exists lo, hi. split; [now left|lia].
  - intros H'. destruct (IH H') as (lo' & hi' & Hin & Hc).
    exists lo', hi'. split; [now right|exact Hc].
Qed.

Lemma in_ranges_complete (rs : list (N * N)) (c lo hi : N) :
  ascending rs = true -> In (lo, hi) rs -> (lo <= c <= hi)%N ->
  in_ranges rs c = true.
Proof.
  unfold ascending. generalize 0%N as b.
  induction rs as [|[l0 h0] tl IH]; intros b Ha Hin Hc; [destruct Hin|].
  simpl in Ha. apply andb_prop in Ha as [Ha Ht]. apply andb_prop in Ha as [Hb Hl].
  apply N.leb_le in Hb, Hl. simpl.
  destruct Hin as [[= -> ->] | Hin].
  - destruct (N.ltb_spec c lo); [lia|].
    destruct (N.leb_spec c hi); [reflexivity|lia].
  - assert (Hlo : (h0 + 1 <= lo)%N).
    { clear IH Hc. revert Ht Hin. generalize (h0 + 1)%N as b'.
      induction tl as [|[l1 h1] tl IH]; intros b' Ht Hin; [destruct Hin|].
      simpl in Ht. apply andb_prop in Ht as [Ht Ht'].
      apply andb_prop in Ht as [H1 H2]. apply N.leb_le in H1, H2.
      destruct Hin as [[= -> ->] | Hin]; [exact H1|].
      specialize (IH _ Ht' Hin). lia. }
    destruct (N.ltb_spec c l0); [lia|].
    destruct (N.leb_spec c h0); [lia|].
    exact (IH _ Ht Hin Hc).
Qed.

Lemma ranges_subset (A B : list (N * N)) (c : char) :
  ascending B = true -> forallb (covered B) A = true ->
  in_ranges A c = true -> in_ranges B c = true.
Proof.
  intros Ha Hcov Hc.
  destruct (in_ranges_In _ _ Hc) as (lo & hi & Hin & Hr).
  rewrite forallb_forall in Hcov. specialize (Hcov _ Hin).
  unfold covered in Hcov. apply existsb_exists in Hcov as ([lo' hi'] & Hin' & H).
  simpl in H. apply andb_prop in H as [H1 H2]. apply N.leb_le in H1, H2.
  apply (in_ranges_complete B c lo' hi' Ha Hin'). lia.
Qed.

Lemma ranges_disjoint (A B : list (N * N)) (c : char) :
  forallb (fun r => forallb (apart r) B) A = true ->
  in_ranges A c = true -> in_ranges B c = false.
Proof.
  intros Hd Hc. destruct (in_ranges B c) eqn:Hb; [|reflexivity].
  destruct (in_ranges_In _ _ Hc) as (lo & hi & Hin & Hr).
  destruct (in_ranges_In _ _ Hb) as (lo' & hi' & Hin' & Hr').
  rewrite forallb_forall in Hd. specialize (Hd _ Hin).
  rewrite forallb_forall in Hd. specialize (Hd _ Hin').
  unfold apart in Hd. simpl in Hd.
  apply orb_prop in Hd as [H | H]; apply N.ltb_lt in H; lia.
Qed.

Lemma offset_in_bound (rs : list (N * N)) (c : char) (n : N) :
  forallb (fun r => (r.2 <=? r.1 + n)%N) rs = true ->
  (offset_in rs c <= n)%N.
Proof.
  induction rs as [|[lo hi] tl IH]; simpl; intros H; [lia|].
  apply andb_prop in H as [H1 H2]. apply N.leb_le in H1.
  destruct (N.ltb_spec c lo); [lia|].
  destruct (N.leb_spec c hi); [lia|]. now apply IH.
Qed.

Lemma offset_in_first (rs : list (N * N)) (lo hi : N) (c : char) :
  head rs = Some (lo, hi) -> (lo <= c <= hi)%N -> offset_in rs c = (c - lo)%N.
Proof.
  destruct rs as [|[l h] tl]; [discriminate|]. intros [= -> ->] Hc. simpl.
  destruct (N.ltb_spec c lo); [lia|].
  destruct (N.leb_spec c hi); [reflexivity|lia].
Qed.

(** ** Character facts *)

Lemma digit_is_word (c : char) : is_digit c = true -> is_word c = true.
Proof.
  intros H. unfold is_word, is_alnum.
  rewrite (ranges_subset decimal_runs alnum_ranges c); auto;
    vm_compute; reflexivity.
Qed.

Lemma digit_not_space (c : char) : is_digit c = true -> is_space c = false.
Proof.
  apply ranges_disjoint. vm_compute. reflexivity.
Qed.

Lemma digit_val_range (c : char) : (0 <= digit_val c <= 9)%Z.
Proof.
  unfold digit_val.
  pose proof (offset_in_bound decimal_runs c 9 ltac:(vm_compute; reflexivity)).
  lia.
Qed.

Lemma ascii_digit_is_digit (c : char) :
  is_ascii_digit c = true -> is_digit c = true /\ digit_val c = Z.of_N (c - 48).
Proof.
  unfold is_ascii_digit, between. intros H.
  apply andb_prop in H as [H1 H2]. apply N.leb_le in H1, H2. split.
  - apply (in_ranges_complete decimal_runs c 48 57);
      [vm_compute; reflexivity|now left|lia].
  - unfold digit_val. f_equal.
    apply (offset_in_first decimal_runs 48 57); [reflexivity|lia].
Qed.

Lemma small_digit (c : char) :
  is_digit c = true -> (c < 127)%N -> is_ascii_digit c = true.
Proof.
  intros H Hc. destruct (in_ranges_In _ _ H) as (lo & hi & Hin & Hr).
  assert (Hall : forallb (fun r => bool_decide (r = (48, 57)%N)
                                   || (127 <=? r.1)%N) decimal_runs = true)
    by (vm_compute; reflexivity).
  rewrite forallb_forall in Hall. specialize (Hall _ Hin).
  apply orb_prop in Hall as [E | E].
  - apply bool_decide_eq_true in E. injection E as -> ->.
    unfold is_ascii_digit, between.
    apply andb_true_intro. split; apply N.leb_le; lia.
  - apply N.leb_le in E. simpl in E. lia.
Qed.

(** [int] reads a decimal digit as the ASCII digit of its value. *)
Lemma int_char_digit (c : char) :
  is_digit c = true ->
  is_ascii_digit (int_char c) = true /\
  Z.of_N (int_char c - 48) = digit_val c.
Proof.
  intros H. unfold int_char. destruct (N.ltb_spec c 127) as [Hc|Hc].
  - pose proof (small_digit c H Hc) as Ha. split; [exact Ha|].
    symmetry. now apply ascii_digit_is_digit.
  - rewrite (digit_not_space c H), H.
    pose proof (offset_in_bound decimal_runs c 9
                  ltac:(vm_compute; reflexivity)) as Hb.
    split.
    + unfold is_ascii_digit, between.
      apply andb_true_intro. split; apply N.leb_le; lia.
    + unfold digit_val. f_equal. lia.
Qed.

Lemma ci_char_In (a : ascii) (x : char) :
  ci_char a x = true <-> In x (fold_variants a).
Proof.
  unfold ci_char. rewrite existsb_exists. split.
  - intros (y & Hy & E). apply N.eqb_eq in E. now subst.
  - intros H. exists x. split; [exact H|apply N.eqb_refl].
Qed.

(** What [re.I] takes for a letter is a word character, and what it takes
    for any other character is that character. *)
Lemma variant_word (a : ascii) (x : char) :
  ci_char a x = true -> is_word x = is_word (code a).
Proof.
  intros H. apply ci_char_In in H. revert H.
  ascii_cases a; intros H; vm_compute in H;
    repeat (destruct H as [<- | H]); try contradiction;
    vm_compute; reflexivity.
Qed.

Lemma variant_space (a : ascii) (x : char) :
  ci_char a x = true -> is_space x = is_space (code a).
Proof.
  intros H. apply ci_char_In in H. revert H.
  ascii_cases a; intros H; vm_compute in H;
    repeat (destruct H as [<- | H]); try contradiction;
    vm_compute; reflexivity.
Qed.

Lemma variant_digit (a : ascii) (x : char) :
  is_digit (code a) = true -> ci_char a x = true -> x = code a.
Proof.
  intros Hd H. apply ci_char_In in H. revert Hd H.
  ascii_cases a; intros Hd H; vm_compute in Hd; try discriminate;
    vm_compute in H; repeat (destruct H as [<- | H]); try contradiction;
    reflexivity.
Qed.

Lemma ci_char_refl (a : ascii) : ci_char a (code a) = true.
Proof. ascii_cases a; vm_compute; reflexivity. Qed.

(** ** Strings as character lists *)

Lemma str_of_app (a b : string) : str_of (a ++ b)%string = str_of a ++ str_of b.
Proof.
  unfold str_of, chars. induction a as [|c a IH]; simpl; [reflexivity|].
  now rewrite IH.
Qed.

Lemma code_inj (a b : ascii) : code a = code b -> a = b.
Proof.
  unfold code. intros H. apply (f_equal ascii_of_N) in H.
  now rewrite !ascii_N_embedding in H.
Qed.

Lemma str_of_inj (a b : string) : str_of a = str_of b -> a = b.
Proof.
  unfold str_of, chars. revert b.
  induction a as [|c a IH]; intros [|c' b]; simpl; try discriminate; auto.
  intros [= Hc H]. f_equal; [now apply code_inj|now apply IH].
Qed.

Lemma last_default {A : Type} (l : list A) (a d1 d2 : A) :
  List.last (a :: l) d1 = List.last (a :: l) d2.
Proof.
  revert a. induction l as [|b l IH]; intros a; [reflexivity|].
  change (List.last (b :: l) d1 = List.last (b :: l) d2). apply IH.
Qed.

Lemma prev_after_cons (p : option char) (c : char) (w : list char) :
  prev_after p (c :: w) = prev_after (Some c) w.
Proof.
  unfold prev_after. destruct w as [|c' w]; [reflexivity|].
  change (List.last (map Some (c' :: w)) p
          = List.last (map Some (c' :: w)) (Some c)).
  apply last_default.
Qed.

Lemma prev_after_app (p : option char) (w1 w2 : list char) :
  prev_after p (w1 ++ w2) = prev_after (prev_after p w1) w2.
Proof.
  revert p. induction w1 as [|c w1 IH]; intros p; [reflexivity|].
  simpl. now rewrite !prev_after_cons, IH.
Qed.

Lemma prev_after_last (p : option char) (w : list char) (c : char) :
  prev_after p (w ++ [c]) = Some c.
Proof. now rewrite prev_after_app. Qed.

(** ** The matcher finds only what the pattern denotes *)

Lemma within_step (hi : option nat) (n : nat) :
  can_more hi = true -> within (dec_hi hi) n -> within hi (S n).
Proof. destruct hi as [[|h]|]; simpl; intros; try discriminate; lia. Qed.

Lemma rep_sound ic a k x :
  forall l lo hi p g,
    rep ic a lo hi k p l g = Some x ->
    exists w after,
      l = w ++ after /\ forallb (atom_match ic a) w = true /\
      (lo <= length w)%nat /\ within hi (length w) /\
      k (MState (prev_after p w) after g) = Some x.
Proof.
  assert (Hstop : forall l lo hi p g,
    match lo with O => k (MState p l g) | S _ => None end = Some x ->
    exists w after,
      l = w ++ after /\ forallb (atom_match ic a) w = true /\
      (lo <= length w)%nat /\ within hi (length w) /\
      k (MState (prev_after p w) after g) = Some x).
  { intros l lo hi p g H. destruct lo; [|discriminate].
    exists [], l. repeat split; auto.
    destruct hi; simpl; lia. }
  induction l as [|c tl IH]; intros lo hi p g H; simpl in H.
  - now apply Hstop.
  - destruct (can_more hi && atom_match ic a c) eqn:E; [|now apply Hstop].
    destruct (rep ic a (Nat.pred lo) (dec_hi hi) k (Some c) tl g) eqn:R;
      [|now apply Hstop].
    injection H as ->. apply andb_prop in E as [E1 E2].
    destruct (IH _ _ _ _ R) as (w & after & -> & Hw & Hlo & Hhi & Hk).
    exists (c :: w), after. rewrite prev_after_cons. simpl.
    rewrite E2, Hw. repeat split; auto; [lia|].
    now apply within_step.
Qed.

Lemma exec_sound ic r :
  forall k st x,
    exec ic r k st = Some x ->
    exists w after g',
      rest st = w ++ after /\
      den ic r (prev st) w after (grp st) g' /\
      k (MState (prev_after (prev st) w) after g') = Some x.
Proof.
  induction r as [|a|r1 IH1 r2 IH2|r1 IH1 r2 IH2|a lo hi|r1 IH1| |];
    intros k st x H; simpl in H.
  - exists [], (rest st), (grp st). destruct st; simpl. auto.
  - destruct (rest st) as [|c tl] eqn:Er; [discriminate|].
    destruct (atom_match ic a c) eqn:Ea; [|discriminate].
    exists [c], tl, (grp st). simpl. split; [reflexivity|]. split; [eauto|].
    exact H.
  - destruct (IH1 _ _ _ H) as (w1 & a1 & g1 & E1 & D1 & K1).
    destruct (IH2 _ _ _ K1) as (w2 & a2 & g2 & E2 & D2 & K2).
    simpl in E2, D2, K2. subst a1.
    exists (w1 ++ w2), a2, g2. rewrite <- app_assoc, prev_after_app.
    split; [exact E1|]. split; [|exact K2].
    simpl. exists w1, w2, g1. auto.
  - destruct (exec ic r1 k st) eqn:E1.
    + injection H as ->. destruct (IH1 _ _ _ E1) as (w & a & g & ? & ? & ?).
      exists w, a, g. simpl. auto.
    + destruct (IH2 _ _ _ H) as (w & a & g & ? & ? & ?).
      exists w, a, g. simpl. auto.
  - destruct (rep_sound _ _ _ _ _ _ _ _ _ H) as (w & a' & E & Hw & Hlo & Hhi & K).
    exists w, a', (grp st). simpl. auto 10.
  - destruct (IH1 _ _ _ H) as (w & a & g & E & D & K).
    simpl in K. rewrite E in K.
    replace (length (w ++ a) - length a)%nat with (length w) in K
      by (rewrite length_app; lia).
    rewrite firstn_app, Nat.sub_diag, firstn_all in K. simpl in K.
    rewrite app_nil_r in K.
    exists w, a, (Some w). simpl. eauto.
  - destruct (at_boundary (prev st) (rest st)) eqn:B; [|discriminate].
    exists [], (rest st), (grp st). destruct st; simpl in *. auto.
  - destruct (at_eol (rest st)) eqn:B; [|discriminate].
    exists [], (rest st), (grp st). destruct st; simpl in *. auto.
Qed.

(** ** The matcher finds a match whenever the pattern denotes one *)

Lemma rep_complete ic a k after g :
  forall w lo hi p,
    forallb (atom_match ic a) w = true ->
    (lo <= length w)%nat -> within hi (length w) ->
    is_Some (k (MState (prev_after p w) after g)) ->
    is_Some (rep ic a lo hi k p (w ++ after) g).
Proof.
  induction w as [|c w IH]; intros lo hi p Hw Hlo Hhi Hk.
  - simpl in Hlo. assert (lo = 0)%nat as -> by lia.
    change (prev_after p []) with p in Hk.
    destruct after as [|c tl]; simpl; [exact Hk|].
    destruct (can_more hi && atom_match ic a c); [|exact Hk].
    destruct (rep ic a _ _ k (Some c) tl g); [eauto|exact Hk].
  - simpl in Hw. apply andb_prop in Hw as [Hc Hw].
    rewrite prev_after_cons in Hk. simpl.
    assert (can_more hi = true) as ->
      by (destruct hi as [[|h]|]; simpl in *; auto; lia).
    rewrite Hc. simpl.
    assert (is_Some (rep ic a (Nat.pred lo) (dec_hi hi) k (Some c)
                       (w ++ after) g)) as [y Hy].
    { apply IH; auto; [simpl in Hlo; lia|].
      destruct hi as [h|]; simpl in *; [lia|exact I]. }
    rewrite Hy. eauto.
Qed.

Lemma exec_complete ic r :
  forall k st w after g',
    rest st = w ++ after ->
    den ic r (prev st) w after (grp st) g' ->
    is_Some (k (MState (prev_after (prev st) w) after g')) ->
    is_Some (exec ic r k st).
Proof.
  induction r as [|a|r1 IH1 r2 IH2|r1 IH1 r2 IH2|a lo hi|r1 IH1| |];
    intros k st w after g' E D K; simpl in D |- *.
  - destruct D as [-> ->]. destruct st; simpl in *. now subst.
  - destruct D as (c & -> & Ha & ->). rewrite E. simpl. now rewrite Ha.
  - destruct D as (w1 & w2 & gm & -> & D1 & D2).
    rewrite <- app_assoc in E.
    apply (IH1 _ _ _ _ _ E D1).
    apply (IH2 _ _ w2 after g'); simpl; auto.
    now rewrite <- prev_after_app.
  - destruct (exec ic r1 k st) eqn:E1; [eauto|].
    destruct D as [D|D].
    + pose proof (IH1 _ _ _ _ _ E D K) as [y Hy]. congruence.
    + exact (IH2 _ _ _ _ _ E D K).
  - destruct D as (Hw & Hlo & Hhi & ->). rewrite E.
    now apply rep_complete.
  - destruct D as [[gi D] ->].
    apply (IH1 _ _ _ _ _ E D). simpl. rewrite E.
    replace (length (w ++ after) - length after)%nat with (length w)
      by (rewrite length_app; lia).
    rewrite firstn_app, Nat.sub_diag, firstn_all. simpl.
    now rewrite app_nil_r.
  - destruct D as (-> & B & ->). simpl in E. rewrite E, B.
    destruct st; simpl in *. now subst.
  - destruct D as (-> & B & ->). simpl in E. rewrite E, B.
    destruct st; simpl in *. now subst.
Qed.

(** ** [re.search] returns the leftmost match *)

Lemma match_here_sound ic r p l i m :
  match_here ic r p l i = Some m ->
  m_start m = i /\
  exists after,
    l = group0 m ++ after /\ den ic r p (group0 m) after None (group1 m).
Proof.
  unfold match_here. intros H.
  destruct (exec ic r Some (MState p l None)) as [st'|] eqn:E; [|discriminate].
  injection H as <-. simpl.
  destruct (exec_sound _ _ _ _ _ E) as (w & after & g' & El & D & K).
  simpl in *. injection K as <-. simpl. subst l.
  replace (length (w ++ after) - length after)%nat with (length w)
    by (rewrite length_app; lia).
  rewrite firstn_app, Nat.sub_diag, firstn_all. simpl. rewrite app_nil_r.
  eauto.
Qed.

Lemma match_here_complete ic r p w after g i :
  den ic r p w after None g -> is_Some (match_here ic r p (w ++ after) i).
Proof.
  intros D. unfold match_here.
  destruct (exec_complete ic r Some (MState p (w ++ after) None) w after g)
    as [x Hx]; simpl; eauto.
  rewrite Hx. eauto.
Qed.

Lemma search_from_some ic r :
  forall l p i m,
    search_from ic r p l i = Some m ->
    exists pre post,
      l = pre ++ post /\
      match_here ic r (prev_after p pre) post (i + length pre) = Some m /\
      forall pre' post',
        l = pre' ++ post' -> (length pre' < length pre)%nat ->
        match_here ic r (prev_after p pre') post' (i + length pre') = None.
Proof.
  induction l as [|c tl IH]; intros p i m H; simpl in H.
  - destruct (match_here ic r p [] i) eqn:E; [|discriminate].
    injection H as ->. exists [], []. simpl. rewrite Nat.add_0_r.
    repeat split; auto. intros; lia.
  - destruct (match_here ic r p (c :: tl) i) eqn:E.
    + injection H as ->. exists [], (c :: tl). simpl. rewrite Nat.add_0_r.
      repeat split; auto. intros; lia.
    + destruct (IH _ _ _ H) as (pre & post & -> & Hm & Hmin).
      exists (c :: pre), post. rewrite prev_after_cons. simpl.
      rewrite Nat.add_succ_r. repeat split; auto.
      intros [|c' pre'] post' E' Hlt; simpl in *.
      * rewrite Nat.add_0_r, <- E'. exact E.
      * injection E' as <- E'. rewrite prev_after_cons, Nat.add_succ_r.
        apply (Hmin pre' post' E'). lia.
Qed.

Lemma search_from_none ic r :
  forall l p i,
    search_from ic r p l i = None ->
    forall pre post j,
      l = pre ++ post ->
      match_here ic r (prev_after p pre) post j = None.
Proof.
  assert (Hj : forall p l i j,
    match_here ic r p l i = None -> match_here ic r p l j = None).
  { unfold match_here. intros p l i j.
    destruct (exec ic r Some (MState p l None)); [discriminate|auto]. }
  induction l as [|c tl IH]; intros p i H pre post j E; simpl in H.
  - destruct (match_here ic r p [] i) eqn:Em; [discriminate|].
    symmetry in E. apply app_eq_nil in E as [-> ->]. eapply Hj, Em.
  - destruct (match_here ic r p (c :: tl) i) eqn:Em; [discriminate|].
    destruct pre as [|c' pre]; simpl in E.
    + subst post. eapply Hj, Em.
    + injection E as <- E. rewrite prev_after_cons. eapply IH; eauto.
Qed.

Lemma search_sound ic r s m :
  search ic r s = Some m ->
  matches_at ic r s (m_start m) (group0 m) (group1 m) /\
  forall j w g,
    (j < m_start m)%nat -> ~ matches_at ic r s j w g.
Proof.
  unfold search. intros H.
  destruct (search_from_some _ _ _ _ _ _ H) as (pre & post & E & Hm & Hmin).
  destruct (match_here_sound _ _ _ _ _ _ Hm) as (Hs & after & Ep & D).
  simpl in Hs. split.
  - exists pre, after. rewrite <- Ep. auto.
  - intros j w g Hlt (pre' & after' & E' & Hl & D').
    specialize (Hmin pre' (w ++ after') E').
    destruct (match_here_complete ic r _ _ _ _ (0 + length pre')%nat D')
      as [y Hy].
    rewrite Hmin in Hy; [discriminate|]. lia.
Qed.

Lemma search_none ic r s :
  search ic r s = None ->
  forall j w g, ~ matches_at ic r s j w g.
Proof.
  unfold search. intros H j w g (pre & after & E & Hl & D).
  pose proof (search_from_none _ _ _ _ _ H pre (w ++ after) 0%nat E) as Hn.
  destruct (match_here_complete ic r _ _ _ _ 0%nat D) as [y Hy].
  congruence.
Qed.

Lemma search_complete ic r s j w g :
  matches_at ic r s j w g -> is_Some (search ic r s).
Proof.
  intros M. destruct (search ic r s) eqn:E; [eauto|].
  exfalso. exact (search_none _ _ _ E _ _ _ M).
Qed.

(** ** Literals and whitespace runs *)

Lemma Forall2_reverse {A B : Type} (P : A -> B -> Prop) (l : list A)
    (k : list B) :
  Forall2 P l k -> Forall2 P (rev l) (rev k).
Proof.
  induction 1 as [|x y l k Hxy H IH]; simpl; [constructor|].
  apply Forall2_app; [exact IH|]. now constructor.
Qed.

Lemma forallb_reverse {A : Type} (f : A -> bool) (l : list A) :
  forallb f l = true -> forallb f (rev l) = true.
Proof.
  rewrite !forallb_forall. intros H x Hx. apply H. now apply in_rev.
Qed.

Lemma den_lit_ci :
  forall l p w after g g',
    den true (lit_chars l) p w after g g' <->
    Forall2 (fun x c => ci_char c x = true) w l /\ g' = g.
Proof.
  induction l as [|c l IH]; intros p w after g g'; cbn [lit_chars den].
  - split; [intros [-> ->]; split; [constructor|reflexivity]|].
    intros [H ->]. inversion H. auto.
  - split.
    + intros (w1 & w2 & gm & -> & (x & -> & Hx & ->) & D).
      apply IH in D as [D ->]. cbn [atom_match cls_match] in Hx.
      split; [|reflexivity]. constructor; assumption.
    + intros [H ->]. inversion H as [|x c' w' l' Hx Hw]; subst.
      exists [x], w', g. split; [reflexivity|]. split.
      * exists x. cbn [atom_match cls_match]. auto.
      * apply IH. auto.
Qed.

Lemma den_lit_cs :
  forall l p w after g g',
    den false (lit_chars l) p w after g g' <-> w = map code l /\ g' = g.
Proof.
  induction l as [|c l IH]; intros p w after g g'; cbn [lit_chars den map].
  - tauto.
  - split.
    + intros (w1 & w2 & gm & -> & (x & -> & Hx & ->) & D).
      apply IH in D as [-> ->]. cbn [atom_match cls_match] in Hx.
      apply N.eqb_eq in Hx. now subst.
    + intros [-> ->]. exists [code c], (map code l), g.
      split; [reflexivity|]. split.
      * exists (code c). cbn [atom_match cls_match]. rewrite N.eqb_refl. auto.
      * apply IH. auto.
Qed.

Lemma den_s_plus ic p w after g g' :
  den ic s_plus p w after g g' <-> blank w /\ g' = g.
Proof.
  unfold s_plus, blank. cbn [den atom_match cls_match within].
  split.
  - intros (Hw & Hl & _ & ->). repeat split; auto.
    destruct w; simpl in *; [lia|discriminate].
  - intros [[Hn Hw] ->]. repeat split; auto.
    destruct w; simpl; [congruence|lia].
Qed.

Lemma ci_eq_refl (s : string) : ci_eq (str_of s) s.
Proof.
  unfold ci_eq, str_of. induction (chars s) as [|c l IH]; constructor; auto.
  apply ci_char_refl.
Qed.

Lemma ci_eq_length (w : list char) (s : string) :
  ci_eq w s -> length w = length (chars s).
Proof. apply Forall2_length. Qed.

Lemma ci_eq_digits (w : list char) (s : string) :
  forallb (fun c => is_digit (code c)) (chars s) = true ->
  ci_eq w s -> w = str_of s.
Proof.
  unfold ci_eq, str_of. generalize (chars s) as l. clear s.
  intros l Hd H. induction H as [|x c w l Hx Hw IH]; [reflexivity|].
  simpl in Hd. apply andb_prop in Hd as [Hc Hd]. simpl.
  f_equal; [now apply variant_digit|now apply IH].
Qed.

(** The first character of a word read by [re.I] is a word character or
    whitespace exactly when the first letter of the word is. *)
Lemma ci_head (w : list char) (s : string) (c : ascii) :
  ci_eq w s -> head (chars s) = Some c ->
  exists x, head w = Some x /\
    is_word x = is_word (code c) /\ is_space x = is_space (code c).
Proof.
  unfold ci_eq. intros H Hc. destruct H as [|x c' w l Hx _]; [discriminate|].
  simpl in Hc. injection Hc as ->. exists x. split; [reflexivity|].
  split; [now apply variant_word|now apply variant_space].
Qed.

Lemma ci_last (w : list char) (s : string) (c : ascii) :
  ci_eq w s -> head (rev (chars s)) = Some c ->
  exists x, head (rev w) = Some x /\ is_word x = is_word (code c).
Proof.
  unfold ci_eq. intros H Hc. apply Forall2_reverse in H.
  destruct H as [|x c' w' l Hx _]; [discriminate|].
  simpl in Hc. injection Hc as ->. exists x. split; [reflexivity|].
  now apply variant_word.
Qed.

Lemma prev_after_rev (p : option char) (w : list char) (x : char) :
  head (rev w) = Some x -> prev_after p w = Some x.
Proof.
  intros H. rewrite <- (rev_involutive w).
  destruct (rev w) as [|y l]; [discriminate|]. injection H as ->.
  simpl. apply prev_after_last.
Qed.

(** ** [int] on a run of decimal digits *)

Lemma ascii_digit_not_c_space (c : char) :
  is_ascii_digit c = true -> is_c_space c = false.
Proof.
  unfold is_ascii_digit, is_c_space, between. intros H.
  apply andb_prop in H as [H1 H2]. apply N.leb_le in H1, H2.
  apply orb_false_intro; [apply andb_false_intro2, N.leb_gt|apply N.eqb_neq];
    lia.
Qed.

Lemma drop_c_space_digits (l : list char) :
  forallb is_ascii_digit l = true -> drop_c_space l = l.
Proof.
  destruct l as [|c l]; [reflexivity|]. simpl. intros H.
  apply andb_prop in H as [H _]. now rewrite ascii_digit_not_c_space.
Qed.

Lemma body_ok_digits (l : list char) (b : bool) :
  forallb is_ascii_digit l = true -> l <> [] -> body_ok b l = true.
Proof.
  revert b. induction l as [|c l IH]; intros b H Hn; [congruence|].
  simpl in H |- *. apply andb_prop in H as [Hc H]. rewrite Hc.
  destruct l as [|c' l]; [reflexivity|]. apply IH; [exact H|discriminate].
Qed.

Lemma filter_all {A : Type} (f : A -> bool) (l : list A) :
  forallb f l = true -> List.filter f l = l.
Proof.
  induction l as [|x l IH]; simpl; [reflexivity|]. intros H.
  apply andb_prop in H as [-> H]. now rewrite IH.
Qed.

Lemma int_body_digits (limit : nat) (l : list char) :
  forallb is_ascii_digit l = true -> l <> [] -> (length l <= 640)%nat ->
  int_body limit l = Some (int_value l).
Proof.
  intros H Hn Hl. unfold int_body. rewrite (filter_all _ _ H).
  rewrite (body_ok_digits l false H Hn). unfold too_many.
  destruct (Nat.ltb_spec 640 (length l)); [lia|]. reflexivity.
Qed.

Lemma int_of_ascii_digits (limit : nat) (l : list char) :
  forallb is_ascii_digit l = true -> l <> [] -> (length l <= 640)%nat ->
  match rev (drop_c_space (rev (drop_c_space l))) with
  | c :: b =>
      if (c =? 43)%N then int_body limit b
      else if (c =? 45)%N then option_map Z.opp (int_body limit b)
      else int_body limit (c :: b)
  | [] => None
  end = Some (int_value l).
Proof.
  intros H Hn Hl. rewrite (drop_c_space_digits l H).
  rewrite drop_c_space_digits by (now apply forallb_reverse).
  rewrite rev_involutive. destruct l as [|c b]; [congruence|].
  pose proof H as Hc. simpl in Hc. apply andb_prop in Hc as [Hc _].
  unfold is_ascii_digit, between in Hc. apply andb_prop in Hc as [H1 H2].
  apply N.leb_le in H1, H2.
  destruct (N.eqb_spec c 43); [lia|]. destruct (N.eqb_spec c 45); [lia|].
  now apply int_body_digits.
Qed.

Lemma int_value_digits (s : list char) (n : Z) :
  digits s ->
  fold_left (fun n c => 10 * n + Z.of_N (c - 48))%Z (map int_char s) n
  = fold_left (fun n c => 10 * n + digit_val c)%Z s n.
Proof.
  unfold digits. revert n. induction s as [|c s IH]; intros n H; [reflexivity|].
  simpl in H. apply andb_prop in H as [Hc H]. simpl.
  rewrite (proj2 (int_char_digit c Hc)). now apply IH.
Qed.

(** [int] of a run of decimal digits is its value in base ten, whatever
    the script of the digits. *)
Lemma py_int_digits (e : env) (s : str) :
  digits s -> s <> [] -> (length s <= 640)%nat ->
  py_int e s = Some (fold_left (fun n c => 10 * n + digit_val c)%Z s 0%Z).
Proof.
  intros Hd Hn Hl. unfold py_int, int_of_str.
  rewrite int_of_ascii_digits.
  - unfold int_value. now rewrite int_value_digits.
  - unfold digits in Hd. rewrite forallb_forall in Hd |- *.
    intros x Hx. apply in_map_iff in Hx as (c & <- & Hc).
    apply int_char_digit. now apply Hd.
  - destruct s; [congruence|discriminate].
  - now rewrite length_map.
Qed.

(** ** The year pattern *)

Lemma year_re_den p w after g :
  den true YEAR_RE p w after None g <->
  (exists y, year_phrase w y) /\ word_opt p = false /\
  g = Some (firstn 4 w).
Proof.
  unfold YEAR_RE. cbn [cat alt den]. split.
  - intros (w0 & w1 & g0 & -> & (-> & B & E0) & H).
    destruct H as (wg & w2 & g1 & -> & ([gi D] & E1) & H).
    destruct D as (w20 & wdd & g2 & -> & D20 & (Hdd & Hlo & Hhi & _)).
    destruct H as (ws1 & w3 & g3 & -> & Ds1 & H).
    destruct H as (q & w4 & g4 & -> & Dq & H).
    destruct H as (ws2 & w5 & g5 & -> & Ds2 & H).
    destruct H as (sess & w6 & g6 & -> & Dsess & (-> & E6)).
    apply den_lit_ci in D20 as [D20 _].
    apply (ci_eq_digits _ "20" eq_refl) in D20. subst w20.
    apply den_s_plus in Ds1 as [Ds1 E3]. apply den_s_plus in Ds2 as [Ds2 E5].
    apply den_lit_ci in Dsess as [Dsess E7].
    assert (E4 : g4 = g3)
      by (unfold lit in Dq; rewrite !den_lit_ci in Dq; tauto).
    simpl in Hhi.
    destruct wdd as [|d3 [|d4 [|]]]; simpl in Hlo, Hhi; try lia.
    split; [|split].
    + exists (2000 + 10 * digit_val d3 + digit_val d4)%Z.
      exists d3, d4, ws1, q, ws2, sess. rewrite app_nil_r.
      unfold lit in Dq. rewrite !den_lit_ci in Dq.
      split; [now rewrite <- !app_assoc|].
      split; [exact Hdd|]. split; [reflexivity|]. split; [exact Ds1|].
      split; [unfold ci_eq; tauto|]. split; [exact Ds2|exact Dsess].
    + cbn [app] in B. unfold at_boundary in B.
      change (word_opt (head ((str_of "20" ++ [d3; d4]) ++ _)))
        with (is_word 50%N) in B.
      change (is_word 50%N) with true in B.
      now destruct (word_opt p).
    + subst. reflexivity.
  - intros ((y & d3 & d4 & ws1 & q & ws2 & sess & -> & Hd & -> & Hs1 & Hq
             & Hs2 & Hsess) & Hb & ->).
    exists [], (str_of "20" ++ [d3; d4] ++ ws1 ++ q ++ ws2 ++ sess), None.
    split; [reflexivity|]. split.
    { split; [reflexivity|]. split; [|reflexivity].
      unfold at_boundary.
      change (word_opt (head (str_of "20" ++ _))) with (is_word 50%N).
      change (is_word 50%N) with true. now rewrite Hb. }
    exists (str_of "20" ++ [d3; d4]), (ws1 ++ q ++ ws2 ++ sess),
      (Some (str_of "20" ++ [d3; d4])).
    split; [now rewrite <- !app_assoc|]. split.
    { split; [|reflexivity]. exists None.
      exists (str_of "20"), [d3; d4], None. split; [reflexivity|]. split.
      - apply den_lit_ci. split; [apply ci_eq_refl|reflexivity].
      - repeat split; simpl; auto. }
    exists ws1, (q ++ ws2 ++ sess), (Some (str_of "20" ++ [d3; d4])).
    split; [reflexivity|]. split; [now apply den_s_plus|].
    exists q, (ws2 ++ sess), (Some (str_of "20" ++ [d3; d4])).
    split; [reflexivity|]. split.
    { unfold lit. rewrite !den_lit_ci. unfold ci_eq in Hq. tauto. }
    exists ws2, sess, (Some (str_of "20" ++ [d3; d4])).
    split; [reflexivity|]. split; [now apply den_s_plus|].
    exists sess, [], (Some (str_of "20" ++ [d3; d4])).
    split; [now rewrite app_nil_r|]. split; [|split; reflexivity].
    apply den_lit_ci. auto.
Qed.

(** ** Year extraction *)

Lemma year_phrase_int (e : env) (w : list char) (y : Z) :
  year_phrase w y -> py_int e (firstn 4 w) = Some y.
Proof.
  intros (d3 & d4 & ws1 & q & ws2 & sess & -> & Hd & -> & _).
  change (firstn 4 (str_of "20" ++ [d3; d4] ++ ws1 ++ q ++ ws2 ++ sess))
    with (50 :: 48 :: [d3; d4])%N.
  rewrite py_int_digits.
  - cbn [fold_left]. change (digit_val 50%N) with 2%Z.
    change (digit_val 48%N) with 0%Z. f_equal. lia.
  - unfold digits in *. cbn [forallb] in *.
    change (is_digit 50%N) with true. change (is_digit 48%N) with true.
    exact Hd.
  - discriminate.
  - simpl. lia.
Qed.

Lemma year_phrase_head (w post : list char) (y : Z) :
  year_phrase w y -> firstn 4 (w ++ post) = firstn 4 w.
Proof.
  intros (d3 & d4 & ws1 & q & ws2 & sess & -> & _). reflexivity.
Qed.

Lemma year_match_matches (text : str) (i : nat) (y : Z) :
  year_match_at text i y <->
  exists w, matches_at true YEAR_RE text i w (Some (firstn 4 w)) /\
            year_phrase w y.
Proof.
  split.
  - intros (pre & w & post & E & Hl & Hy & Hb).
    exists w. split; [|exact Hy]. exists pre, post.
    split; [exact E|]. split; [exact Hl|]. apply year_re_den. eauto.
  - intros (w & (pre & post & E & Hl & D) & Hy).
    apply year_re_den in D as (_ & Hb & _). exists pre, w, post. auto.
Qed.

Lemma year_match_fun (text : str) (i : nat) (y y' : Z) :
  year_match_at text i y -> year_match_at text i y' -> y = y'.
Proof.
  intros (pre & w & post & E & Hl & Hy & _)
         (pre' & w' & post' & E' & Hl' & Hy' & _).
  rewrite E in E'. apply app_inj_1 in E' as [_ E']; [|congruence].
  pose proof (year_phrase_int (world [] []) _ _ Hy) as H.
  pose proof (year_phrase_int (world [] []) _ _ Hy') as H'.
  rewrite <- (year_phrase_head w post y Hy) in H.
  rewrite <- (year_phrase_head w' post' y' Hy') in H'.
  rewrite E' in H. congruence.
Qed.

Lemma extract_year_search (e : env) (text : str) :
  match search true YEAR_RE text with
  | Some m =>
      exists y,
        extract_year e text = Some (Some y) /\
        year_match_at text (m_start m) y /\
        forall j y', (j < m_start m)%nat -> ~ year_match_at text j y'
  | None =>
      extract_year e text = Some None /\
      forall i y, ~ year_match_at text i y
  end.
Proof.
  unfold extract_year. destruct (search true YEAR_RE text) as [m|] eqn:S.
  - destruct (search_sound _ _ _ _ S) as [M Hmin].
    pose proof M as (pre & post & E & Hl & D).
    apply year_re_den in D as ([y Hy] & Hb & Hg).
    exists y. rewrite Hg, (year_phrase_int e _ _ Hy).
    split; [reflexivity|]. split.
    + exists pre, (group0 m), post. auto.
    + intros j y' Hlt Hj. apply year_match_matches in Hj as (w & Hj & _).
      exact (Hmin _ _ _ Hlt Hj).
  - split; [reflexivity|]. intros i y Hi.
    apply year_match_matches in Hi as (w & Hi & _).
    exact (search_none _ _ _ S _ _ _ Hi).
Qed.

(** C5, amended.  The extracted year is the value of the leftmost
    occurrence of the year phrase that is not preceded by a word character;
    when there is no such occurrence the year is absent.  [int] never
    raises here. *)
Theorem extract_year_first_match (e : env) (text : str) :
  (forall i y,
      year_match_at text i y ->
      (forall j y', (j < i)%nat -> ~ year_match_at text j y') ->
      extract_year e text = Some (Some y)) /\
  ((forall i y, ~ year_match_at text i y) ->
   extract_year e text = Some None).
Proof.
  pose proof (extract_year_search e text) as H.
  destruct (search true YEAR_RE text) as [m|].
  - destruct H as (y0 & E & Hm & Hmin). split.
    + intros i y Hi Hfirst.
      destruct (Nat.lt_trichotomy i (m_start m)) as [Hlt|[->|Hgt]].
      * destruct (Hmin _ _ Hlt Hi).
      * now rewrite (year_match_fun _ _ _ _ Hi Hm).
      * destruct (Hfirst _ _ Hgt Hm).
    + intros Hnone. destruct (Hnone _ _ Hm).
  - destruct H as [E Hnone]. split; [|auto].
    intros i y Hi. destruct (Hnone _ _ Hi).
Qed.

Lemma plain_year_phrase :
  year_phrase (str_of "2024 Regular Session") 2024.
Proof.
  exists 50%N, 52%N, (str_of " "), (str_of "Regular"), (str_of " "),
    (str_of "Session").
  split; [reflexivity|]. split; [reflexivity|]. split; [reflexivity|].
  split; [split; [discriminate|reflexivity]|].
  split; [left; apply ci_eq_refl|].
  split; [split; [discriminate|reflexivity]|apply ci_eq_refl].
Qed.

(** C5 as stated fails: in this text the year phrase occurs at offset 2,
    nowhere before, and no year is extracted, because the occurrence is
    preceded by a letter. *)
Lemma year_glued_counterexample :
  year_phrase_at (str_of "FY2024 Regular Session") 2 2024 /\
  (forall j y', (j < 2)%nat ->
     ~ year_phrase_at (str_of "FY2024 Regular Session") j y') /\
  forall e, extract_year e (str_of "FY2024 Regular Session") = Some None.
Proof.
  split; [|split].
  - exists (str_of "FY"), (str_of "2024 Regular Session"), [].
    split; [reflexivity|]. split; [reflexivity|]. exact plain_year_phrase.
  - intros j y' Hj (pre & w & post & E & Hl & d3 & d4 & ws1 & q & ws2 & sess
                    & -> & _).
    destruct pre as [|c [|c' pre]]; simpl in Hl; try lia;
      vm_compute in E; discriminate.
  - intros e. unfold extract_year.
    replace (search true YEAR_RE (str_of "FY2024 Regular Session"))
      with (@None rmatch) by (vm_compute; reflexivity).
    reflexivity.
Qed.

Lemma extract_year_witness :
  extract_year one_session_env (str_of "2024 Regular Session laws")
  = Some (Some 2024%Z) /\
  extract_year one_session_env [] = Some None.
Proof.
  split.
  - apply (proj1 (extract_year_first_match one_session_env _) 0%nat).
    + exists [], (str_of "2024 Regular Session"), (str_of " laws").
      split; [reflexivity|]. split; [reflexivity|].
      split; [exact plain_year_phrase|reflexivity].
    + intros j y' Hj. lia.
  - apply (proj2 (extract_year_first_match one_session_env _)).
    intros i y (pre & w & post & E & _ & (d3 & d4 & ws1 & q & ws2 & sess & -> & _) & _).
    destruct pre; discriminate.
Defined.

(** ** Identifier extraction *)

Lemma run_unique {A : Type} (P : A -> bool) :
  forall l1 l2 r1 r2 x1 x2,
    forallb P l1 = true -> forallb P l2 = true ->
    l1 ++ r1 = l2 ++ r2 ->
    head r1 = Some x1 -> P x1 = false ->
    head r2 = Some x2 -> P x2 = false ->
    l1 = l2 /\ r1 = r2.
Proof.
  induction l1 as [|a l1 IH]; intros [|b l2] r1 r2 x1 x2 H1 H2 E Hx1 P1 Hx2 P2;
    simpl in *.
  - auto.
  - subst r1. simpl in Hx1. injection Hx1 as <-.
    apply andb_prop in H2 as [Hb _]. congruence.
  - subst r2. simpl in Hx2. injection Hx2 as <-.
    apply andb_prop in H1 as [Ha _]. congruence.
  - injection E as <- E. apply andb_prop in H1 as [_ H1].
    apply andb_prop in H2 as [_ H2].
    destruct (IH l2 r1 r2 x1 x2 H1 H2 E Hx1 P1 Hx2 P2) as [-> ->]. auto.
Qed.

Lemma digits_last_word (n : list char) (p : option char) :
  digits n -> n <> [] -> word_opt (prev_after p n) = true.
Proof.
  intros Hd Hn. destruct n as [|d0 n] using rev_ind; [congruence|].
  unfold digits in Hd. rewrite forallb_app in Hd. simpl in Hd.
  apply andb_prop in Hd as [_ Hd]. apply andb_prop in Hd as [Hd _].
  rewrite prev_after_last. simpl. now apply digit_is_word.
Qed.

Lemma head_app_some {A : Type} (l r : list A) (x : A) :
  head l = Some x -> head (l ++ r) = Some x.
Proof. destruct l; [discriminate|auto]. Qed.

Lemma bill_re_den_iff p w after g :
  den true BILLNUM_RE p w after None g <->
  exists n,
    house_bill_phrase w n /\ word_opt p = false /\
    word_opt (head after) = false /\ g = Some n.
Proof.
  unfold BILLNUM_RE. cbn [cat den]. split.
  - intros (w0 & w1 & g0 & -> & (-> & B & E0) & H).
    destruct H as (h & w2 & g1 & -> & Dh & H).
    destruct H as (ws1 & w3 & g2 & -> & Ds1 & H).
    destruct H as (b & w4 & g3 & -> & Db & H).
    destruct H as (ws2 & w5 & g4 & -> & Ds2 & H).
    destruct H as (n & w6 & g5 & -> & ([gi (Hn & Hlo & Hhi & _)] & E5) & H).
    destruct H as (w7 & w8 & g6 & -> & (-> & B' & E6) & (-> & E7)).
    apply den_lit_ci in Dh as [Dh _]. apply den_lit_ci in Db as [Db _].
    apply den_s_plus in Ds1 as [Ds1 _]. apply den_s_plus in Ds2 as [Ds2 _].
    simpl in Hhi. exists n. rewrite !app_nil_r in *.
    split; [|split; [|split]].
    + exists h, ws1, b, ws2. simpl. repeat split; auto; apply Ds1 || apply Ds2.
    + destruct (ci_head h "HOUSE" "H"%char Dh eq_refl) as (x & Hx & Wx & _).
      unfold at_boundary in B. cbn [app] in B.
      rewrite (head_app_some _ _ _ (head_app_some _ _ _ Hx)) in B.
      cbn [word_opt] in B. rewrite Wx in B.
      change (is_word (code "H")) with true in B.
      now destruct (word_opt p).
    + unfold at_boundary in B'.
      rewrite (digits_last_word n _ Hn) in B'
        by (intros ->; simpl in Hlo; lia).
      cbn [app] in B'. now destruct (word_opt (head after)).
    + congruence.
  - intros (n & (h & ws1 & b & ws2 & -> & Hh & Hs1 & Hb & Hs2 & Hd & Hl)
            & Hp & Ha & ->).
    exists [], (h ++ ws1 ++ b ++ ws2 ++ n), None.
    split; [reflexivity|]. split.
    { split; [reflexivity|]. split; [|reflexivity].
      destruct (ci_head h "HOUSE" "H"%char Hh eq_refl) as (x & Hx & Wx & _).
      unfold at_boundary.
      rewrite (head_app_some _ _ _ (head_app_some _ _ _ Hx)).
      cbn [word_opt]. rewrite Wx, Hp. reflexivity. }
    exists h, (ws1 ++ b ++ ws2 ++ n), None.
    split; [reflexivity|]. split; [apply den_lit_ci; auto|].
    exists ws1, (b ++ ws2 ++ n), None.
    split; [reflexivity|]. split; [now apply den_s_plus|].
    exists b, (ws2 ++ n), None.
    split; [reflexivity|]. split; [apply den_lit_ci; auto|].
    exists ws2, n, None.
    split; [reflexivity|]. split; [now apply den_s_plus|].
    exists n, [], (Some n).
    split; [now rewrite app_nil_r|]. split.
    { split; [|reflexivity]. exists None. simpl. repeat split; auto; lia. }
    exists [], [], (Some n). split; [reflexivity|]. split; [|auto].
    split; [reflexivity|]. split; [|reflexivity].
    unfold at_boundary. rewrite ?prev_after_app.
    rewrite (digits_last_word n _ Hd) by (intros ->; simpl in Hl; lia).
    cbn [app]. now rewrite Ha.
Qed.

Lemma filename_re_den p w after g :
  den false FILENAME_RE p w after None g ->
  exists num suf,
    w = str_of "/" ++ num ++ suf ++ str_of ".htm" /\
    digits num /\ (3 <= length num <= 4)%nat /\
    forallb (atom_match false hyphen_word) suf = true /\
    at_eol after = true /\ g = Some num.
Proof.
  unfold FILENAME_RE. cbn [cat den].
  intros (sl & w1 & g0 & -> & Dsl & H).
  destruct H as (num & w2 & g1 & -> & ([gi (Hn & Hlo & Hhi & _)] & E1) & H).
  destruct H as (suf & w3 & g2 & -> & (Hs & _ & _ & E2) & H).
  destruct H as (ext & w4 & g3 & -> & Dext & H).
  destruct H as (w5 & w6 & g4 & -> & (-> & He & E4) & (-> & E5)).
  apply den_lit_cs in Dsl as [-> _]. apply den_lit_cs in Dext as [-> E3].
  exists num, suf. simpl in Hhi, He. rewrite !app_nil_r.
  repeat split; auto. congruence.
Qed.

Lemma house_bill_match_matches (text : str) (i : nat) (n : list char) :
  house_bill_match_at text i n <->
  exists w, matches_at true BILLNUM_RE text i w (Some n).
Proof.
  split.
  - intros (pre & w & post & E & Hl & Hp & Hb & Ha).
    exists w, pre, post. split; [exact E|]. split; [exact Hl|].
    apply bill_re_den_iff. eauto.
  - intros (w & pre & post & E & Hl & D).
    apply bill_re_den_iff in D as (n' & Hp & Hb & Ha & [= <-]).
    exists pre, w, post. auto.
Qed.

Lemma extract_bill_number_digits (text url b : str) :
  extract_bill_number text url = Some b ->
  digits b /\ (3 <= length b <= 4)%nat.
Proof.
  unfold extract_bill_number.
  destruct (search true BILLNUM_RE text) as [m|] eqn:S.
  - destruct (search_sound _ _ _ _ S) as [(pre & post & _ & _ & D) _].
    apply bill_re_den_iff in D
      as (n & (h & ws1 & bb & ws2 & _ & _ & _ & _ & _ & Hd & Hl) & _ & _ & ->).
    now intros [= <-].
  - unfold filename_fallback.
    destruct (search false FILENAME_RE url) as [m|] eqn:S'; [|discriminate].
    destruct (search_sound _ _ _ _ S') as [(pre & post & _ & _ & D) _].
    apply filename_re_den in D as (num & suf & _ & Hd & Hl & _ & _ & ->).
    now intros [= <-].
Qed.

(** No delimited HOUSE BILL phrase, no match of the pattern, and back. *)
Lemma no_match_iff (text : str) :
  (forall i n, ~ house_bill_match_at text i n) <->
  search true BILLNUM_RE text = None.
Proof.
  split.
  - intros Hno. destruct (search true BILLNUM_RE text) as [m|] eqn:S; [|auto].
    destruct (search_sound _ _ _ _ S) as [M _].
    pose proof M as (pre & post & _ & _ & D).
    apply bill_re_den_iff in D as (n & _ & _ & _ & Eg). rewrite Eg in M.
    destruct (Hno (m_start m) n). apply house_bill_match_matches. eauto.
  - intros S i n H. apply house_bill_match_matches in H as [w M].
    exact (search_none _ _ _ S _ _ _ M).
Qed.

Lemma no_phrase_no_match (text : str) :
  no_house_bill_phrase text -> forall i n, ~ house_bill_match_at text i n.
Proof.
  intros Hno i n (pre & w & post & E & _ & Hp & _). exact (Hno _ _ _ _ E Hp).
Qed.

(** A greedy repetition that can take all of a maximal run continues from
    the end of the run when the rest of the pattern succeeds there. *)
Lemma rep_max ic a k after g x :
  forall w lo hi p,
    forallb (atom_match ic a) w = true ->
    (lo <= length w)%nat -> within hi (length w) ->
    hi = Some (length w) \/
      match after with c :: _ => atom_match ic a c = false | [] => True end ->
    k (MState (prev_after p w) after g) = Some x ->
    rep ic a lo hi k p (w ++ after) g = Some x.
Proof.
  induction w as [|c w IH]; intros lo hi p Hw Hlo Hhi Hmax Hk.
  - simpl in Hlo. assert (lo = 0)%nat as -> by lia.
    change (prev_after p []) with p in Hk.
    destruct after as [|c tl]; simpl; [exact Hk|].
    destruct Hmax as [-> | ->]; simpl; [exact Hk|].
    now rewrite andb_false_r.
  - simpl in Hw. apply andb_prop in Hw as [Hc Hw].
    rewrite prev_after_cons in Hk. simpl.
    assert (can_more hi = true) as ->
      by (destruct hi as [[|h]|]; simpl in *; auto; lia).
    rewrite Hc. simpl.
    rewrite (IH (Nat.pred lo) (dec_hi hi) (Some c)); auto.
    + simpl in Hlo. lia.
    + destruct hi as [h|]; simpl in *; [lia|exact I].
    + destruct Hmax as [-> | H]; [left; reflexivity|right; exact H].
Qed.

Lemma exec_lit_cs k :
  forall l p tl g,
    exec false (lit_chars l) k (MState p (map code l ++ tl) g)
    = k (MState (prev_after p (map code l)) tl g).
Proof.
  induction l as [|c l IH]; intros p tl g; [reflexivity|].
  cbn [lit_chars exec rest app grp atom_match cls_match map].
  rewrite N.eqb_refl, prev_after_cons. apply IH.
Qed.

Lemma filename_match_here p num suf i :
  digits num -> (3 <= length num <= 4)%nat ->
  forallb (atom_match false hyphen_word) suf = true ->
  length num = 4%nat \/
    match suf with c :: _ => is_digit c = false | [] => True end ->
  match_here false FILENAME_RE p
    (str_of "/" ++ num ++ suf ++ str_of ".htm") i
  = Some (RMatch i (str_of "/" ++ num ++ suf ++ str_of ".htm") (Some num)).
Proof.
  intros Hd Hl Hs Hmax. unfold match_here, FILENAME_RE.
  cbn [cat exec]. unfold lit at 1.
  change (str_of "/") with (map code (chars "/")).
  rewrite (exec_lit_cs _ (chars "/")).
  cbn [prev rest grp].
  set (fin := MState (Some 109%N) [] (Some num)).
  erewrite (rep_max false d _ (suf ++ str_of ".htm") None fin).
  - cbn [rest grp length fin]. now rewrite Nat.sub_0_r, firstn_all.
  - exact Hd.
  - lia.
  - simpl. lia.
  - destruct Hmax as [-> | H]; [left; reflexivity|right].
    destruct suf as [|c suf]; [reflexivity|exact H].
  - cbn [prev rest grp].
    erewrite (rep_max false hyphen_word _ (str_of ".htm") _ fin).
    + reflexivity.
    + exact Hs.
    + lia.
    + exact I.
    + right. reflexivity.
    + cbn [prev rest grp]. unfold lit.
      change (str_of ".htm") with (map code (chars ".htm")).
      rewrite <- (app_nil_r (map code (chars ".htm"))) at 1.
      rewrite (exec_lit_cs _ (chars ".htm")).
      cbn [exec rest at_eol prev grp].
      unfold fin. f_equal. f_equal.
      rewrite (length_app num), Nat.add_sub.
      now rewrite firstn_app, Nat.sub_diag, firstn_all, app_nil_r.
Qed.

Lemma forallb_not_In {A : Type} (f : A -> bool) (l : list A) (x : A) :
  forallb f l = true -> f x = false -> ~ In x l.
Proof.
  intros Hl Hx Hin. rewrite forallb_forall in Hl.
  specialize (Hl _ Hin). congruence.
Qed.

Lemma split_at_last {A : Type} (x : A) :
  forall a a' b b',
    a ++ x :: b = a' ++ x :: b' -> ~ In x b -> ~ In x b' -> a = a'.
Proof.
  induction a as [|y a IH]; intros [|y' a'] b b' E Hb Hb'; simpl in E.
  - reflexivity.
  - injection E as <- ->. destruct Hb. apply in_or_app. right. now left.
  - injection E as -> <-. destruct Hb'. apply in_or_app. right. now left.
  - injection E as <- E. f_equal. eapply IH; eauto.
Qed.

Lemma at_eol_no_slash (after : list char) :
  at_eol after = true -> ~ In 47%N after.
Proof.
  destruct after as [|c [|c' tl]]; simpl; try discriminate; [tauto|].
  intros H. apply N.eqb_eq in H as ->. intros [[=]|[]].
Qed.

Lemma segment_no_slash (num suf ext after : list char) :
  digits num -> forallb (atom_match false hyphen_word) suf = true ->
  ext = str_of ".htm" -> at_eol after = true ->
  ~ In 47%N (num ++ suf ++ ext ++ after).
Proof.
  intros Hd Hs -> He Hin.
  apply in_app_or in Hin as [Hin|Hin];
    [exact (forallb_not_In is_digit num 47%N Hd eq_refl Hin)|].
  apply in_app_or in Hin as [Hin|Hin];
    [exact (forallb_not_In _ suf 47%N Hs eq_refl Hin)|].
  apply in_app_or in Hin as [Hin|Hin];
    [|exact (at_eol_no_slash _ He Hin)].
  vm_compute in Hin. intuition discriminate.
Qed.

Lemma filename_search (pre num suf : list char) :
  digits num -> (3 <= length num <= 4)%nat ->
  forallb (atom_match false hyphen_word) suf = true ->
  length num = 4%nat \/
    match suf with c :: _ => is_digit c = false | [] => True end ->
  search false FILENAME_RE (pre ++ str_of "/" ++ num ++ suf ++ str_of ".htm")
  = Some (RMatch (length pre) (str_of "/" ++ num ++ suf ++ str_of ".htm")
            (Some num)).
Proof.
  intros Hd Hl Hs Hmax. unfold search.
  pose proof (filename_match_here (prev_after None pre) num suf
                (length pre) Hd Hl Hs Hmax) as Hhere.
  destruct (search_from false FILENAME_RE None _ 0) as [m|] eqn:S.
  - destruct (search_from_some _ _ _ _ _ _ S) as (pm & post & E & Hm & _).
    destruct (match_here_sound _ _ _ _ _ _ Hm) as (_ & after & Ep & D).
    apply filename_re_den in D as (num' & suf' & Eg & Hd' & _ & Hs' & He & _).
    assert (pre = pm) as <-.
    { apply (split_at_last 47%N pre pm
               (num ++ suf ++ str_of ".htm" ++ [])
               (num' ++ suf' ++ str_of ".htm" ++ after)).
      - rewrite app_nil_r. rewrite Ep, Eg in E.
        rewrite <- !app_assoc in E. exact E.
      - apply segment_no_slash; auto.
      - apply segment_no_slash; auto. }
    apply app_inv_head in E. subst post. rewrite <- Hm. exact Hhere.
  - pose proof (search_from_none _ _ _ _ _ S pre _ (length pre) eq_refl).
    congruence.
Qed.

Lemma qualifier_suffix_max (num suf : list char) :
  qualifier_suffix suf ->
  length num = 4%nat \/
    match suf with c :: _ => is_digit c = false | [] => True end.
Proof.
  intros [_ [->|H]]; right; [exact I|].
  destruct suf as [|c suf]; [exact I|]. simpl in H. now injection H as ->.
Qed.

Lemma no_digit_no_phrase (text : str) :
  forallb (fun c => negb (is_digit c)) text = true ->
  no_house_bill_phrase text.
Proof.
  intros H pre w post n E (h & ws1 & b & ws2 & -> & _ & _ & _ & _ & Hd & Hl).
  destruct n as [|c n]; [simpl in Hl; lia|].
  unfold digits in Hd. simpl in Hd. apply andb_prop in Hd as [Hc _].
  rewrite E, !forallb_app in H. simpl in H.
  rewrite Hc in H. simpl in H.
  repeat (rewrite ?andb_false_r, ?andb_false_l in H; simpl in H).
  discriminate.
Qed.

(** C6.  For a text without a HOUSE BILL phrase delimited by word
    boundaries (in particular, without any HOUSE BILL phrase): a URL whose
    last path segment is a number of three or four digits, a qualifier
    suffix and [.htm] yields that number, in particular [1181] for a URL
    ending in [/1181-S.htm]; and when the file-name pattern has no match
    either, the identifier is absent. *)
Theorem fallback_identifier (text url : str) :
  (forall i n, ~ house_bill_match_at text i n) ->
  (forall pre num suf,
      url = pre ++ str_of "/" ++ num ++ suf ++ str_of ".htm" ->
      digits num -> (3 <= length num <= 4)%nat -> qualifier_suffix suf ->
      extract_bill_number text url = Some num) /\
  (forall pre,
      url = pre ++ str_of "/1181-S.htm" ->
      extract_bill_number text url = Some (str_of "1181")) /\
  ((forall i w g, ~ matches_at false FILENAME_RE url i w g) ->
   extract_bill_number text url = None).
Proof.
  intros Hno. unfold extract_bill_number, filename_fallback.
  rewrite (proj1 (no_match_iff text) Hno).
  assert (Hgen : forall pre num suf,
    url = pre ++ str_of "/" ++ num ++ suf ++ str_of ".htm" ->
    digits num -> (3 <= length num <= 4)%nat -> qualifier_suffix suf ->
    match search false FILENAME_RE url with
    | Some mfn => group1 mfn
    | None => None
    end = Some num).
  { intros pre num suf E Hd Hl Hq. rewrite E.
    rewrite (filename_search pre num suf Hd Hl (proj1 Hq)
               (qualifier_suffix_max num suf Hq)).
    reflexivity. }
  split; [exact Hgen|]. split.
  - intros pre ->.
    apply (Hgen pre (str_of "1181") (str_of "-S")).
    + reflexivity.
    + reflexivity.
    + simpl. lia.
    + split; [reflexivity|right; reflexivity].
  - intros Hnone.
    destruct (search false FILENAME_RE url) as [m|] eqn:S; [|reflexivity].
    destruct (search_sound _ _ _ _ S) as [M _]. destruct (Hnone _ _ _ M).
Qed.

Lemma fallback_identifier_witness :
  extract_bill_number (str_of "An act about carbon.")
    (str_of "https://app.leg.wa.gov/documents/1181-S.htm")
  = Some (str_of "1181") /\
  extract_bill_number (str_of "HOUSE BILL 12345")
    (str_of "https://app.leg.wa.gov/documents/1181-S.htm")
  = Some (str_of "1181").
Proof.
  split.
  - apply (proj1 (proj2 (fallback_identifier (str_of "An act about carbon.")
             (str_of "https://app.leg.wa.gov/documents/1181-S.htm")
             (no_phrase_no_match _
                (no_digit_no_phrase (str_of "An act about carbon.")
                   eq_refl))))
             (str_of "https://app.leg.wa.gov/documents")).
    reflexivity.
  - apply (proj1 (proj2 (fallback_identifier (str_of "HOUSE BILL 12345")
             (str_of "https://app.leg.wa.gov/documents/1181-S.htm")
             (proj2 (no_match_iff (str_of "HOUSE BILL 12345")) eq_refl)))
             (str_of "https://app.leg.wa.gov/documents")).
    reflexivity.
Defined.

(** C10.  For a URL whose last path segment is five or more digits
    followed by [.htm], the file-name pattern matches the whole segment and
    captures exactly the first four digits: the remaining digits are
    consumed as hyphen-or-word characters. *)
Theorem long_number_fallback (pre ds : list char) :
  digits ds -> (5 <= length ds)%nat ->
  let url := pre ++ str_of "/" ++ ds ++ str_of ".htm" in
  search false FILENAME_RE url
  = Some (RMatch (length pre) (str_of "/" ++ ds ++ str_of ".htm")
            (Some (firstn 4 ds))) /\
  filename_fallback url = Some (firstn 4 ds).
Proof.
  intros Hd Hl url.
  assert (S : search false FILENAME_RE url
              = Some (RMatch (length pre) (str_of "/" ++ ds ++ str_of ".htm")
                        (Some (firstn 4 ds)))).
  { unfold url. rewrite <- (firstn_skipn 4 ds) at 1 2.
    rewrite <- app_assoc.
    unfold digits in Hd. rewrite <- (firstn_skipn 4 ds), forallb_app in Hd.
    apply andb_prop in Hd as [H4 Hrest].
    apply filename_search.
    - exact H4.
    - rewrite length_firstn. lia.
    - rewrite forallb_forall in Hrest |- *. intros c Hc.
      specialize (Hrest c Hc). cbn [atom_match hyphen_word existsb cls_match].
      now rewrite (digit_is_word c Hrest), !orb_true_r.
    - left. rewrite length_firstn. lia. }
  split; [exact S|]. unfold filename_fallback. now rewrite S.
Qed.

Lemma long_number_fallback_witness :
  filename_fallback (str_of "https://app.leg.wa.gov/documents/12345.htm")
  = Some (str_of "1234").
Proof.
  exact (proj2 (long_number_fallback
                  (str_of "https://app.leg.wa.gov/documents")
                  (str_of "12345") eq_refl
                  (le_n 5))).
Defined.

(** ** The identifier named in the text *)

Lemma number_unique (n n' post post' : list char) :
  digits n -> digits n' ->
  (3 <= length n <= 4)%nat -> (3 <= length n' <= 4)%nat ->
  word_opt (head post) = false -> word_opt (head post') = false ->
  n ++ post = n' ++ post' -> n = n'.
Proof.
  intros Hd Hd' Hl Hl' Hp Hp' E.
  destruct (Nat.eq_dec (length n) (length n')) as [El|Ne].
  - now apply app_inj_1 in E as [-> _].
  - exfalso. unfold digits in Hd, Hd'.
    destruct n as [|a [|b [|c [|x [|]]]]]; simpl in Hl; try lia;
      destruct n' as [|a' [|b' [|c' [|x' [|]]]]]; simpl in Hl', Ne; try lia;
      simpl in E; injection E as _ _ _ E; subst; simpl in *.
    + repeat (apply andb_prop in Hd' as [? Hd']).
      rewrite (digit_is_word x') in Hp; auto. discriminate.
    + repeat (apply andb_prop in Hd as [? Hd]).
      rewrite (digit_is_word x) in Hp'; auto. discriminate.
Qed.

Lemma house_bill_phrase_unique (w w' n n' post post' : list char) :
  house_bill_phrase w n -> house_bill_phrase w' n' ->
  word_opt (head post) = false -> word_opt (head post') = false ->
  w ++ post = w' ++ post' -> n = n'.
Proof.
  intros (h & ws1 & b & ws2 & -> & Hh & Hs1 & Hb & Hs2 & Hd & Hl)
         (h' & ws1' & b' & ws2' & -> & Hh' & Hs1' & Hb' & Hs2' & Hd' & Hl')
         Hp Hp' E.
  rewrite <- !app_assoc in E.
  apply app_inj_1 in E as [_ E];
    [|rewrite (ci_eq_length _ _ Hh), (ci_eq_length _ _ Hh'); reflexivity].
  destruct (ci_head b "BILL" "B"%char Hb eq_refl) as (x & Hx & _ & Px).
  destruct (ci_head b' "BILL" "B"%char Hb' eq_refl) as (x' & Hx' & _ & Px').
  change (is_space (code "B")) with false in Px, Px'.
  assert (Hhb : head (b ++ ws2 ++ n ++ post) = Some x)
    by (now apply head_app_some).
  assert (Hhb' : head (b' ++ ws2' ++ n' ++ post') = Some x')
    by (now apply head_app_some).
  destruct (run_unique is_space _ _ _ _ x x' (proj2 Hs1) (proj2 Hs1') E
              Hhb Px Hhb' Px') as [_ E1].
  clear E. rename E1 into E.
  apply app_inj_1 in E as [_ E];
    [|rewrite (ci_eq_length _ _ Hb), (ci_eq_length _ _ Hb'); reflexivity].
  assert (Hn : exists d0, head (n ++ post) = Some d0 /\ is_space d0 = false).
  { destruct n as [|d0 n]; [simpl in Hl; lia|]. exists d0.
    split; [reflexivity|]. unfold digits in Hd. simpl in Hd.
    apply andb_prop in Hd as [Hd _]. now apply digit_not_space. }
  assert (Hn' : exists d0, head (n' ++ post') = Some d0 /\ is_space d0 = false).
  { destruct n' as [|d0 n']; [simpl in Hl'; lia|]. exists d0.
    split; [reflexivity|]. unfold digits in Hd'. simpl in Hd'.
    apply andb_prop in Hd' as [Hd' _]. now apply digit_not_space. }
  destruct Hn as (d0 & Hd0 & Pd0). destruct Hn' as (d0' & Hd0' & Pd0').
  destruct (run_unique is_space _ _ _ _ d0 d0' (proj2 Hs2) (proj2 Hs2') E
              Hd0 Pd0 Hd0' Pd0') as [_ E2].
  exact (number_unique n n' post post' Hd Hd' Hl Hl' Hp Hp' E2).
Qed.

Lemma house_bill_match_fun (text : str) (i : nat) (n n' : list char) :
  house_bill_match_at text i n -> house_bill_match_at text i n' -> n = n'.
Proof.
  intros (pre & w & post & E & Hl & Hp & _ & Ha)
         (pre' & w' & post' & E' & Hl' & Hp' & _ & Ha').
  rewrite E in E'. apply app_inj_1 in E' as [_ E']; [|congruence].
  exact (house_bill_phrase_unique w w' n n' post post' Hp Hp' Ha Ha' E').
Qed.

Lemma plain_house_bill_phrase :
  house_bill_phrase (str_of "HOUSE BILL 1181") (str_of "1181").
Proof.
  exists (str_of "HOUSE"), (str_of " "), (str_of "BILL"), (str_of " ").
  split; [reflexivity|]. split; [apply ci_eq_refl|].
  split; [split; [discriminate|reflexivity]|]. split; [apply ci_eq_refl|].
  split; [split; [discriminate|reflexivity]|].
  split; [reflexivity|simpl; lia].
Qed.

(** X5.  When the text holds a HOUSE BILL phrase delimited by word
    boundaries, the identifier is the number of the leftmost one, whatever
    the URL is. *)
Theorem text_identifier_first (text url : str) (i : nat)
    (n : list char) :
  house_bill_match_at text i n ->
  (forall j n', (j < i)%nat -> ~ house_bill_match_at text j n') ->
  extract_bill_number text url = Some n.
Proof.
  intros Hi Hfirst. unfold extract_bill_number.
  pose proof (proj1 (house_bill_match_matches _ _ _) Hi) as [w M].
  destruct (search_complete _ _ _ _ _ _ M) as [m Hm]. rewrite Hm.
  destruct (search_sound _ _ _ _ Hm) as [Mm Hmin].
  pose proof Mm as (pre & post & _ & _ & D).
  apply bill_re_den_iff in D as (n0 & _ & _ & _ & Eg).
  rewrite Eg in Mm |- *.
  assert (H0 : house_bill_match_at text (m_start m) n0)
    by (apply house_bill_match_matches; eauto).
  destruct (Nat.lt_trichotomy i (m_start m)) as [Hlt | [-> | Hgt]].
  - destruct (Hmin _ _ _ Hlt M).
  - now rewrite (house_bill_match_fun _ _ _ _ Hi H0).
  - destruct (Hfirst _ _ Hgt H0).
Qed.

Lemma text_identifier_first_witness :
  extract_bill_number (str_of "HOUSE BILL 1181 as amended")
    (str_of "https://app.leg.wa.gov/documents/2045-S.htm")
  = Some (str_of "1181").
Proof.
  apply (text_identifier_first _ _ 0 (str_of "1181")).
  - exists [], (str_of "HOUSE BILL 1181"), (str_of " as amended").
    split; [reflexivity|]. split; [reflexivity|].
    split; [exact plain_house_bill_phrase|split; reflexivity].
  - intros j n' Hj. lia.
Defined.

(** ** The title *)

Lemma strip_left_head (l : list char) (c : char) :
  head (strip_left l) = Some c -> is_space c = false.
Proof.
  induction l as [|x l IH]; simpl; [discriminate|].
  destruct (is_space x) eqn:E; [exact IH|]. simpl. now intros [= <-].
Qed.

Lemma strip_left_suffix (l : list char) :
  exists sp, l = sp ++ strip_left l /\ forallb is_space sp = true.
Proof.
  induction l as [|x l (sp & E & Hs)]; [now exists []|]. simpl.
  destruct (is_space x) eqn:Ex; [|now exists []].
  exists (x :: sp). simpl. rewrite Ex, Hs. split; [congruence|reflexivity].
Qed.

Lemma strip_trimmed (s : str) : trimmed (strip s).
Proof.
  unfold strip, trimmed. rewrite rev_involutive.
  set (L := strip_left s). split; [|apply strip_left_head].
  intros c Hc.
  destruct (strip_left_suffix (rev L)) as (sp & E & _).
  apply (f_equal (@rev N)) in E. rewrite rev_involutive, rev_app_distr in E.
  destruct (rev (strip_left (rev L))) as [|x R]; [discriminate|].
  simpl in Hc. injection Hc as ->.
  apply (strip_left_head s). fold L. now rewrite E.
Qed.

(** X6.  An extracted title neither begins nor ends with whitespace. *)
Theorem title_is_trimmed (e : env) (text t : str) :
  extract_title e text = Some t -> trimmed t.
Proof.
  unfold extract_title. destruct (search true AN_ACT_RE text); [|discriminate].
  intros [= <-]. apply strip_trimmed.
Qed.

Lemma title_is_trimmed_witness :
  extract_title one_session_env
    ([0xA0%N] ++ str_of " AN ACT Relating to climate resilience;  "
     ++ [0x2003%N])
  = Some (str_of "AN ACT Relating to climate resilience;") /\
  trimmed (str_of "AN ACT Relating to climate resilience;").
Proof.
  split; [vm_compute; reflexivity|].
  apply (title_is_trimmed one_session_env
           ([0xA0%N] ++ str_of " AN ACT Relating to climate resilience;  "
            ++ [0x2003%N])).
  vm_compute. reflexivity.
Defined.

Lemma rep_post ic a (Q : mstate -> Prop) k :
  (forall st x, k st = Some x -> Q x) ->
  forall l lo hi p g x, rep ic a lo hi k p l g = Some x -> Q x.
Proof.
  intros Hk. induction l as [|c tl IH]; intros lo hi p g x H; simpl in H.
  - destruct lo; [eauto|discriminate].
  - destruct (can_more hi && atom_match ic a c).
    + destruct (rep ic a (Nat.pred lo) (dec_hi hi) k (Some c) tl g) eqn:R.
      * injection H as <-. eauto.
      * destruct lo; [eauto|discriminate].
    + destruct lo; [eauto|discriminate].
Qed.

Lemma exec_post ic r (Q : mstate -> Prop) :
  forall k,
    (forall st x, k st = Some x -> Q x) ->
    forall st x, exec ic r k st = Some x -> Q x.
Proof.
  induction r as [|a|r1 IH1 r2 IH2|r1 IH1 r2 IH2|a lo hi|r1 IH1| |];
    intros k Hk st x H; simpl in H.
  - eauto.
  - destruct (rest st) as [|c tl]; [discriminate|].
    destruct (atom_match ic a c); [eauto|discriminate].
  - eapply IH1; [|exact H]. intros st' x'. now apply IH2.
  - destruct (exec ic r1 k st) eqn:E.
    + injection H as <-. eauto.
    + eauto.
  - eapply rep_post; eauto.
  - eapply IH1; [|exact H]. intros st' x' H'. eapply Hk, H'.
  - destruct (at_boundary (prev st) (rest st)); [eauto|discriminate].
  - destruct (at_eol (rest st)); [eauto|discriminate].
Qed.

Lemma cat_post ic rlast (Q : mstate -> Prop) :
  (forall st x, exec ic rlast Some st = Some x -> Q x) ->
  forall rs st x, exec ic (cat (rs ++ [rlast])) Some st = Some x -> Q x.
Proof.
  intros Hl. induction rs as [|r rs IH]; intros st x H.
  - apply (Hl st x). exact H.
  - simpl in H. eapply exec_post; [|exact H]. exact IH.
Qed.

(** A greedy repetition without bounds, at the end of a pattern, stops
    only where the element no longer matches. *)
Lemma rep_to_the_end ic a :
  forall l p g,
  exists x,
    rep ic a 0 None Some p l g = Some x /\
    match rest x with
    | c :: _ => atom_match ic a c = false
    | [] => True
    end.
Proof.
  induction l as [|c tl IH]; intros p g; simpl.
  - eexists. split; [reflexivity|exact I].
  - destruct (atom_match ic a c) eqn:E.
    + destruct (IH (Some c) g) as (x & -> & Hx). eauto.
    + eexists. split; [reflexivity|]. exact E.
Qed.

Lemma not_line_char (c : char) :
  atom_match true (NoneOf [CLit "010"%char; CLit "013"%char]) c = false ->
  line_break c.
Proof.
  unfold line_break. cbn [atom_match existsb cls_match]. unfold ci_char.
  change (fold_variants "010") with [10%N].
  change (fold_variants "013") with [13%N].
  cbn [existsb]. rewrite !orb_false_r.
  destruct (N.eqb_spec c 10); [auto|]. destruct (N.eqb_spec c 13); [auto|].
  discriminate.
Qed.

(** X7.  The span matched for the title runs to the end of its line: it
    is followed by the end of the text, a line feed or a carriage return. *)
Theorem title_span_to_line_end (text : str) (m : rmatch) :
  search true AN_ACT_RE text = Some m ->
  exists pre after,
    text = pre ++ group0 m ++ after /\
    length pre = m_start m /\
    match after with
    | c :: _ => line_break c
    | [] => True
    end.
Proof.
  unfold search. intros H.
  destruct (search_from_some _ _ _ _ _ _ H) as (pre & post & E & Hm & _).
  unfold match_here in Hm.
  destruct (exec true AN_ACT_RE Some (MState (prev_after None pre) post None))
    as [st'|] eqn:Ex; [|discriminate].
  injection Hm as <-. simpl.
  destruct (exec_sound _ _ _ _ _ Ex) as (w & after & g' & Ep & _ & K).
  simpl in Ep, K. injection K as <-. simpl. subst post.
  replace (length (w ++ after) - length after)%nat with (length w)
    by (rewrite length_app; lia).
  rewrite firstn_app, Nat.sub_diag, firstn_all. simpl. rewrite app_nil_r.
  exists pre, after. split; [exact E|]. split; [reflexivity|].
  change AN_ACT_RE with
    (cat ([WordB; lit "AN"; s_plus; lit "ACT"; s_plus; lit "Relating";
           s_plus; lit "to"]
          ++ [Rep (NoneOf [CLit "010"%char; CLit "013"%char]) 0 None])) in Ex.
  apply (cat_post true _
           (fun x => match rest x with
                     | c :: _ => line_break c
                     | [] => True
                     end)) in Ex; [exact Ex|].
  intros st x Hx. simpl in Hx.
  destruct (rep_to_the_end true (NoneOf [CLit "010"%char; CLit "013"%char])
              (rest st) (prev st) (grp st)) as (y & Hy & Hend).
  rewrite Hy in Hx. injection Hx as <-.
  destruct (rest y); [exact I|]. now apply not_line_char.
Qed.

Lemma title_span_to_line_end_witness :
  exists m pre after,
    search true AN_ACT_RE two_line_text = Some m /\
    two_line_text = pre ++ group0 m ++ after /\
    length pre = m_start m /\
    match after with
    | c :: _ => line_break c
    | [] => True
    end.
Proof.
  eexists.
  destruct (title_span_to_line_end two_line_text _ eq_refl)
    as (pre & after & H).
  exists pre, after. split; [reflexivity|exact H].
Defined.

(** ** The keyword flag *)

Lemma climate_den p w after g :
  den true (cat [WordB; lit "climate"; WordB]) p w after None g <->
  ci_eq w "climate" /\ word_opt p = false /\
  word_opt (head after) = false /\ g = None.
Proof.
  cbn [cat den]. split.
  - intros (w0 & w1 & g0 & -> & (-> & B & E0) & H).
    destruct H as (ww & w2 & g1 & -> & Dw & H).
    destruct H as (w3 & w4 & g2 & -> & (-> & B' & E2) & (-> & E3)).
    apply den_lit_ci in Dw as [Dw E1]. rewrite !app_nil_r in *.
    destruct (ci_head ww "climate" "c"%char Dw eq_refl) as (x & Hx & Wx & _).
    destruct (ci_last ww "climate" "e"%char Dw eq_refl) as (z & Hz & Wz).
    change (is_word (code "c")) with true in Wx.
    change (is_word (code "e")) with true in Wz.
    unfold at_boundary in B, B'. cbn [app] in B, B'.
    rewrite (head_app_some _ _ _ Hx) in B. cbn [word_opt] in B.
    rewrite Wx in B.
    rewrite (prev_after_rev _ _ _ Hz) in B'. cbn [word_opt] in B'.
    rewrite Wz in B'.
    split; [exact Dw|]. split; [now destruct (word_opt p)|].
    split; [now destruct (word_opt (head after))|]. congruence.
  - intros (Hc & Hp & Ha & ->).
    destruct (ci_head w "climate" "c"%char Hc eq_refl) as (x & Hx & Wx & _).
    destruct (ci_last w "climate" "e"%char Hc eq_refl) as (z & Hz & Wz).
    change (is_word (code "c")) with true in Wx.
    change (is_word (code "e")) with true in Wz.
    exists [], w, None.
    split; [reflexivity|]. split.
    { split; [reflexivity|]. split; [|reflexivity].
      unfold at_boundary. rewrite (head_app_some _ _ _ Hx).
      cbn [word_opt]. rewrite Wx, Hp. reflexivity. }
    exists w, [], None.
    split; [now rewrite app_nil_r|]. split; [apply den_lit_ci; auto|].
    exists [], [], None. split; [reflexivity|]. split; [|auto].
    split; [reflexivity|]. split; [|reflexivity].
    unfold at_boundary. rewrite (prev_after_rev _ _ _ Hz).
    cbn [word_opt app]. rewrite Wz, Ha. reflexivity.
Qed.

Lemma found_is_Some {A : Type} (o : option A) : found o = true <-> is_Some o.
Proof.
  destruct o; simpl; split; intros H; eauto; try discriminate.
  now destruct H.
Qed.

(** The flag is set exactly when the lower-cased text has a match of a
    keyword. *)
Lemma extract_matched_found (text : str) :
  extract_matched text = true <-> keyword_found (lower text).
Proof.
  unfold extract_matched, keyword_found. rewrite existsb_exists. split.
  - intros (k & Hin & H). apply bool_decide_eq_true in H as [m Hm].
    destruct (search_sound _ _ _ _ Hm) as [M _].
    exists k, (m_start m), (group0 m), (group1 m). split; assumption.
  - intros (k & i & w & g & Hin & M). exists k. split; [exact Hin|].
    apply bool_decide_eq_true. eapply search_complete, M.
Qed.

(** X4.  The keyword flag is set exactly when the lower-cased text holds
    the word climate, read as [re.I] reads it, with no word character
    directly before or after it. *)
Theorem matched_whole_word (text : str) :
  extract_matched text = true <->
  exists i, whole_word_at "climate" (lower text) i.
Proof.
  rewrite extract_matched_found. unfold keyword_found, whole_word_at. split.
  - intros (k & i & w & g & [<- | []] & (pre & after & E & Hl & D)).
    apply climate_den in D as (Hc & Hp & Ha & _).
    exists i, pre, w, after. auto.
  - intros (i & pre & w & post & E & Hl & Hc & Hp & Ha).
    exists (cat [WordB; lit "climate"; WordB]), i, w, None.
    split; [now left|]. exists pre, post.
    split; [exact E|]. split; [exact Hl|]. apply climate_den. auto.
Qed.

(** ** The loop of [main] *)

Section Pipeline.

Variable e : env.
Variable years : gset Z.

Lemma consume_cases biennium url res a :
  consume_acc years biennium url res a = a \/
  consume_acc years biennium url res a = say (FetchFailed url) a \/
  (exists i y b,
      res = Some i /\ qualifies years i y b /\
      ((biennium, y, b) ∉ seen a) /\
      consume_acc years biennium url res a
      = Acc (rows a ++ [make_row biennium i y b])
          ({[ (biennium, y, b) ]} ∪ seen a) (printed a)).
Proof.
  unfold consume_acc. destruct res as [i|]; [|auto].
  destruct (year i) as [y|] eqn:Ey; [|auto].
  destruct (bill_number i) as [b|] eqn:Eb;
    [|left; destruct (truthy_int (Some y)); reflexivity].
  simpl.
  destruct (Z.eqb_spec y 0); [auto|].
  destruct b as [|c0 b0]; [auto|]. simpl.
  destruct (bool_decide (y ∈ years)) eqn:Ein; [|auto]. simpl.
  destruct (matched i) eqn:Em; [|auto]. simpl.
  destruct (bool_decide ((biennium, y, c0 :: b0) ∈ seen a)) eqn:Es; [auto|].
  right. right. exists i, y, (c0 :: b0). apply bool_decide_eq_true in Ein.
  apply bool_decide_eq_false in Es.
  assert (c0 :: b0 <> []) by discriminate. unfold qualifies. auto 10.
Qed.

(** Induction over everything the loop does to its variables. *)
Lemma scan_all_ind (sessions : list (str * str)) (P : acc -> Prop) :
  P (Acc [] ∅ []) ->
  (forall a ev, P a -> P (say ev a)) ->
  (forall a biennium base files url i y b,
      In (biennium, base) sessions -> listing e base = Some files ->
      In url (completion e biennium files) ->
      parse_bill_page e url = Some i -> qualifies years i y b ->
      ((biennium, y, b) ∉ seen a) -> P a ->
      P (Acc (rows a ++ [make_row biennium i y b])
           ({[ (biennium, y, b) ]} ∪ seen a) (printed a))) ->
  P (scan_all_acc e years sessions).
Proof.
  intros Hinit Hsay Hrow. unfold scan_all_acc.
  generalize (Acc [] ∅ []) Hinit.
  assert (Hsub : forall s, In s sessions -> In s sessions) by auto.
  revert Hsub. generalize sessions at 1 3 as ss.
  induction ss as [|[biennium base] ss IH]; intros Hsub a Ha; [exact Ha|].
  simpl. apply IH; [intros s Hs; apply Hsub; now right|].
  unfold scan_session_acc, list_bill_files, drain_acc. simpl.
  destruct (listing e base) as [files|] eqn:El; [|now apply Hsay, Hsay].
  assert (Hin : forall u, In u (completion e biennium files) ->
                          In u (completion e biennium files)) by auto.
  revert Hin. generalize (say (Scanning biennium) a) (Hsay a (Scanning biennium) Ha).
  generalize (completion e biennium files) at 1 3 as urls.
  induction urls as [|url urls IHu]; intros a1 Ha1 Hin; [exact Ha1|].
  simpl. apply IHu; [|intros u Hu; apply Hin; now right].
  destruct (consume_cases biennium url (parse_bill_page e url) a1)
    as [-> | [-> | (i & y & b & Hp & Hq & Hns & ->)]].
  - exact Ha1.
  - now apply Hsay.
  - eapply Hrow; eauto.
    + apply Hsub. now left.
    + apply Hin. now left.
Qed.

Lemma rows_produced (sessions : list (str * str)) (r : row) :
  In r (rows (scan_all_acc e years sessions)) -> produced e years sessions r.
Proof.
  revert r. apply (scan_all_ind sessions
    (fun a => forall r, In r (rows a) -> produced e years sessions r)).
  - intros r [].
  - auto.
  - intros a biennium base files url i y b Hs Hl Hu Hp Hq _ IH r Hr.
    simpl in Hr. apply in_app_or in Hr as [Hr|[<-|[]]]; [auto|].
    exists biennium, base, files, url, i, y, b. auto 10.
Qed.

Lemma hb_inj (b b' : str) : str_of "HB " ++ b = str_of "HB " ++ b' -> b = b'.
Proof. apply app_inv_head. Qed.

Lemma rows_distinct (sessions : list (str * str)) :
  NoDup (map row_triple (rows (scan_all_acc e years sessions))).
Proof.
  enough (H : NoDup (map row_triple (rows (scan_all_acc e years sessions))) /\
              forall r, In r (rows (scan_all_acc e years sessions)) ->
                exists b, r_bill_number r = str_of "HB " ++ b /\
                  (r_biennium r, r_year r, b) ∈ seen (scan_all_acc e years sessions))
    by apply H.
  apply (scan_all_ind sessions (fun a =>
    NoDup (map row_triple (rows a)) /\
    forall r, In r (rows a) ->
      exists b, r_bill_number r = str_of "HB " ++ b /\
                (r_biennium r, r_year r, b) ∈ seen a)).
  - split; [constructor|intros r []].
  - auto.
  - intros a biennium base files url i y b _ _ _ _ _ Hns [Hnd Hseen].
    simpl. split.
    + rewrite map_app. simpl. apply NoDup_app. split; [exact Hnd|].
      split; [|apply NoDup_singleton].
      intros t Ht Ht'. apply list_elem_of_In in Ht, Ht'.
      destruct Ht' as [<-|[]]. apply in_map_iff in Ht as (r & Er & Hr).
      destruct (Hseen r Hr) as (b' & Eb & Hin).
      unfold row_triple in Er. simpl in Er. injection Er as E1 E2 E3.
      rewrite Eb in E3. apply hb_inj in E3. subst. contradiction.
    + intros r Hr. apply in_app_or in Hr as [Hr|[<-|[]]].
      * destruct (Hseen r Hr) as (b' & Eb & Hin). exists b'.
        split; [exact Eb|]. set_solver.
      * exists b. simpl. split; [reflexivity|]. set_solver.
Qed.

End Pipeline.

(** ** Rows and their sort keys *)

Lemma parse_bill_page_inv (e : env) (url : str) (i : info) :
  parse_bill_page e url = Some i ->
  exists text,
    http_get e url = Some text /\
    extract_year e text = Some (year i) /\
    bill_number i = extract_bill_number text url /\
    title i = extract_title e text /\
    matched i = extract_matched text /\
    bill_text_url i = url.
Proof.
  unfold parse_bill_page, parse_text.
  destruct (http_get e url) as [text|]; [|discriminate].
  destruct (extract_year e text) as [y|] eqn:Ey; [|discriminate].
  intros [= <-]. exists text. simpl. auto 10.
Qed.

Lemma strip_nondigits_hb (b : str) :
  digits b -> sub_atom false (NotOne CDigit) (str_of "HB " ++ b) = b.
Proof.
  intros Hd. unfold sub_atom. rewrite List.filter_app.
  replace (List.filter _ (str_of "HB ")) with (@nil N)
    by (vm_compute; reflexivity).
  cbn [app]. apply filter_all.
  unfold digits in Hd. rewrite forallb_forall in Hd |- *. intros c Hc.
  cbn [atom_match cls_match]. now rewrite (Hd c Hc).
Qed.

Lemma produced_sort_key e years sessions r :
  produced e years sessions r -> is_Some (sort_key e r).
Proof.
  intros (bn & base & files & url & i & y & b & _ & _ & _ & Hp & Hq & ->).
  destruct Hq as (_ & Hb & _).
  apply parse_bill_page_inv in Hp as (text & _ & _ & Eb & _).
  rewrite Eb in Hb. apply extract_bill_number_digits in Hb as [Hd Hl].
  unfold sort_key. cbn [r_bill_number make_row].
  rewrite (strip_nondigits_hb b Hd).
  rewrite (py_int_digits e b Hd); [eauto| |lia].
  intros ->. simpl in Hl. lia.
Qed.

(** ** The stable sort *)

Section Sort.

Variable e : env.

Lemma key_lt_le (a b : Z * Z) : key_lt a b = true -> key_le a b.
Proof. unfold key_lt, key_le. destruct a, b; simpl. lia. Qed.

Lemma key_nlt_le (a b : Z * Z) : key_lt a b = false -> key_le b a.
Proof. unfold key_lt, key_le. destruct a, b; simpl. lia. Qed.

Lemma key_le_trans (a b c : Z * Z) : key_le a b -> key_le b c -> key_le a c.
Proof. unfold key_le. destruct a, b, c; simpl. lia. Qed.

Lemma insert_keyed_perm x l : Permutation (insert_keyed x l) (x :: l).
Proof.
  induction l as [|y l IH]; simpl; [reflexivity|].
  destruct (key_lt y.1 x.1); [|reflexivity].
  rewrite IH. apply perm_swap.
Qed.

Lemma sort_keyed_perm l : Permutation (sort_keyed l) l.
Proof.
  induction l as [|x l IH]; simpl; [reflexivity|].
  now rewrite insert_keyed_perm, IH.
Qed.

Lemma insert_keyed_sorted x l :
  StronglySorted keyed_le l -> StronglySorted keyed_le (insert_keyed x l).
Proof.
  induction l as [|y l IH]; intros Hs; simpl.
  - repeat constructor.
  - apply StronglySorted_inv in Hs as [Hs Hy].
    destruct (key_lt y.1 x.1) eqn:E.
    + constructor; [auto|].
      rewrite Forall_forall in Hy |- *. intros z Hz.
      apply list_elem_of_In in Hz.
      apply (Permutation_in _ (insert_keyed_perm x l)) in Hz as [<-|Hz].
      * now apply key_lt_le.
      * apply Hy. now apply list_elem_of_In.
    + apply key_nlt_le in E. constructor; [now constructor|].
      constructor; [exact E|].
      rewrite Forall_forall in Hy |- *. intros z Hz.
      eapply key_le_trans; [exact E|]. now apply Hy.
Qed.

Lemma sort_keyed_sorted l : StronglySorted keyed_le (sort_keyed l).
Proof.
  induction l as [|x l IH]; simpl; [constructor|].
  now apply insert_keyed_sorted.
Qed.

Lemma decorate_spec l kl :
  decorate e l = Some kl ->
  map snd kl = l /\ Forall (fun kr => sort_key e kr.2 = Some kr.1) kl.
Proof.
  revert kl. induction l as [|r l IH]; intros kl H; simpl in H.
  - injection H as <-. split; constructor.
  - destruct (sort_key e r) as [k|] eqn:Ek; [|discriminate].
    destruct (decorate e l) as [kl'|]; [|discriminate].
    injection H as <-. destruct (IH _ eq_refl) as [Hm Hf].
    split; simpl; [now rewrite Hm|]. constructor; auto.
Qed.

Lemma decorate_total l :
  (forall r, In r l -> is_Some (sort_key e r)) -> is_Some (decorate e l).
Proof.
  induction l as [|r l IH]; intros H; simpl; [eauto|].
  destruct (H r (or_introl eq_refl)) as [k ->].
  destruct IH as [kl ->]; [intros; apply H; now right|]. eauto.
Qed.

Lemma sort_rows_spec l out :
  sort_rows e l = Some out -> Permutation out l /\ rows_sorted e out.
Proof.
  unfold sort_rows. destruct (decorate e l) as [kl|] eqn:E; [|discriminate].
  intros [= <-]. destruct (decorate_spec _ _ E) as [Hm Hf]. split.
  - rewrite <- Hm. apply Permutation_map, sort_keyed_perm.
  - exists (map fst (sort_keyed kl)). split.
    + assert (Hf' : Forall (fun kr => sort_key e kr.2 = Some kr.1)
                      (sort_keyed kl)).
      { rewrite Forall_forall in Hf |- *. intros x Hx. apply Hf.
        apply list_elem_of_In. apply list_elem_of_In in Hx.
        exact (Permutation_in _ (sort_keyed_perm kl) Hx). }
      induction Hf'; simpl; constructor; auto.
    + pose proof (sort_keyed_sorted kl) as Hs.
      induction Hs as [|x l' Hs IH Hx]; simpl; constructor; auto.
      rewrite Forall_forall in Hx. rewrite Forall_forall. intros k Hk.
      apply list_elem_of_In, in_map_iff in Hk as (z & <- & Hz).
      apply Hx. now apply list_elem_of_In.
Qed.

End Sort.


(** ** What aborts the loop

    [consume], [drain], [scan_session] and [scan_all] return the state
    that the loop reaches without the pool and the pause, or nothing. *)

Section Abort.

Variable e : env.
Variable years : gset Z.
Variable max_workers : Z.
Variable delay : pyfloat.

Lemma pause_spec (a : acc) :
  pause e delay a = if can_pause e delay then Some a else None.
Proof.
  unfold pause, can_pause. destruct (float_pos delay); [|reflexivity].
  now destruct (sleep e delay).
Qed.

Lemma consume_acc_grows biennium url res a :
  (length (rows a) <= length (rows (consume_acc years biennium url res a)))%nat.
Proof.
  destruct (consume_cases years biennium url res a)
    as [-> | [-> | (i & y & b & _ & _ & _ & ->)]]; simpl; try lia.
  rewrite length_app. simpl. lia.
Qed.

Lemma drain_acc_cons biennium u us a :
  drain_acc e years biennium (u :: us) a
  = drain_acc e years biennium us
      (consume_acc years biennium u (parse_bill_page e u) a).
Proof. reflexivity. Qed.

Lemma drain_acc_grows biennium urls a :
  (length (rows a) <= length (rows (drain_acc e years biennium urls a)))%nat.
Proof.
  revert a. induction urls as [|u us IH]; intros a; [simpl; lia|].
  rewrite drain_acc_cons.
  pose proof (consume_acc_grows biennium u (parse_bill_page e u) a).
  specialize (IH (consume_acc years biennium u (parse_bill_page e u) a)).
  lia.
Qed.

Lemma consume_spec biennium url res a :
  consume e years delay biennium url res a
  = if (length (rows (consume_acc years biennium url res a))
        =? length (rows a))%nat
       || can_pause e delay
    then Some (consume_acc years biennium url res a)
    else None.
Proof.
  unfold consume, consume_acc. destruct res as [i|];
    [|cbn [say rows]; now rewrite Nat.eqb_refl].
  destruct (negb (truthy_int (year i) && truthy_str (bill_number i)));
    [now rewrite Nat.eqb_refl|].
  destruct (year i) as [y|]; [|now rewrite Nat.eqb_refl].
  destruct (bill_number i) as [b|]; [|now rewrite Nat.eqb_refl].
  destruct (negb (bool_decide (y ∈ years))); [now rewrite Nat.eqb_refl|].
  destruct (negb (matched i)); [now rewrite Nat.eqb_refl|].
  cbv zeta.
  destruct (bool_decide ((biennium, y, b) ∈ seen a));
    [now rewrite Nat.eqb_refl|].
  rewrite pause_spec. cbn [rows]. rewrite length_app. cbn [length].
  destruct (Nat.eqb_spec (length (rows a) + 1) (length (rows a))); [lia|].
  reflexivity.
Qed.

Lemma drain_spec_opt biennium urls a :
  drain e years delay biennium urls a
  = if (length (rows (drain_acc e years biennium urls a))
        =? length (rows a))%nat
       || can_pause e delay
    then Some (drain_acc e years biennium urls a)
    else None.
Proof.
  revert a. induction urls as [|u us IH]; intros a.
  - simpl. now rewrite Nat.eqb_refl.
  - cbn [drain]. rewrite consume_spec, drain_acc_cons.
    set (a1 := consume_acc years biennium u (parse_bill_page e u) a).
    pose proof (consume_acc_grows biennium u (parse_bill_page e u) a) as H1.
    pose proof (drain_acc_grows biennium us a1) as H2. fold a1 in H1.
    destruct (can_pause e delay).
    + rewrite !orb_true_r, IH. now rewrite orb_true_r.
    + rewrite !orb_false_r.
      destruct (Nat.eqb_spec (length (rows a1)) (length (rows a))) as [E|E].
      * rewrite IH, orb_false_r, E. reflexivity.
      * destruct (Nat.eqb_spec
                    (length (rows (drain_acc e years biennium us a1)))
                    (length (rows a))); [lia|reflexivity].
Qed.

Lemma scan_session_acc_grows a s :
  (length (rows a) <= length (rows (scan_session_acc e years a s)))%nat.
Proof.
  unfold scan_session_acc.
  destruct (list_bill_files e s.1 s.2) as [files|]; [|simpl; lia].
  apply (drain_acc_grows s.1 (completion e s.1 files) (say (Scanning s.1) a)).
Qed.

Lemma scan_fold_grows ss a :
  (length (rows a)
   <= length (rows (fold_left (scan_session_acc e years) ss a)))%nat.
Proof.
  revert a. induction ss as [|s ss IH]; intros a; [simpl; lia|].
  simpl. pose proof (scan_session_acc_grows a s).
  specialize (IH (scan_session_acc e years a s)). lia.
Qed.

Lemma scan_session_spec a s :
  scan_session e years max_workers delay a s
  = if ((0 <? max_workers)%Z || negb (found (listing e s.2)))
       && ((length (rows (scan_session_acc e years a s))
            =? length (rows a))%nat
           || can_pause e delay)
    then Some (scan_session_acc e years a s)
    else None.
Proof.
  unfold scan_session, scan_session_acc, list_bill_files.
  destruct (listing e s.2) as [files|]; cbn [found negb].
  - rewrite orb_false_r. destruct (0 <? max_workers)%Z; [|reflexivity].
    rewrite drain_spec_opt. reflexivity.
  - rewrite orb_true_r. cbn [say rows]. now rewrite Nat.eqb_refl.
Qed.

Lemma pool_fine_cons s ss :
  pool_fine e max_workers (s :: ss)
  = ((0 <? max_workers)%Z || negb (found (listing e s.2)))
    && pool_fine e max_workers ss.
Proof.
  unfold pool_fine. cbn [forallb].
  destruct (0 <? max_workers)%Z; reflexivity.
Qed.

Lemma scan_from_spec ss a :
  scan_from e years max_workers delay ss a
  = if pool_fine e max_workers ss
       && ((length (rows (fold_left (scan_session_acc e years) ss a))
            =? length (rows a))%nat
           || can_pause e delay)
    then Some (fold_left (scan_session_acc e years) ss a)
    else None.
Proof.
  revert a. induction ss as [|s ss IH]; intros a.
  - unfold pool_fine. simpl. now rewrite orb_true_r, Nat.eqb_refl.
  - cbn [scan_from fold_left]. rewrite scan_session_spec, pool_fine_cons.
    set (a1 := scan_session_acc e years a s).
    pose proof (scan_session_acc_grows a s) as H1. fold a1 in H1.
    pose proof (scan_fold_grows ss a1) as H2.
    destruct ((0 <? max_workers)%Z || negb (found (listing e s.2)));
      [|reflexivity].
    cbn [andb]. destruct (can_pause e delay).
    + rewrite !orb_true_r, IH. now rewrite orb_true_r.
    + rewrite !orb_false_r.
      destruct (Nat.eqb_spec (length (rows a1)) (length (rows a))) as [E|E].
      * rewrite IH, orb_false_r, E. reflexivity.
      * destruct (Nat.eqb_spec
                    (length (rows (fold_left (scan_session_acc e years) ss a1)))
                    (length (rows a))); [lia|].
        now rewrite andb_false_r.
Qed.

(** The scan returns unless the pool cannot be created for a session that
    has a listing, or a row is appended and the pause after it raises. *)
Lemma scan_all_spec ss :
  scan_all e years max_workers delay ss
  = if pool_fine e max_workers ss
       && (bool_decide (rows (scan_all_acc e years ss) = [])
           || can_pause e delay)
    then Some (scan_all_acc e years ss)
    else None.
Proof.
  unfold scan_all, scan_all_acc. rewrite scan_from_spec. cbn [rows length].
  replace (length (rows (fold_left (scan_session_acc e years) ss (Acc [] ∅ [])))
           =? 0)%nat
    with (bool_decide
            (rows (fold_left (scan_session_acc e years) ss (Acc [] ∅ [])) = []));
    [reflexivity|].
  destruct (rows (fold_left _ ss _)) as [|r l]; reflexivity.
Qed.

Lemma scan_all_inv ss a :
  scan_all e years max_workers delay ss = Some a ->
  a = scan_all_acc e years ss.
Proof.
  rewrite scan_all_spec. destruct (_ && _); [|discriminate]. now intros [= <-].
Qed.

End Abort.

(** ** What [main] returns *)

Section Main.

Variable e : env.
Variable out_csv : str.
Variable years : gset Z.
Variable max_workers : Z.
Variable delay : pyfloat.

Lemma sort_rows_total (sessions : list (str * str)) :
  is_Some (sort_rows e (rows (scan_all_acc e years sessions))).
Proof.
  destruct (decorate_total e (rows (scan_all_acc e years sessions)))
    as [kl Hkl].
  { intros r Hr. eapply produced_sort_key, rows_produced, Hr. }
  unfold sort_rows. rewrite Hkl. eauto.
Qed.

Lemma runs_through_spec :
  runs_through e out_csv max_workers delay ->
  (0 <? max_workers)%Z = true /\ can_pause e delay = true /\
  found (open_csv e out_csv) = true.
Proof.
  intros (Hw & Hs & Ho). split; [now apply Z.ltb_lt|]. split; [|exact Ho].
  unfold can_pause. destruct (float_pos delay); [now apply Hs|reflexivity].
Qed.

(** A run that nothing aborts returns. *)
Lemma main_with_runs (sessions : list (str * str)) :
  runs_through e out_csv max_workers delay ->
  exists rep,
    main_with sessions e out_csv years max_workers delay = Some rep.
Proof.
  intros H. apply runs_through_spec in H as (Hw & Hp & Ho).
  unfold main_with, finish. rewrite scan_all_spec. unfold pool_fine.
  rewrite Hw, Hp, orb_true_r. cbn [orb andb].
  destruct (sort_rows_total sessions) as [sorted ->].
  destruct (open_csv e out_csv); [eauto|discriminate].
Qed.

(** What a run that returns has done. *)
Lemma main_with_inv (sessions : list (str * str)) (rep : report) :
  main_with sessions e out_csv years max_workers delay = Some rep ->
  scan_all e years max_workers delay sessions
  = Some (scan_all_acc e years sessions) /\
  found (open_csv e out_csv) = true /\
  sort_rows e (rows (scan_all_acc e years sessions)) = Some (written rep) /\
  Permutation (written rep) (rows (scan_all_acc e years sessions)) /\
  rows_sorted e (written rep) /\
  output rep = printed (scan_all_acc e years sessions)
               ++ [Wrote (length (written rep))].
Proof.
  unfold main_with, finish.
  destruct (scan_all e years max_workers delay sessions) as [a|] eqn:Es;
    [|discriminate].
  pose proof (scan_all_inv _ _ _ _ _ _ Es) as ->.
  destruct (sort_rows e (rows (scan_all_acc e years sessions)))
    as [sorted|] eqn:Hs; [|discriminate].
  destruct (open_csv e out_csv); [|discriminate].
  intros [= <-]. destruct (sort_rows_spec e _ _ Hs) as [Hp Hsorted].
  cbn [written output found]. auto 10.
Qed.

(** The run returns exactly when the pool can be created for every session
    that has a listing, the pause after an appended row returns, and the
    output file can be opened. *)
Lemma main_with_returns (sessions : list (str * str)) :
  found (main_with sessions e out_csv years max_workers delay)
  = pool_fine e max_workers sessions
    && (bool_decide (rows (scan_all_acc e years sessions) = [])
        || can_pause e delay)
    && found (open_csv e out_csv).
Proof.
  unfold main_with, finish. rewrite scan_all_spec.
  destruct (pool_fine e max_workers sessions && _); [|reflexivity].
  destruct (sort_rows_total sessions) as [sorted ->].
  now destruct (open_csv e out_csv).
Qed.

Lemma main_with_written (sessions : list (str * str)) :
  option_map written
    (main_with sessions e out_csv years max_workers delay)
  = if found (main_with sessions e out_csv years max_workers delay)
    then sort_rows e (rows (scan_all_acc e years sessions))
    else None.
Proof.
  destruct (main_with sessions e out_csv years max_workers delay)
    as [rep|] eqn:Hm; [|reflexivity].
  apply main_with_inv in Hm as (_ & _ & -> & _). reflexivity.
Qed.

Lemma main_runs :
  runs_through e out_csv max_workers delay ->
  exists rep, main e out_csv years max_workers delay = Some rep.
Proof. apply main_with_runs. Qed.

Lemma main_inv (rep : report) :
  main e out_csv years max_workers delay = Some rep ->
  Permutation (written rep) (rows (scan_all_acc e years SESSION_FOLDERS)) /\
  rows_sorted e (written rep) /\
  output rep = printed (scan_all_acc e years SESSION_FOLDERS)
               ++ [Wrote (length (written rep))].
Proof. intros H. apply main_with_inv in H. tauto. Qed.

Lemma written_produced (rep : report) :
  main e out_csv years max_workers delay = Some rep ->
  forall r, In r (written rep) -> produced e years SESSION_FOLDERS r.
Proof.
  intros H r Hr. apply main_inv in H as (Hp & _).
  apply rows_produced. exact (Permutation_in _ Hp Hr).
Qed.

End Main.

Section Results.

Variable e : env.
Variable years : gset Z.

Lemma consume_qualified biennium url i y b a :
  qualifies years i y b ->
  consume_acc years biennium url (Some i) a =
  if bool_decide ((biennium, y, b) ∈ seen a) then a
  else Acc (rows a ++ [make_row biennium i y b])
         ({[ (biennium, y, b) ]} ∪ seen a) (printed a).
Proof.
  intros (Ey & Eb & Hy & Hb & Hin & Hm). unfold consume_acc.
  rewrite Ey, Eb, Hm. simpl.
  destruct (Z.eqb_spec y 0); [contradiction|].
  destruct b as [|c0 b0]; [congruence|]. simpl.
  now rewrite (bool_decide_eq_true_2 _ Hin).
Qed.

Lemma summary_of_row (b : str) (y : Z) :
  b <> [] -> y <> 0%Z ->
  or_empty (bill_summary_url (Some b) (Some y)) = summary_template b y.
Proof.
  intros Hb Hy. unfold bill_summary_url. simpl.
  destruct b as [|c0 b0]; [congruence|].
  destruct (Z.eqb_spec y 0); [contradiction|]. reflexivity.
Qed.

Lemma printed_consume biennium url res a ev :
  In ev (printed a) -> In ev (printed (consume_acc years biennium url res a)).
Proof.
  intros H.
  destruct (consume_cases years biennium url res a)
    as [-> | [-> | (i & y & b & _ & _ & _ & ->)]]; auto.
  simpl. apply in_or_app. now left.
Qed.

Lemma printed_scan_session a s ev :
  In ev (printed a) -> In ev (printed (scan_session_acc e years a s)).
Proof.
  intros H. unfold scan_session_acc.
  assert (H1 : In ev (printed (say (Scanning s.1) a)))
    by (simpl; apply in_or_app; now left).
  destruct (list_bill_files e s.1 s.2) as [files|].
  - unfold drain_acc. revert H1. generalize (say (Scanning s.1) a).
    induction (completion e s.1 files) as [|u us IH]; intros a1 Ha1;
      [exact Ha1|].
    simpl. apply IH. now apply printed_consume.
  - simpl. apply in_or_app. now left.
Qed.

Lemma printed_fold ss a ev :
  In ev (printed a) ->
  In ev (printed (fold_left (scan_session_acc e years) ss a)).
Proof.
  revert a. induction ss as [|s ss IH]; intros a H; [exact H|].
  simpl. apply IH. now apply printed_scan_session.
Qed.

Lemma list_failure_printed sessions biennium base :
  In (biennium, base) sessions -> listing e base = None ->
  In (ListFailed biennium) (printed (scan_all_acc e years sessions)).
Proof.
  unfold scan_all_acc. generalize (Acc [] ∅ []).
  induction sessions as [|s ss IH]; intros a Hin Hl; [destruct Hin|].
  destruct Hin as [-> | Hin]; simpl.
  - apply printed_fold. unfold scan_session_acc, list_bill_files. simpl.
    rewrite Hl. simpl. apply in_or_app. right. now left.
  - now apply IH.
Qed.

Lemma session_base_unique biennium base base' :
  In (biennium, base) SESSION_FOLDERS ->
  In (biennium, base') SESSION_FOLDERS -> base = base'.
Proof.
  unfold SESSION_FOLDERS. intros H1 H2.
  destruct H1 as [H1 | [H1 | []]]; destruct H2 as [H2 | [H2 | []]];
    injection H1 as E1 E1'; injection H2 as E2 E2';
    try congruence;
    rewrite <- E1 in E2; vm_compute in E2; discriminate.
Qed.

End Results.

(** ** Independence of the completion order *)

Lemma candidate_inv e years biennium url k r :
  candidate e years biennium url = Some (k, r) ->
  exists i y b,
    parse_bill_page e url = Some i /\ qualifies years i y b /\
    k = (biennium, y, b) /\ r = make_row biennium i y b.
Proof.
  unfold candidate. destruct (parse_bill_page e url) as [i|]; [|discriminate].
  destruct (year i) as [y|] eqn:Ey; [|discriminate].
  destruct (bill_number i) as [b|] eqn:Eb; [|discriminate].
  simpl.
  destruct (Z.eqb_spec y 0); [discriminate|].
  destruct b as [|c0 b0]; [discriminate|]. simpl.
  destruct (bool_decide (y ∈ years)) eqn:Ein; [|discriminate].
  destruct (matched i) eqn:Em; [|discriminate]. simpl.
  intros [= <- <-]. exists i, y, (c0 :: b0). apply bool_decide_eq_true in Ein.
  assert (c0 :: b0 <> []) by discriminate. unfold qualifies. auto 10.
Qed.

Lemma candidate_key_sort e years biennium u u' k r r' :
  candidate e years biennium u = Some (k, r) ->
  candidate e years biennium u' = Some (k, r') ->
  sort_key e r = sort_key e r'.
Proof.
  intros H H'.
  apply candidate_inv in H as (i & y & b & _ & _ & -> & ->).
  apply candidate_inv in H' as (i' & y' & b' & _ & _ & [= <- <-] & ->).
  reflexivity.
Qed.

Lemma consume_candidate e years biennium url a :
  match candidate e years biennium url with
  | Some (k, r) =>
      if bool_decide (k ∈ seen a)
      then rows (consume_acc years biennium url (parse_bill_page e url) a)
           = rows a /\
           seen (consume_acc years biennium url (parse_bill_page e url) a)
           = seen a
      else rows (consume_acc years biennium url (parse_bill_page e url) a)
           = rows a ++ [r] /\
           seen (consume_acc years biennium url (parse_bill_page e url) a)
           = {[ k ]} ∪ seen a
  | None =>
      rows (consume_acc years biennium url (parse_bill_page e url) a) = rows a /\
      seen (consume_acc years biennium url (parse_bill_page e url) a) = seen a
  end.
Proof.
  unfold candidate, consume_acc.
  destruct (parse_bill_page e url) as [i|]; [|split; reflexivity].
  destruct (year i) as [y|] eqn:Ey; [|split; reflexivity].
  destruct (bill_number i) as [b|] eqn:Eb;
    [|rewrite andb_false_r; split; reflexivity].
  destruct (truthy_int (Some y) && truthy_str (Some b)); simpl;
    [|split; reflexivity].
  destruct (bool_decide (y ∈ years)); simpl; [|split; reflexivity].
  destruct (matched i); simpl; [|split; reflexivity].
  destruct (bool_decide ((biennium, y, b) ∈ seen a)); split; reflexivity.
Qed.

Section Drain.

Variable e : env.
Variable years : gset Z.
Variable biennium : str.

Lemma drain_cons u us a :
  drain_acc e years biennium (u :: us) a
  = drain_acc e years biennium us
      (consume_acc years biennium u (parse_bill_page e u) a).
Proof. reflexivity. Qed.

Lemma drain_spec :
  forall urls a,
  exists RK : list (str * Z * str * row),
    rows (drain_acc e years biennium urls a) = rows a ++ map snd RK /\
    NoDup (map fst RK) /\
    (forall k r, In (k, r) RK ->
       (k ∉ seen a) /\
       exists u, In u urls /\ candidate e years biennium u = Some (k, r)) /\
    (forall u k r,
       In u urls -> candidate e years biennium u = Some (k, r) ->
       k ∉ seen a -> In k (map fst RK)) /\
    (forall k, k ∈ seen (drain_acc e years biennium urls a) <->
               k ∈ seen a \/ In k (map fst RK)).
Proof.
  induction urls as [|u us IH]; intros a.
  - exists []. simpl. rewrite app_nil_r.
    split; [reflexivity|]. split; [constructor|].
    split; [intros k r []|]. split; [intros u k r []|]. tauto.
  - rewrite drain_cons.
    set (a1 := consume_acc years biennium u (parse_bill_page e u) a).
    destruct (IH a1) as (RK & Hrows & Hnd & Hin & Hcov & Hseen).
    pose proof (consume_candidate e years biennium u a) as Hc.
    fold a1 in Hc.
    destruct (candidate e years biennium u) as [[k0 r0]|] eqn:Ec.
    + destruct (bool_decide (k0 ∈ seen a)) eqn:Ek.
      * destruct Hc as [Er Es]. apply bool_decide_eq_true in Ek.
        exists RK. rewrite Hrows, Er. split; [reflexivity|].
        split; [exact Hnd|]. rewrite Es in Hin, Hcov, Hseen.
        split; [|split; [|exact Hseen]].
        -- intros k r Hkr. destruct (Hin k r Hkr) as (Hn & u' & Hu' & Hcu).
           split; [exact Hn|]. exists u'. split; [now right|exact Hcu].
        -- intros u' k r [<- | Hu'] Hcu Hn; [|eauto].
           rewrite Ec in Hcu. injection Hcu as <- <-. contradiction.
      * destruct Hc as [Er Es]. apply bool_decide_eq_false in Ek.
        exists ((k0, r0) :: RK). simpl. rewrite Hrows, Er, <- app_assoc.
        split; [reflexivity|]. rewrite Es in Hin, Hcov, Hseen.
        split; [|split; [|split]].
        -- constructor; [|exact Hnd]. intros Hk0.
           apply list_elem_of_In, in_map_iff in Hk0 as ([k r] & <- & Hkr).
           destruct (Hin k r Hkr) as [Hn _].
           apply Hn, elem_of_union. left. now apply elem_of_singleton.
        -- intros k r [[= <- <-] | Hkr].
           ++ split; [exact Ek|]. exists u. split; [now left|exact Ec].
           ++ destruct (Hin k r Hkr) as (Hn & u' & Hu' & Hcu).
              split; [intros Hk; apply Hn, elem_of_union; now right|].
              exists u'. split; [now right|exact Hcu].
        -- intros u' k r Hu' Hcu Hn.
           destruct (decide (k = k0)) as [-> | Hne]; [now left|]. right.
           destruct Hu' as [<- | Hu'].
           ++ rewrite Ec in Hcu. injection Hcu as <- <-. contradiction.
           ++ apply (Hcov u' k r Hu' Hcu).
              intros [Hk | Hk]%elem_of_union; [|contradiction].
              apply elem_of_singleton in Hk. contradiction.
        -- intros k. rewrite Hseen, elem_of_union, elem_of_singleton.
           intuition congruence.
    + destruct Hc as [Er Es]. exists RK. rewrite Hrows, Er.
      split; [reflexivity|]. split; [exact Hnd|].
      rewrite Es in Hin, Hcov, Hseen. split; [|split; [|exact Hseen]].
      * intros k r Hkr. destruct (Hin k r Hkr) as (Hn & u' & Hu' & Hcu).
        split; [exact Hn|]. exists u'. split; [now right|exact Hcu].
      * intros u' k r [<- | Hu'] Hcu Hn; [congruence|eauto].
Qed.

End Drain.

Section DrainOrder.

Variable e : env.
Variable years : gset Z.
Variable biennium : str.
Variables urls1 urls2 : list str.
Hypothesis Hperm : Permutation urls1 urls2.
Hypothesis Htie :
  forall u u' k r k' r',
    In u urls1 -> In u' urls1 ->
    candidate e years biennium u = Some (k, r) ->
    candidate e years biennium u' = Some (k', r') ->
    sort_key e r = sort_key e r' -> u = u'.

Lemma drain_members urls a RK :
  (forall u, In u urls <-> In u urls1) ->
  (forall k r, In (k, r) RK ->
     (k ∉ seen a) /\
     exists u, In u urls /\ candidate e years biennium u = Some (k, r)) ->
  (forall u k r,
     In u urls -> candidate e years biennium u = Some (k, r) ->
     k ∉ seen a -> In k (map fst RK)) ->
  forall k r,
    In (k, r) RK <->
    (k ∉ seen a) /\
    exists u, In u urls1 /\ candidate e years biennium u = Some (k, r).
Proof.
  intros Hu Hin Hcov k r. split.
  - intros Hkr. destruct (Hin k r Hkr) as (Hn & u & Hiu & Hc).
    split; [exact Hn|]. exists u. split; [now apply Hu|exact Hc].
  - intros (Hn & u & Hiu & Hc).
    pose proof (Hcov u k r (proj2 (Hu u) Hiu) Hc Hn) as Hk.
    apply in_map_iff in Hk as ([k' r'] & Ek & Hkr'). simpl in Ek. subst k'.
    destruct (Hin k r' Hkr') as (_ & u' & Hiu' & Hc').
    apply Hu in Hiu'.
    pose proof (Htie u u' k r k r' Hiu Hiu' Hc Hc'
                  (candidate_key_sort _ _ _ _ _ _ _ _ Hc Hc')) as ->.
    rewrite Hc in Hc'. now injection Hc' as <-.
Qed.

Lemma drain_order a1 a2 :
  seen a1 = seen a2 ->
  exists R1 R2,
    rows (drain_acc e years biennium urls1 a1) = rows a1 ++ R1 /\
    rows (drain_acc e years biennium urls2 a2) = rows a2 ++ R2 /\
    Permutation R1 R2 /\
    NoDup (map (sort_key e) R1) /\
    seen (drain_acc e years biennium urls1 a1)
    = seen (drain_acc e years biennium urls2 a2).
Proof.
  intros Hs.
  destruct (drain_spec e years biennium urls1 a1)
    as (RK1 & Hr1 & Hnd1 & Hin1 & Hcov1 & Hseen1).
  destruct (drain_spec e years biennium urls2 a2)
    as (RK2 & Hr2 & Hnd2 & Hin2 & Hcov2 & Hseen2).
  pose proof (drain_members urls1 a1 RK1 (fun u => iff_refl _) Hin1 Hcov1)
    as M1.
  assert (Hu2 : forall u, In u urls2 <-> In u urls1).
  { intros u. split; apply Permutation_in; [now symmetry|exact Hperm]. }
  pose proof (drain_members urls2 a2 RK2 Hu2 Hin2 Hcov2) as M2.
  rewrite <- Hs in M2.
  assert (HP : Permutation RK1 RK2).
  { apply NoDup_Permutation.
    - eapply NoDup_fmap_1, Hnd1.
    - eapply NoDup_fmap_1, Hnd2.
    - intros [k r]. rewrite !list_elem_of_In, M1, M2. tauto. }
  exists (map snd RK1), (map snd RK2).
  split; [exact Hr1|]. split; [exact Hr2|].
  split; [now apply Permutation_map|]. split.
  - rewrite map_map. apply NoDup_fmap_2_strong.
    + intros [k r] [k' r'] H H' Esk. simpl in Esk.
      apply list_elem_of_In, M1 in H as (_ & u & Hu & Hc).
      apply list_elem_of_In, M1 in H' as (_ & u' & Hu' & Hc').
      pose proof (Htie u u' k r k' r' Hu Hu' Hc Hc' Esk) as ->.
      congruence.
    + eapply NoDup_fmap_1, Hnd1.
  - apply set_eq. intros k. rewrite Hseen1, Hseen2, Hs.
    assert (In k (map fst RK1) <-> In k (map fst RK2)); [|tauto].
    split; apply Permutation_in, Permutation_map; [exact HP|now symmetry].
Qed.

End DrainOrder.

(** ** Rows with a given sort key *)

Section Keys.

Variable e : env.

Lemma with_key_app k l1 l2 :
  with_key e k (l1 ++ l2) = with_key e k l1 ++ with_key e k l2.
Proof. apply filter_app. Qed.

Lemma with_key_short k l :
  NoDup (map (sort_key e) l) -> (length (with_key e k l) <= 1)%nat.
Proof.
  unfold with_key. induction l as [|r l IH]; intros Hnd; simpl; [lia|].
  apply NoDup_cons in Hnd as [Hr Hnd]. rewrite filter_cons.
  destruct (decide (sort_key e r = Some k)) as [E|E]; [|auto].
  simpl. enough (filter (fun r => sort_key e r = Some k) l = []) as -> by (simpl; lia).
  destruct (filter _ l) as [|r' t] eqn:F; [reflexivity|].
  assert (Hr' : r' ∈ filter (fun r => sort_key e r = Some k) l)
    by (rewrite F; left).
  apply list_elem_of_filter in Hr' as [Ek Hin]. destruct Hr.
  rewrite E, <- Ek. apply list_elem_of_fmap. eauto.
Qed.

Lemma with_key_perm k l1 l2 :
  Permutation l1 l2 -> NoDup (map (sort_key e) l1) ->
  with_key e k l1 = with_key e k l2.
Proof.
  intros Hp Hnd.
  assert (Hnd2 : NoDup (map (sort_key e) l2)) by now rewrite <- Hp.
  pose proof (with_key_short k l1 Hnd) as H1.
  pose proof (with_key_short k l2 Hnd2) as H2.
  assert (HP : Permutation (with_key e k l1) (with_key e k l2))
    by (unfold with_key; now rewrite Hp).
  destruct (with_key e k l1) as [|x [|]], (with_key e k l2) as [|y [|]];
    simpl in *; try lia; auto.
  - apply Permutation_length in HP. discriminate.
  - apply Permutation_length in HP. discriminate.
  - apply Permutation_length_1 in HP. now subst.
Qed.

(** ** A stable sort has one result *)

Lemma key_le_antisym (a b : Z * Z) : key_le a b -> key_le b a -> a = b.
Proof.
  unfold key_le. destruct a, b; simpl. intros H1 H2. f_equal; lia.
Qed.

Lemma key_lt_irrefl (a : Z * Z) : key_lt a a = false.
Proof. unfold key_lt. destruct a; simpl. lia. Qed.

Lemma insert_keyed_with_key k x l :
  consistent e x -> Forall (consistent e) l ->
  with_key e k (map snd (insert_keyed x l)) = with_key e k (map snd (x :: l)).
Proof.
  intros Hx. induction 1 as [|y l Hy Hl IH]; simpl; [reflexivity|].
  destruct (key_lt y.1 x.1) eqn:E; [|reflexivity].
  simpl. unfold with_key in *. rewrite (filter_cons _ y.2), IH. simpl.
  rewrite !filter_cons.
  destruct (decide (sort_key e y.2 = Some k)) as [Ey|Ey];
    destruct (decide (sort_key e x.2 = Some k)) as [Ex|Ex]; auto.
  unfold consistent in Hx, Hy. rewrite Hx in Ex. rewrite Hy in Ey.
  injection Ex as Ex. injection Ey as Ey. rewrite Ex, Ey in E.
  now rewrite key_lt_irrefl in E.
Qed.

Lemma insert_keyed_consistent x l :
  consistent e x -> Forall (consistent e) l -> Forall (consistent e) (insert_keyed x l).
Proof.
  intros Hx Hl. rewrite (insert_keyed_perm x l). now constructor.
Qed.

Lemma sort_keyed_consistent l :
  Forall (consistent e) l -> Forall (consistent e) (sort_keyed l).
Proof. intros H. now rewrite (sort_keyed_perm l). Qed.

Lemma sort_keyed_with_key k l :
  Forall (consistent e) l ->
  with_key e k (map snd (sort_keyed l)) = with_key e k (map snd l).
Proof.
  induction 1 as [|x l Hx Hl IH]; simpl; [reflexivity|].
  rewrite insert_keyed_with_key; auto using sort_keyed_consistent.
  simpl. unfold with_key in *. now rewrite !filter_cons, IH.
Qed.

Lemma sort_rows_stable l out k :
  sort_rows e l = Some out -> with_key e k out = with_key e k l.
Proof.
  unfold sort_rows. destruct (decorate e l) as [kl|] eqn:E; [|discriminate].
  intros [= <-]. destruct (decorate_spec _ _ _ E) as [Hm Hf].
  rewrite <- Hm. now apply sort_keyed_with_key.
Qed.

Lemma sort_rows_row_sorted l out :
  sort_rows e l = Some out ->
  StronglySorted (row_le e) out /\ Forall (fun r => is_Some (sort_key e r)) out.
Proof.
  unfold sort_rows. destruct (decorate e l) as [kl|] eqn:E; [|discriminate].
  intros [= <-]. destruct (decorate_spec _ _ _ E) as [_ Hf].
  apply sort_keyed_consistent in Hf.
  pose proof (sort_keyed_sorted kl) as Hs. split.
  - induction Hs as [|x l' Hs IH Hx]; simpl; [constructor|].
    apply Forall_cons in Hf as [Hcx Hf]. constructor; [auto|].
    rewrite Forall_forall in Hx, Hf. rewrite Forall_forall. intros r Hr.
    apply list_elem_of_In, in_map_iff in Hr as (z & <- & Hz).
    apply list_elem_of_In in Hz.
    exists x.1, z.1. split; [exact Hcx|]. split; [now apply Hf|].
    now apply Hx.
  - clear Hs. induction Hf as [|x l' Hx Hl IH]; simpl; constructor; auto.
Qed.

Lemma with_key_head r k l :
  sort_key e r = Some k -> with_key e k (r :: l) = r :: with_key e k l.
Proof. intros E. unfold with_key. now rewrite filter_cons_True. Qed.

Lemma with_key_skip r k l :
  sort_key e r <> Some k -> with_key e k (r :: l) = with_key e k l.
Proof. intros E. unfold with_key. now rewrite filter_cons_False. Qed.

Lemma with_key_In r k l : In r (with_key e k l) -> In r l /\ sort_key e r = Some k.
Proof.
  unfold with_key. rewrite <- !list_elem_of_In, list_elem_of_filter. tauto.
Qed.

Lemma sorted_head_le x y t kx ky :
  StronglySorted (row_le e) (y :: t) ->
  sort_key e x = Some kx -> sort_key e y = Some ky ->
  In x (with_key e kx (y :: t)) -> key_le ky kx.
Proof.
  intros Hs Ex Ey Hin. apply with_key_In in Hin as [[-> | Hin] _].
  - rewrite Ex in Ey. injection Ey as ->. unfold key_le. lia.
  - apply StronglySorted_inv in Hs as [_ Hy]. rewrite Forall_forall in Hy.
    apply list_elem_of_In in Hin.
    destruct (Hy x Hin) as (k1 & k2 & E1 & E2 & Hle). congruence.
Qed.

Lemma sorted_unique :
  forall l1 l2,
    StronglySorted (row_le e) l1 -> StronglySorted (row_le e) l2 ->
    Forall (fun r => is_Some (sort_key e r)) l1 ->
    Forall (fun r => is_Some (sort_key e r)) l2 ->
    (forall k, with_key e k l1 = with_key e k l2) ->
    l1 = l2.
Proof.
  induction l1 as [|x t1 IH]; intros [|y t2] S1 S2 K1 K2 H.
  - reflexivity.
  - apply Forall_cons in K2 as [[ky Ey] _].
    specialize (H ky). rewrite (with_key_head y ky t2 Ey) in H.
    discriminate.
  - apply Forall_cons in K1 as [[kx Ex] _].
    specialize (H kx). rewrite (with_key_head x kx t1 Ex) in H.
    discriminate.
  - pose proof K1 as K1'. pose proof K2 as K2'.
    apply Forall_cons in K1' as [[kx Ex] K1'].
    apply Forall_cons in K2' as [[ky Ey] K2'].
    assert (Hxy : kx = ky).
    { apply key_le_antisym.
      - apply (sorted_head_le y x t1 ky kx S1 Ey Ex).
        rewrite (H ky), (with_key_head y ky t2 Ey). now left.
      - apply (sorted_head_le x y t2 kx ky S2 Ex Ey).
        rewrite <- (H kx), (with_key_head x kx t1 Ex). now left. }
    subst ky. pose proof (H kx) as Hk.
    rewrite (with_key_head x kx t1 Ex), (with_key_head y kx t2 Ey) in Hk.
    injection Hk as -> Hk. f_equal.
    apply StronglySorted_inv in S1 as [S1 _].
    apply StronglySorted_inv in S2 as [S2 _].
    apply IH; auto. intros k.
    destruct (decide (k = kx)) as [-> | Hne]; [exact Hk|].
    specialize (H k).
    rewrite !with_key_skip in H by congruence. exact H.
Qed.

Lemma sort_rows_unique l1 l2 o1 o2 :
  (forall k, with_key e k l1 = with_key e k l2) ->
  sort_rows e l1 = Some o1 -> sort_rows e l2 = Some o2 -> o1 = o2.
Proof.
  intros H H1 H2.
  destruct (sort_rows_row_sorted _ _ H1) as [S1 K1].
  destruct (sort_rows_row_sorted _ _ H2) as [S2 K2].
  apply sorted_unique; auto. intros k.
  now rewrite (sort_rows_stable _ _ k H1), (sort_rows_stable _ _ k H2).
Qed.

End Keys.

Section Orders.

Variable e : env.
Variable years : gset Z.
Variables o1 o2 : str -> list str -> list str.
Hypothesis Ho1 : forall b l, Permutation (o1 b l) l.
Hypothesis Ho2 : forall b l, Permutation (o2 b l) l.
Hypothesis Htie : tie_free e years.

Lemma drain_reorder o biennium urls a :
  drain_acc (reorder e o) years biennium urls a = drain_acc e years biennium urls a.
Proof. reflexivity. Qed.

Lemma scan_session_order s a1 a2 :
  In s SESSION_FOLDERS ->
  seen a1 = seen a2 ->
  (forall k, with_key e k (rows a1) = with_key e k (rows a2)) ->
  seen (scan_session_acc (reorder e o1) years a1 s)
  = seen (scan_session_acc (reorder e o2) years a2 s) /\
  forall k,
    with_key e k (rows (scan_session_acc (reorder e o1) years a1 s))
    = with_key e k (rows (scan_session_acc (reorder e o2) years a2 s)).
Proof.
  intros Hs Hseen Hrows. destruct s as [biennium base].
  unfold scan_session_acc, list_bill_files. simpl.
  destruct (listing e base) as [files|] eqn:El; [|simpl; auto].
  rewrite !drain_reorder.
  destruct (drain_order e years biennium (o1 biennium files)
              (o2 biennium files)
              ltac:(rewrite Ho1, Ho2; reflexivity)
              ltac:(intros u u' k r k' r' Hu Hu';
                    apply (Htie biennium base files u u' k r k' r' Hs El);
                    [exact (Permutation_in _ (Ho1 _ _) Hu)
                    |exact (Permutation_in _ (Ho1 _ _) Hu')])
              (say (Scanning biennium) a1) (say (Scanning biennium) a2)
              Hseen)
    as (R1 & R2 & -> & -> & HP & Hnd & Hs').
  split; [exact Hs'|]. intros k. simpl.
  rewrite !with_key_app, Hrows. f_equal. now apply with_key_perm.
Qed.

Lemma scan_all_order :
  forall k,
    with_key e k (rows (scan_all_acc (reorder e o1) years SESSION_FOLDERS))
    = with_key e k (rows (scan_all_acc (reorder e o2) years SESSION_FOLDERS)).
Proof.
  unfold scan_all_acc.
  assert (H : forall ss a1 a2,
    (forall s, In s ss -> In s SESSION_FOLDERS) ->
    seen a1 = seen a2 ->
    (forall k, with_key e k (rows a1) = with_key e k (rows a2)) ->
    forall k,
      with_key e k (rows (fold_left (scan_session_acc (reorder e o1) years) ss a1))
      = with_key e k
          (rows (fold_left (scan_session_acc (reorder e o2) years) ss a2))).
  { induction ss as [|s ss IH]; intros a1 a2 Hsub Hs Hr; [exact Hr|].
    simpl.
    destruct (scan_session_order s a1 a2 (Hsub s (or_introl eq_refl)) Hs Hr)
      as [Hs' Hr'].
    apply IH; auto. intros s' Hs''. apply Hsub. now right. }
  apply H; auto.
Qed.

End Orders.

(** ** The loop body on a qualifying record *)

Lemma consume_on_qualified (e : env) (years : gset Z) (delay : pyfloat)
    (biennium url : str) (i : info) (y : Z) (b : str) (a : acc) :
  qualifies years i y b ->
  consume e years delay biennium url (Some i) a =
  if bool_decide ((biennium, y, b) ∈ seen a) then Some a
  else pause e delay
         (Acc (rows a ++ [make_row biennium i y b])
            ({[ (biennium, y, b) ]} ∪ seen a) (printed a)).
Proof.
  intros (Ey & Eb & Hy & Hb & Hin & Hm). unfold consume.
  rewrite Ey, Eb, Hm. simpl.
  destruct (Z.eqb_spec y 0); [contradiction|].
  destruct b as [|c0 b0]; [congruence|]. simpl.
  now rewrite (bool_decide_eq_true_2 _ Hin).
Qed.

(** C1.  Every run that returns has written rows with pairwise different
    (biennium, year, bill_number) triples, and a run that nothing aborts
    returns.  A record that passed the qualification filter and whose key
    is already in [seen] leaves the variables of the loop unchanged;
    otherwise its key is added to [seen], exactly one row is appended to
    [rows], and the loop pauses. *)
Theorem written_rows_distinct (e : env) (out_csv : str) (years : gset Z)
    (max_workers : Z) (delay : pyfloat) :
  (runs_through e out_csv max_workers delay ->
   exists out, main e out_csv years max_workers delay = Some out) /\
  (forall out,
      main e out_csv years max_workers delay = Some out ->
      NoDup (map row_triple (written out))) /\
  (forall biennium url i y b a,
      qualifies years i y b ->
      ((biennium, y, b) ∈ seen a ->
       consume e years delay biennium url (Some i) a = Some a) /\
      ((biennium, y, b) ∉ seen a ->
       consume e years delay biennium url (Some i) a
       = pause e delay
           (Acc (rows a ++ [make_row biennium i y b])
              ({[ (biennium, y, b) ]} ∪ seen a) (printed a)))).
Proof.
  split; [apply main_runs|]. split.
  - intros out Hm. apply main_inv in Hm as (Hp & _).
    rewrite Hp. apply rows_distinct.
  - intros biennium url i y b a Hq.
    rewrite (consume_on_qualified e years delay biennium url i y b a Hq).
    split.
    + intros H. now rewrite (bool_decide_eq_true_2 _ H).
    + intros H. now rewrite (bool_decide_eq_false_2 _ H).
Qed.


(** C3, amended.  Every written row has a year of the configured set and
    comes from a document whose lower-cased text has a match of a
    configured keyword.  A failed extraction is reported and adds nothing;
    a record without a year or identifier, with a year outside the set, or
    with [matched] false leaves the variables of the loop unchanged. *)
Theorem written_rows_qualify (e : env) (out_csv : str) (years : gset Z)
    (max_workers : Z) (delay : pyfloat) :
  (runs_through e out_csv max_workers delay ->
   exists out, main e out_csv years max_workers delay = Some out) /\
  (forall out,
      main e out_csv years max_workers delay = Some out ->
      forall r, In r (written out) ->
        r_year r ∈ years /\
        exists text,
          http_get e (r_bill_text_url r) = Some text /\
          keyword_found (lower text)) /\
  (forall biennium url a,
      consume e years delay biennium url None a
      = Some (say (FetchFailed url) a)) /\
  (forall biennium url i a,
      truthy_int (year i) && truthy_str (bill_number i) = false ->
      consume e years delay biennium url (Some i) a = Some a) /\
  (forall biennium url i y a,
      year i = Some y -> y ∉ years ->
      consume e years delay biennium url (Some i) a = Some a) /\
  (forall biennium url i a,
      matched i = false ->
      consume e years delay biennium url (Some i) a = Some a).
Proof.
  split; [apply main_runs|].
  split; [|split; [|split; [|split]]].
  - intros out Hm r Hr.
    destruct (written_produced _ _ _ _ _ _ Hm r Hr)
      as (bn & base & files & url & i & y & b & _ & _ & _ & Hpg & Hq & ->).
    destruct Hq as (_ & _ & _ & _ & Hy & Hmt). split; [exact Hy|].
    apply parse_bill_page_inv in Hpg as (text & Hg & _ & _ & _ & Em & Eu).
    exists text. cbn [r_bill_text_url make_row]. rewrite Eu.
    split; [exact Hg|]. apply extract_matched_found. congruence.
  - reflexivity.
  - intros biennium url i a H. unfold consume. now rewrite H.
  - intros biennium url i y a Ey Hn. unfold consume. rewrite Ey.
    destruct (negb _); [reflexivity|].
    destruct (bill_number i); [|reflexivity].
    now rewrite (bool_decide_eq_false_2 _ Hn).
  - intros biennium url i a Hm. unfold consume. rewrite Hm.
    destruct (negb _); [reflexivity|].
    destruct (year i), (bill_number i); try reflexivity.
    now destruct (negb _).
Qed.

(** C3 as stated fails: this run writes a row for a document in which the
    keyword follows a capital I with a dot above.  Lower-casing turns that
    letter into an [i] and a combining dot, after which a word starts; the
    text itself has no match of the keyword pattern, in any letter case. *)
Lemma keyword_glued_counterexample :
  exists out r,
    main dotted_env default_out DEFAULT_YEARS 8 no_delay = Some out /\
    In r (written out) /\
    http_get dotted_env (r_bill_text_url r) = Some dotted_text /\
    ~ keyword_found dotted_text.
Proof.
  assert (Hm : is_Some (main dotted_env default_out DEFAULT_YEARS 8 no_delay))
    by (vm_compute; eauto).
  destruct Hm as [out Hm].
  assert (Hw : option_map (fun o => map r_bill_text_url (written o))
                 (main dotted_env default_out DEFAULT_YEARS 8 no_delay)
               = Some [base_2023 ++ str_of "1181.htm"])
    by (vm_compute; reflexivity).
  rewrite Hm in Hw. injection Hw as Hw.
  destruct (written out) as [|r l] eqn:Ew; [discriminate|].
  injection Hw as Hr _.
  exists out, r. split; [exact Hm|]. split; [rewrite Ew; now left|].
  split; [rewrite Hr; vm_compute; reflexivity|].
  intros (k & i & w & g & [<- | []] & M).
  assert (S : search true (cat [WordB; lit "climate"; WordB]) dotted_text
              = None) by (vm_compute; reflexivity).
  exact (search_none _ _ _ S _ _ _ M).
Qed.

(** C7.  The summary URL of a row is the fixed template filled with the
    bill number and the year, and the empty string when either is absent;
    every written row carries the template filled with its own number and
    year. *)
Theorem summary_url_template (e : env) (out_csv : str) (years : gset Z)
    (max_workers : Z) (delay : pyfloat) :
  (forall b y,
      b <> [] -> y <> 0%Z ->
      or_empty (bill_summary_url (Some b) (Some y))
      = str_of "https://app.leg.wa.gov/BillSummary/?BillNumber=" ++ b ++
        str_of "&Year=" ++ py_str y ++ str_of "&Initiative=false") /\
  (forall b y,
      b = None \/ y = None -> or_empty (bill_summary_url b y) = []) /\
  (runs_through e out_csv max_workers delay ->
   exists out, main e out_csv years max_workers delay = Some out) /\
  (forall out,
      main e out_csv years max_workers delay = Some out ->
      forall r, In r (written out) ->
        exists n,
          r_bill_number r = str_of "HB " ++ n /\
          r_bill_summary_url r = summary_template n (r_year r)).
Proof.
  split; [|split; [|split]].
  - intros b y Hb Hy. now rewrite summary_of_row.
  - intros b y [-> | ->]; [reflexivity|]. now destruct b.
  - apply main_runs.
  - intros out Hm r Hr.
    destruct (written_produced _ _ _ _ _ _ Hm r Hr)
      as (bn & base & files & url & i & y & b & _ & _ & _ & _ & Hq & ->).
    destruct Hq as (_ & _ & Hy & Hb & _).
    exists b. cbn [r_bill_number r_bill_summary_url r_year make_row].
    split; [reflexivity|]. now apply summary_of_row.
Qed.

(** C9.  Every written row has a non-empty summary URL: it is built from a
    record whose year and identifier are both present and truthy, so the
    empty branch of [bill_summary_url] is not taken. *)
Theorem summary_url_nonempty (e : env) (out_csv : str) (years : gset Z)
    (max_workers : Z) (delay : pyfloat) :
  (runs_through e out_csv max_workers delay ->
   exists out, main e out_csv years max_workers delay = Some out) /\
  (forall out,
      main e out_csv years max_workers delay = Some out ->
      forall r, In r (written out) ->
        r_bill_summary_url r <> [] /\
        exists i y b,
          truthy_int (year i) = true /\ truthy_str (bill_number i) = true /\
          year i = Some y /\ bill_number i = Some b /\
          r_bill_summary_url r = summary_template b y).
Proof.
  split; [apply main_runs|].
  intros out Hm r Hr.
  destruct (written_produced _ _ _ _ _ _ Hm r Hr)
    as (bn & base & files & url & i & y & b & _ & _ & _ & _ & Hq & ->).
  destruct Hq as (Ey & Eb & Hy & Hb & _).
  cbn [r_bill_summary_url make_row].
  rewrite (summary_of_row b y Hb Hy). split; [discriminate|].
  exists i, y, b. rewrite Ey, Eb. simpl.
  destruct (Z.eqb_spec y 0); [contradiction|].
  destruct b as [|c0 b0]; [congruence|]. auto.
Qed.

(** ** A session whose listing fails *)

Section Skip.

Variable e : env.
Variable years : gset Z.

Lemma consume_acc_same biennium url res a a' :
  rows a = rows a' -> seen a = seen a' ->
  rows (consume_acc years biennium url res a)
  = rows (consume_acc years biennium url res a') /\
  seen (consume_acc years biennium url res a)
  = seen (consume_acc years biennium url res a').
Proof.
  intros Hr Hs. unfold consume_acc. destruct res as [i|]; [|simpl; auto].
  destruct (negb _); [auto|].
  destruct (year i), (bill_number i); auto.
  destruct (negb _); [auto|]. destruct (negb _); [auto|].
  cbv zeta. rewrite Hs. destruct (bool_decide _); [auto|].
  simpl. now rewrite Hr.
Qed.

Lemma drain_acc_same biennium urls a a' :
  rows a = rows a' -> seen a = seen a' ->
  rows (drain_acc e years biennium urls a)
  = rows (drain_acc e years biennium urls a') /\
  seen (drain_acc e years biennium urls a)
  = seen (drain_acc e years biennium urls a').
Proof.
  revert a a'. induction urls as [|u us IH]; intros a a' Hr Hs; [auto|].
  rewrite !drain_acc_cons.
  destruct (consume_acc_same biennium u (parse_bill_page e u) a a' Hr Hs).
  now apply IH.
Qed.

Lemma scan_session_acc_same s a a' :
  rows a = rows a' -> seen a = seen a' ->
  rows (scan_session_acc e years a s) = rows (scan_session_acc e years a' s) /\
  seen (scan_session_acc e years a s) = seen (scan_session_acc e years a' s).
Proof.
  intros Hr Hs. unfold scan_session_acc.
  destruct (list_bill_files e s.1 s.2); [|simpl; auto].
  now apply drain_acc_same.
Qed.

Lemma scan_fold_same ss a a' :
  rows a = rows a' -> seen a = seen a' ->
  rows (fold_left (scan_session_acc e years) ss a)
  = rows (fold_left (scan_session_acc e years) ss a').
Proof.
  revert a a'. induction ss as [|s ss IH]; intros a a' Hr Hs; [exact Hr|].
  simpl. destruct (scan_session_acc_same s a a' Hr Hs). now apply IH.
Qed.

(** The rows accumulated are those of a run over the other sessions. *)
Lemma skip_failed_rows ss1 ss2 biennium base :
  listing e base = None ->
  rows (scan_all_acc e years (ss1 ++ (biennium, base) :: ss2))
  = rows (scan_all_acc e years (ss1 ++ ss2)).
Proof.
  intros Hl. unfold scan_all_acc. rewrite !fold_left_app. cbn [fold_left].
  apply scan_fold_same;
    unfold scan_session_acc, list_bill_files; cbn [fst snd];
    rewrite Hl; reflexivity.
Qed.

Lemma skip_failed_pool max_workers ss1 ss2 biennium base :
  listing e base = None ->
  pool_fine e max_workers (ss1 ++ (biennium, base) :: ss2)
  = pool_fine e max_workers (ss1 ++ ss2).
Proof.
  intros Hl. unfold pool_fine. rewrite !forallb_app. cbn [forallb snd].
  now rewrite Hl.
Qed.

End Skip.

(** C8.  When the listing of a session cannot be fetched, the run returns
    exactly when a run over the other sessions returns, and writes the same
    rows; in particular a run that nothing else aborts returns.  The
    failure is printed, no written row belongs to that session, and every
    written row comes from the listing of a session that could be
    fetched. *)
Theorem listing_failure_skips_session (e : env) (out_csv : str)
    (years : gset Z) (max_workers : Z) (delay : pyfloat)
    (ss1 ss2 : list (str * str)) (biennium base : str) :
  SESSION_FOLDERS = ss1 ++ (biennium, base) :: ss2 ->
  listing e base = None ->
  option_map written (main e out_csv years max_workers delay)
  = option_map written
      (main_with (ss1 ++ ss2) e out_csv years max_workers delay) /\
  (runs_through e out_csv max_workers delay ->
   exists out, main e out_csv years max_workers delay = Some out) /\
  (forall out,
      main e out_csv years max_workers delay = Some out ->
      In (ListFailed biennium) (output out) /\
      forall r, In r (written out) ->
        r_biennium r <> biennium /\
        exists base' files,
          In (r_biennium r, base') SESSION_FOLDERS /\
          listing e base' = Some files /\
          In (r_bill_text_url r) (completion e (r_biennium r) files)).
Proof.
  intros Hss Hfail. split; [|split; [apply main_runs|]].
  - unfold main. rewrite !main_with_written, !main_with_returns, Hss.
    rewrite (skip_failed_pool e max_workers ss1 ss2 biennium base Hfail).
    now rewrite (skip_failed_rows e years ss1 ss2 biennium base Hfail).
  - assert (Hin : In (biennium, base) SESSION_FOLDERS)
      by (rewrite Hss; apply in_elt).
    intros out Hm. pose proof (main_inv _ _ _ _ _ _ Hm) as (Hp & _ & Ho).
    split.
    + rewrite Ho. apply in_or_app. left.
      eapply list_failure_printed; eauto.
    + intros r Hr. apply (Permutation_in _ Hp), rows_produced in Hr.
      destruct Hr
        as (bn & base' & files & url & i & y & b & Hs & Hl & Hu & Hpg & _ & ->).
      apply parse_bill_page_inv in Hpg as (text & _ & _ & _ & _ & _ & Eu).
      cbn [r_biennium r_bill_text_url make_row]. rewrite Eu.
      split; [|exists base', files; auto].
      intros ->. rewrite (session_base_unique _ _ _ Hin Hs) in Hfail.
      congruence.
Qed.

Lemma listing_failure_witness :
  (option_map written
     (main second_session_env default_out DEFAULT_YEARS 8 no_delay)
   = option_map written
       (main_with ([] ++ [(str_of "2025-26", base_2025)])
          second_session_env default_out DEFAULT_YEARS 8 no_delay) /\
   (runs_through second_session_env default_out 8 no_delay ->
    exists out,
      main second_session_env default_out DEFAULT_YEARS 8 no_delay
      = Some out) /\
   (forall out,
      main second_session_env default_out DEFAULT_YEARS 8 no_delay
      = Some out ->
      In (ListFailed (str_of "2023-24")) (output out) /\
      forall r, In r (written out) ->
        r_biennium r <> str_of "2023-24" /\
        exists base' files,
          In (r_biennium r, base') SESSION_FOLDERS /\
          listing second_session_env base' = Some files /\
          In (r_bill_text_url r)
            (completion second_session_env (r_biennium r) files))) /\
  option_map (fun o => map row_triple (written o))
    (main second_session_env default_out DEFAULT_YEARS 8 no_delay)
  = Some [(str_of "2025-26", 2025%Z, str_of "HB 1181")].
Proof.
  split.
  - apply (listing_failure_skips_session second_session_env default_out
             DEFAULT_YEARS 8 no_delay [] [(str_of "2025-26", base_2025)]
             (str_of "2023-24") base_2023).
    + reflexivity.
    + vm_compute. reflexivity.
  - vm_compute. reflexivity.
Defined.

(** ** Independence of the completion order *)

Lemma sort_rows_reorder (e : env) (o : str -> list str -> list str)
    (rs : list row) :
  sort_rows (reorder e o) rs = sort_rows e rs.
Proof.
  unfold sort_rows.
  assert (H : decorate (reorder e o) rs = decorate e rs); [|now rewrite H].
  induction rs as [|r tl IH]; [reflexivity|].
  cbn [decorate]. rewrite IH. reflexivity.
Qed.

Lemma with_key_all_nil (e : env) (l1 l2 : list row) :
  (forall r, In r l2 -> is_Some (sort_key e r)) ->
  (forall k, with_key e k l1 = with_key e k l2) ->
  l1 = [] -> l2 = [].
Proof.
  intros Hk H ->. destruct l2 as [|r l]; [reflexivity|].
  destruct (Hk r (or_introl eq_refl)) as [k Ek].
  specialize (H k). rewrite (with_key_head e r k l Ek) in H. discriminate.
Qed.

(** C4, amended.  When no session lists two different URLs whose documents
    both qualify with the same year and numeric bill number, two runs over
    the same contents return or fail together and write the same rows in
    the same order, whatever the two completion orders. *)
Theorem same_output_without_ties (e : env) (out_csv : str) (years : gset Z)
    (max_workers : Z) (delay : pyfloat)
    (o1 o2 : str -> list str -> list str) :
  (forall b l, Permutation (o1 b l) l) ->
  (forall b l, Permutation (o2 b l) l) ->
  tie_free e years ->
  option_map written (main (reorder e o1) out_csv years max_workers delay)
  = option_map written (main (reorder e o2) out_csv years max_workers delay)
  /\
  (runs_through e out_csv max_workers delay ->
   exists out1 out2,
     main (reorder e o1) out_csv years max_workers delay = Some out1 /\
     main (reorder e o2) out_csv years max_workers delay = Some out2 /\
     written out1 = written out2).
Proof.
  intros Ho1 Ho2 Htie.
  pose proof (scan_all_order e years o1 o2 Ho1 Ho2 Htie) as H.
  assert (Heq : option_map written
                  (main (reorder e o1) out_csv years max_workers delay)
                = option_map written
                    (main (reorder e o2) out_csv years max_workers delay)).
  { unfold main. rewrite !main_with_written, !main_with_returns.
    change (pool_fine (reorder e o1)) with (pool_fine e).
    change (pool_fine (reorder e o2)) with (pool_fine e).
    change (can_pause (reorder e o1)) with (can_pause e).
    change (can_pause (reorder e o2)) with (can_pause e).
    change (open_csv (reorder e o1)) with (open_csv e).
    change (open_csv (reorder e o2)) with (open_csv e).
    rewrite !sort_rows_reorder.
    set (rows1 := rows (scan_all_acc (reorder e o1) years SESSION_FOLDERS))
      in *.
    set (rows2 := rows (scan_all_acc (reorder e o2) years SESSION_FOLDERS))
      in *.
    assert (K1 : forall r, In r rows1 -> is_Some (sort_key e r))
      by (intros r Hr;
          exact (produced_sort_key (reorder e o1) years SESSION_FOLDERS r
                   (rows_produced _ _ _ _ Hr))).
    assert (K2 : forall r, In r rows2 -> is_Some (sort_key e r))
      by (intros r Hr;
          exact (produced_sort_key (reorder e o2) years SESSION_FOLDERS r
                   (rows_produced _ _ _ _ Hr))).
    assert (Hnil : bool_decide (rows1 = []) = bool_decide (rows2 = [])).
    { apply bool_decide_ext. split.
      - apply (with_key_all_nil e rows1 rows2 K2 H).
      - apply (with_key_all_nil e rows2 rows1 K1). intros k. symmetry. apply H. }
    rewrite Hnil.
    destruct (pool_fine e max_workers SESSION_FOLDERS && _ && _);
      [|reflexivity].
    destruct (decorate_total e rows1 K1) as [kl1 Hk1].
    destruct (decorate_total e rows2 K2) as [kl2 Hk2].
    assert (S1 : is_Some (sort_rows e rows1))
      by (unfold sort_rows; rewrite Hk1; eauto).
    assert (S2 : is_Some (sort_rows e rows2))
      by (unfold sort_rows; rewrite Hk2; eauto).
    destruct S1 as [s1 E1]. destruct S2 as [s2 E2]. rewrite E1, E2.
    f_equal. exact (sort_rows_unique e _ _ _ _ H E1 E2). }
  split; [exact Heq|]. intros Hrun.
  destruct (main_runs (reorder e o1) out_csv years max_workers delay Hrun)
    as [out1 Hm1].
  destruct (main_runs (reorder e o2) out_csv years max_workers delay Hrun)
    as [out2 Hm2].
  exists out1, out2. split; [exact Hm1|]. split; [exact Hm2|].
  rewrite Hm1, Hm2 in Heq. now injection Heq.
Qed.

Lemma two_bills_tie_free : tie_free two_bills_env DEFAULT_YEARS.
Proof.
  intros biennium base files u u' k r k' r' Hs Hl Hu Hu' Hc Hc' Hk.
  assert (biennium = str_of "2023-24" /\ base = base_2023) as [-> ->].
  { destruct Hs as [[= <- <-] | [[= <- <-] | []]]; [auto|].
    vm_compute in Hl. discriminate. }
  vm_compute in Hl. injection Hl as <-.
  destruct Hu as [<- | [<- | []]]; destruct Hu' as [<- | [<- | []]];
    try reflexivity;
    vm_compute in Hc; vm_compute in Hc';
    injection Hc as <- <-; injection Hc' as <- <-;
    vm_compute in Hk; discriminate.
Qed.

Lemma same_output_witness :
  option_map written
    (main (reorder two_bills_env in_order) default_out DEFAULT_YEARS 8
       no_delay)
  = option_map written
      (main (reorder two_bills_env reversed) default_out DEFAULT_YEARS 8
         no_delay) /\
  (runs_through two_bills_env default_out 8 no_delay ->
   exists out1 out2,
     main (reorder two_bills_env in_order) default_out DEFAULT_YEARS 8
       no_delay = Some out1 /\
     main (reorder two_bills_env reversed) default_out DEFAULT_YEARS 8
       no_delay = Some out2 /\
     written out1 = written out2).
Proof.
  apply (same_output_without_ties two_bills_env default_out DEFAULT_YEARS 8
           no_delay in_order reversed).
  - intros b l. apply Permutation_refl.
  - intros b l. symmetry. apply Permutation_rev.
  - exact two_bills_tie_free.
Defined.

(** C4 as stated fails: with a bill and its substitute in one listing, the
    two completion orders keep different documents for the same key. *)
Lemma completion_order_counterexample :
  (forall b l, Permutation (in_order b l) l) /\
  (forall b l, Permutation (reversed b l) l) /\
  option_map written
    (main (reorder two_versions_env in_order) default_out DEFAULT_YEARS 8
       no_delay)
  <> option_map written
       (main (reorder two_versions_env reversed) default_out DEFAULT_YEARS 8
          no_delay).
Proof.
  split; [intros; apply Permutation_refl|].
  split; [intros; symmetry; apply Permutation_rev|].
  vm_compute. discriminate.
Qed.

(** ** What the extractor returns *)

Lemma extract_year_range (e : env) (text : str) :
  exists o,
    extract_year e text = Some o /\
    forall y, o = Some y -> (2000 <= y <= 2099)%Z.
Proof.
  pose proof (extract_year_search e text) as H.
  destruct (search true YEAR_RE text) as [m|].
  - destruct H as (y & E & (pre & w & post & _ & _ & Hy & _) & _).
    exists (Some y). split; [exact E|]. intros y' [= <-].
    destruct Hy as (d3 & d4 & _ & _ & _ & _ & _ & _ & -> & _).
    pose proof (digit_val_range d3). pose proof (digit_val_range d4).
    lia.
  - destruct H as [E _]. exists None. split; [exact E|]. discriminate.
Qed.

Lemma parse_none_fetch (e : env) (url : str) :
  parse_bill_page e url = None <-> http_get e url = None.
Proof.
  unfold parse_bill_page, parse_text.
  destruct (http_get e url) as [text|]; [|tauto].
  destruct (extract_year_range e text) as (o & -> & _).
  split; discriminate.
Qed.

Lemma parse_year_bounds (e : env) (url : str) (i : info) (y : Z) :
  parse_bill_page e url = Some i -> year i = Some y ->
  (2000 <= y <= 2099)%Z.
Proof.
  intros Hp Hy.
  apply parse_bill_page_inv in Hp as (text & _ & Ey & _).
  destruct (extract_year_range e text) as (o & Eo & Hr).
  apply Hr. congruence.
Qed.

Lemma parse_number_digits (e : env) (url : str) (i : info) (b : str) :
  parse_bill_page e url = Some i -> bill_number i = Some b ->
  digits b /\ (3 <= length b <= 4)%nat.
Proof.
  intros Hp Hb.
  apply parse_bill_page_inv in Hp as (text & _ & _ & Eb & _).
  rewrite Eb in Hb. exact (extract_bill_number_digits _ _ _ Hb).
Qed.

(** X1.  [parse_bill_page] raises exactly when the fetch of the document
    raises: no text makes the extraction itself fail, whatever limit is set
    on the length of integer strings. *)
Theorem parse_fails_only_on_fetch (e : env) (url : str) :
  parse_bill_page e url = None <-> http_get e url = None.
Proof.
  unfold parse_bill_page, parse_text.
  destruct (http_get e url) as [text|]; [|tauto].
  destruct (extract_year_range e text) as (o & -> & _).
  split; discriminate.
Qed.

(** X2.  A year returned by [parse_bill_page] lies between 2000 and 2099. *)
Theorem parsed_year_range (e : env) (url : str) (i : info) (y : Z) :
  parse_bill_page e url = Some i -> year i = Some y ->
  (2000 <= y <= 2099)%Z.
Proof.
  intros Hp Hy.
  apply parse_bill_page_inv in Hp as (text & _ & Ey & _).
  destruct (extract_year_range e text) as (o & Eo & Hr).
  apply Hr. congruence.
Qed.

Lemma parsed_year_range_witness :
  exists i y,
    parse_bill_page one_session_env (base_2023 ++ str_of "1181.htm")
    = Some i /\
    year i = Some y /\ (2000 <= y <= 2099)%Z.
Proof.
  eexists. eexists. split; [vm_compute; reflexivity|].
  split; [reflexivity|].
  eapply (parsed_year_range one_session_env
            (base_2023 ++ str_of "1181.htm"));
    vm_compute; reflexivity.
Defined.

(** X3.  A bill number returned by [parse_bill_page], from the text or from
    the file name, is a string of three or four decimal digits, in the
    sense of the [\d] of the patterns: characters of Unicode category Nd. *)
Theorem parsed_identifier_shape (e : env) (url : str) (i : info) (b : str) :
  parse_bill_page e url = Some i -> bill_number i = Some b ->
  digits b /\ (3 <= length b <= 4)%nat.
Proof.
  intros Hp Hb.
  apply parse_bill_page_inv in Hp as (text & _ & _ & Eb & _).
  rewrite Eb in Hb. exact (extract_bill_number_digits _ _ _ Hb).
Qed.

Lemma parsed_identifier_shape_witness :
  exists i b,
    parse_bill_page arabic_env (base_2023 ++ str_of "1181.htm") = Some i /\
    bill_number i = Some b /\
    digits b /\ (3 <= length b <= 4)%nat.
Proof.
  eexists. eexists. split; [vm_compute; reflexivity|].
  split; [reflexivity|].
  eapply (parsed_identifier_shape arabic_env
            (base_2023 ++ str_of "1181.htm"));
    vm_compute; reflexivity.
Defined.

(** ** What the loop keeps and what it reports *)

Section Monotone.

Variable e : env.
Variable years : gset Z.

Lemma drain_app biennium urls1 urls2 a :
  drain_acc e years biennium (urls1 ++ urls2) a
  = drain_acc e years biennium urls2 (drain_acc e years biennium urls1 a).
Proof. unfold drain_acc. apply fold_left_app. Qed.

Lemma drain_rows_mono biennium urls a r :
  In r (rows a) -> In r (rows (drain_acc e years biennium urls a)).
Proof.
  intros H. destruct (drain_spec e years biennium urls a) as (RK & -> & _).
  apply in_or_app. now left.
Qed.

Lemma drain_seen_mono biennium urls a k :
  k ∈ seen a -> k ∈ seen (drain_acc e years biennium urls a).
Proof.
  intros H.
  destruct (drain_spec e years biennium urls a) as (RK & _ & _ & _ & _ & Hs).
  apply Hs. now left.
Qed.

Lemma drain_covers biennium urls a u k r :
  In u urls -> candidate e years biennium u = Some (k, r) ->
  k ∈ seen (drain_acc e years biennium urls a).
Proof.
  intros Hu Hc.
  destruct (drain_spec e years biennium urls a)
    as (RK & _ & _ & _ & Hcov & Hs).
  apply Hs. destruct (decide (k ∈ seen a)) as [Hk|Hk]; [now left|].
  right. eapply Hcov; eauto.
Qed.

Lemma drain_seen_label biennium urls a k :
  k ∈ seen (drain_acc e years biennium urls a) ->
  k ∈ seen a \/ k.1.1 = biennium.
Proof.
  intros H.
  destruct (drain_spec e years biennium urls a)
    as (RK & _ & _ & Hin & _ & Hs).
  destruct (proj1 (Hs k) H) as [H' | H']; [now left|]. right.
  apply in_map_iff in H' as ([k' r] & <- & Hkr).
  destruct (Hin _ _ Hkr) as (_ & u & _ & Hc).
  apply candidate_inv in Hc as (i & y & b & _ & _ & -> & _). reflexivity.
Qed.

Lemma session_rows_mono a s r :
  In r (rows a) -> In r (rows (scan_session_acc e years a s)).
Proof.
  intros H. unfold scan_session_acc.
  destruct (list_bill_files e s.1 s.2); [|exact H].
  now apply drain_rows_mono.
Qed.

Lemma session_seen_mono a s k :
  k ∈ seen a -> k ∈ seen (scan_session_acc e years a s).
Proof.
  intros H. unfold scan_session_acc.
  destruct (list_bill_files e s.1 s.2); [|exact H].
  now apply drain_seen_mono.
Qed.

Lemma session_seen_label a s k :
  k ∈ seen (scan_session_acc e years a s) -> k ∈ seen a \/ k.1.1 = s.1.
Proof.
  unfold scan_session_acc.
  destruct (list_bill_files e s.1 s.2); [|now left].
  intros H. apply drain_seen_label in H. exact H.
Qed.

Lemma fold_rows_mono ss a r :
  In r (rows a) -> In r (rows (fold_left (scan_session_acc e years) ss a)).
Proof.
  revert a. induction ss as [|s ss IH]; intros a H; [exact H|].
  simpl. now apply IH, session_rows_mono.
Qed.

Lemma fold_seen_mono ss a k :
  k ∈ seen a -> k ∈ seen (fold_left (scan_session_acc e years) ss a).
Proof.
  revert a. induction ss as [|s ss IH]; intros a H; [exact H|].
  simpl. now apply IH, session_seen_mono.
Qed.

Lemma fold_seen_label ss a k :
  k ∈ seen (fold_left (scan_session_acc e years) ss a) ->
  k ∈ seen a \/ In k.1.1 (map fst ss).
Proof.
  revert a. induction ss as [|s ss IH]; intros a H; [now left|].
  simpl in H. apply IH in H as [H | H]; [|right; now right].
  apply session_seen_label in H as [H | H]; [now left|].
  right. left. now symmetry.
Qed.

(** The state of the loop when the futures of one session start to be
    drained. *)
Lemma scan_all_at sessions biennium base files :
  In (biennium, base) sessions -> listing e base = Some files ->
  exists ss1 ss2,
    sessions = ss1 ++ (biennium, base) :: ss2 /\
    scan_all_acc e years sessions
    = fold_left (scan_session_acc e years) ss2
        (drain_acc e years biennium (completion e biennium files)
           (say (Scanning biennium)
              (fold_left (scan_session_acc e years) ss1 (Acc [] ∅ [])))).
Proof.
  intros Hin Hl. apply in_split in Hin as (ss1 & ss2 & ->).
  exists ss1, ss2. split; [reflexivity|].
  unfold scan_all_acc. rewrite fold_left_app. simpl.
  unfold scan_session_acc at 2. unfold list_bill_files. simpl. now rewrite Hl.
Qed.

Lemma seen_has_row sessions k :
  k ∈ seen (scan_all_acc e years sessions) ->
  exists r,
    In r (rows (scan_all_acc e years sessions)) /\
    row_triple r = (k.1.1, k.1.2, str_of "HB " ++ k.2).
Proof.
  revert k. apply (scan_all_ind e years sessions (fun a =>
    forall k, k ∈ seen a ->
      exists r, In r (rows a) /\
                row_triple r = (k.1.1, k.1.2, str_of "HB " ++ k.2))).
  - intros k Hk. now apply not_elem_of_empty in Hk.
  - auto.
  - intros a biennium base files url i y b _ _ _ _ _ _ IH k Hk.
    simpl in Hk. apply elem_of_union in Hk as [Hk | Hk].
    + apply elem_of_singleton in Hk as ->.
      exists (make_row biennium i y b). split; [|reflexivity].
      simpl. apply in_or_app. right. now left.
    + destruct (IH k Hk) as (r & Hr & Et). exists r.
      split; [|exact Et]. simpl. apply in_or_app. now left.
Qed.

Lemma qualifies_candidate biennium url i y b :
  parse_bill_page e url = Some i -> qualifies years i y b ->
  candidate e years biennium url
  = Some ((biennium, y, b), make_row biennium i y b).
Proof.
  intros Hp (Ey & Eb & Hy & Hb & Hin & Hm). unfold candidate.
  rewrite Hp, Ey, Eb, Hm. simpl.
  destruct (Z.eqb_spec y 0); [contradiction|].
  destruct b as [|c0 b0]; [congruence|]. simpl.
  now rewrite (bool_decide_eq_true_2 _ Hin).
Qed.

End Monotone.

(** ** No qualifying document is lost *)

Lemma qualifying_row_in_rows (e : env) (years : gset Z)
    (biennium base : str) (files : list str) (u : str)
    (k : str * Z * str) (r : row) :
  In (biennium, base) SESSION_FOLDERS ->
  listing e base = Some files ->
  In u (completion e biennium files) ->
  candidate e years biennium u = Some (k, r) ->
  exists r',
    In r' (rows (scan_all_acc e years SESSION_FOLDERS)) /\
    row_triple r' = row_triple r.
Proof.
  intros Hs Hl Hu Hc.
  destruct (scan_all_at e years _ _ _ _ Hs Hl) as (ss1 & ss2 & _ & E).
  assert (Hk : k ∈ seen (scan_all_acc e years SESSION_FOLDERS)).
  { rewrite E. apply fold_seen_mono. eapply drain_covers; eauto. }
  destruct (seen_has_row e years _ _ Hk) as (r' & Hr' & Et).
  exists r'. split; [exact Hr'|]. rewrite Et.
  apply candidate_inv in Hc as (i & y & b & _ & _ & -> & ->). reflexivity.
Qed.

(** X8.  Every completed document of a session that passes the
    qualification filter is represented in the report by a row with its
    biennium, year and bill number: in the report of every run that
    returns, and a run that nothing aborts returns. *)
Theorem qualifying_document_is_written (e : env) (out_csv : str)
    (years : gset Z) (max_workers : Z) (delay : pyfloat)
    (biennium base : str) (files : list str) (u : str)
    (k : str * Z * str) (r : row) :
  In (biennium, base) SESSION_FOLDERS ->
  listing e base = Some files ->
  In u (completion e biennium files) ->
  candidate e years biennium u = Some (k, r) ->
  (runs_through e out_csv max_workers delay ->
   exists out r',
     main e out_csv years max_workers delay = Some out /\
     In r' (written out) /\ row_triple r' = row_triple r) /\
  (forall out,
     main e out_csv years max_workers delay = Some out ->
     exists r', In r' (written out) /\ row_triple r' = row_triple r).
Proof.
  intros Hs Hl Hu Hc.
  destruct (qualifying_row_in_rows e years _ _ _ _ _ _ Hs Hl Hu Hc)
    as (r' & Hr' & Et).
  assert (H : forall out,
             main e out_csv years max_workers delay = Some out ->
             exists r', In r' (written out) /\ row_triple r' = row_triple r).
  { intros out Hm. pose proof (main_inv _ _ _ _ _ _ Hm) as (Hp & _).
    exists r'. split; [|exact Et].
    exact (Permutation_in _ (Permutation_sym Hp) Hr'). }
  split; [|exact H]. intros Hrun.
  destruct (main_runs e out_csv years max_workers delay Hrun) as [out Hm].
  destruct (H out Hm) as (r0 & Hr0). exists out, r0. auto.
Qed.

Lemma qualifying_document_witness :
  (runs_through two_versions_env default_out 8 no_delay ->
   exists out r',
     main two_versions_env default_out DEFAULT_YEARS 8 no_delay = Some out /\
     In r' (written out) /\
     row_triple r' = (str_of "2023-24", 2024%Z, str_of "HB 1181")) /\
  (forall out,
     main two_versions_env default_out DEFAULT_YEARS 8 no_delay = Some out ->
     exists r',
       In r' (written out) /\
       row_triple r' = (str_of "2023-24", 2024%Z, str_of "HB 1181")).
Proof.
  apply (qualifying_document_is_written two_versions_env default_out
           DEFAULT_YEARS 8 no_delay
           (str_of "2023-24") base_2023
           [base_2023 ++ str_of "1181.htm"; base_2023 ++ str_of "1181-S.htm"]
           (base_2023 ++ str_of "1181-S.htm")
           (str_of "2023-24", 2024%Z, str_of "1181")
           {| r_biennium := str_of "2023-24";
              r_year := 2024;
              r_bill_number := str_of "HB 1181";
              r_title := [];
              r_bill_text_url := base_2023 ++ str_of "1181-S.htm";
              r_bill_summary_url :=
                str_of "https://app.leg.wa.gov/BillSummary/?BillNumber=1181&Year=2024&Initiative=false" |}).
  - left. reflexivity.
  - vm_compute. reflexivity.
  - right. left. reflexivity.
  - vm_compute. reflexivity.
Defined.

(** ** The first completed document of a key is the one kept *)

Lemma session_labels_distinct : List.NoDup (map fst SESSION_FOLDERS).
Proof.
  simpl. constructor; [|constructor; [|constructor]]; simpl;
    [|tauto]. intros [H | []]. vm_compute in H. discriminate.
Qed.

Lemma drain_keeps_first (e : env) (years : gset Z) (biennium : str)
    (pre post : list str) (u : str) (k : str * Z * str)
    (r : row) (a : acc) :
  k ∉ seen a ->
  candidate e years biennium u = Some (k, r) ->
  (forall u' r', In u' pre -> candidate e years biennium u' <> Some (k, r')) ->
  In r (rows (drain_acc e years biennium (pre ++ u :: post) a)).
Proof.
  intros Hk Hc Hpre.
  rewrite drain_app, drain_acc_cons.
  apply drain_rows_mono.
  set (a1 := drain_acc e years biennium pre a).
  assert (Hk1 : k ∉ seen a1).
  { unfold a1.
    destruct (drain_spec e years biennium pre a)
      as (RK & _ & _ & Hin & _ & Hs).
    intros H. apply Hs in H as [H | H]; [contradiction|].
    apply in_map_iff in H as ([k' r'] & Ek & Hkr). simpl in Ek. subst k'.
    destruct (Hin _ _ Hkr) as (_ & u' & Hu' & Hc').
    exact (Hpre u' r' Hu' Hc'). }
  pose proof (consume_candidate e years biennium u a1) as H.
  rewrite Hc, (bool_decide_eq_false_2 _ Hk1) in H. destruct H as [-> _].
  apply in_or_app. right. now left.
Qed.

(** X9.  Of the documents of a session that share a deduplication key, the
    row of the one that completes first is the one written: in the report
    of every run that returns, and a run that nothing aborts returns. *)
Theorem first_completed_is_kept (e : env) (out_csv : str) (years : gset Z)
    (max_workers : Z) (delay : pyfloat)
    (biennium base : str) (files pre post : list str) (u : str)
    (k : str * Z * str) (r : row) :
  In (biennium, base) SESSION_FOLDERS ->
  listing e base = Some files ->
  completion e biennium files = pre ++ u :: post ->
  candidate e years biennium u = Some (k, r) ->
  (forall u' r', In u' pre -> candidate e years biennium u' <> Some (k, r')) ->
  (runs_through e out_csv max_workers delay ->
   exists out,
     main e out_csv years max_workers delay = Some out /\
     In r (written out)) /\
  (forall out,
     main e out_csv years max_workers delay = Some out ->
     In r (written out)).
Proof.
  intros Hs Hl Hcomp Hc Hpre.
  assert (H : forall out,
             main e out_csv years max_workers delay = Some out ->
             In r (written out)).
  { intros out Hm. pose proof (main_inv _ _ _ _ _ _ Hm) as (Hp & _).
    apply (Permutation_in _ (Permutation_sym Hp)).
    destruct (scan_all_at e years _ _ _ _ Hs Hl) as (ss1 & ss2 & Ess & ->).
    apply fold_rows_mono. rewrite Hcomp.
    apply (drain_keeps_first e years biennium pre post u k r); auto.
    simpl. intros Hk.
    apply fold_seen_label in Hk as [Hk | Hk];
      [now apply not_elem_of_empty in Hk|].
    apply candidate_inv in Hc as (i & y & b & _ & _ & -> & _). simpl in Hk.
    pose proof session_labels_distinct as Hnd. rewrite Ess, map_app in Hnd.
    apply NoDup_remove_2 in Hnd. apply Hnd, in_or_app. now left. }
  split; [|exact H]. intros Hrun.
  destruct (main_runs e out_csv years max_workers delay Hrun) as [out Hm].
  exists out. auto.
Qed.

Lemma first_completed_witness :
  (runs_through (reorder two_versions_env reversed) default_out 8 no_delay ->
   exists out,
     main (reorder two_versions_env reversed) default_out DEFAULT_YEARS 8
       no_delay = Some out /\
     In {| r_biennium := str_of "2023-24";
           r_year := 2024;
           r_bill_number := str_of "HB 1181";
           r_title := [];
           r_bill_text_url := base_2023 ++ str_of "1181-S.htm";
           r_bill_summary_url :=
             str_of "https://app.leg.wa.gov/BillSummary/?BillNumber=1181&Year=2024&Initiative=false" |}
        (written out)) /\
  (forall out,
     main (reorder two_versions_env reversed) default_out DEFAULT_YEARS 8
       no_delay = Some out ->
     In {| r_biennium := str_of "2023-24";
           r_year := 2024;
           r_bill_number := str_of "HB 1181";
           r_title := [];
           r_bill_text_url := base_2023 ++ str_of "1181-S.htm";
           r_bill_summary_url :=
             str_of "https://app.leg.wa.gov/BillSummary/?BillNumber=1181&Year=2024&Initiative=false" |}
        (written out)).
Proof.
  apply (first_completed_is_kept (reorder two_versions_env reversed)
           default_out DEFAULT_YEARS 8 no_delay (str_of "2023-24") base_2023
           [base_2023 ++ str_of "1181.htm"; base_2023 ++ str_of "1181-S.htm"]
           [] [base_2023 ++ str_of "1181.htm"]
           (base_2023 ++ str_of "1181-S.htm")
           (str_of "2023-24", 2024%Z, str_of "1181")).
  - left. reflexivity.
  - vm_compute. reflexivity.
  - vm_compute. reflexivity.
  - vm_compute. reflexivity.
  - intros u' r' [].
Defined.

(** ** A failed extraction is reported, and only then *)

Section Failures.

Variable e : env.
Variable years : gset Z.

Lemma printed_consume_inv biennium url res a ev :
  In ev (printed (consume_acc years biennium url res a)) ->
  In ev (printed a) \/ (ev = FetchFailed url /\ res = None).
Proof.
  unfold consume_acc. destruct res as [i|].
  - destruct (negb _); [auto|].
    destruct (year i), (bill_number i); auto.
    destruct (negb _); [auto|]. destruct (negb _); [auto|].
    destruct (bool_decide _); auto.
  - simpl. intros H. apply in_app_or in H as [H | [<- | []]]; auto.
Qed.

Lemma printed_drain biennium urls a ev :
  In ev (printed a) -> In ev (printed (drain_acc e years biennium urls a)).
Proof.
  revert a. induction urls as [|x urls IH]; intros a H; [exact H|].
  rewrite drain_cons. now apply IH, printed_consume.
Qed.

Lemma drain_reports biennium urls a u :
  In u urls -> parse_bill_page e u = None ->
  In (FetchFailed u) (printed (drain_acc e years biennium urls a)).
Proof.
  revert a. induction urls as [|x urls IH]; intros a Hu Hp; [destruct Hu|].
  rewrite drain_cons. destruct Hu as [-> | Hu]; [|now apply IH].
  apply printed_drain. rewrite Hp. simpl. apply in_or_app. right. now left.
Qed.

Lemma drain_reports_inv biennium urls a ev :
  In ev (printed (drain_acc e years biennium urls a)) ->
  In ev (printed a) \/
  exists u, ev = FetchFailed u /\ In u urls /\ parse_bill_page e u = None.
Proof.
  revert a. induction urls as [|x urls IH]; intros a H; [now left|].
  rewrite drain_cons in H. apply IH in H as [H | (u & -> & Hu & Hp)].
  - apply printed_consume_inv in H as [H | [-> Hp]]; [now left|].
    right. exists x. split; [reflexivity|]. split; [now left|exact Hp].
  - right. exists u. split; [reflexivity|]. split; [now right|exact Hp].
Qed.

Lemma fold_reports_inv ss a u :
  In (FetchFailed u) (printed (fold_left (scan_session_acc e years) ss a)) ->
  In (FetchFailed u) (printed a) \/
  exists biennium base files,
    In (biennium, base) ss /\ listing e base = Some files /\
    In u (completion e biennium files) /\ parse_bill_page e u = None.
Proof.
  revert a. induction ss as [|[biennium base] ss IH]; intros a H;
    [now left|].
  simpl in H. apply IH in H as [H | (bn & bs & files & Hin & Hrest)].
  2: { right. exists bn, bs, files. split; [now right|exact Hrest]. }
  unfold scan_session_acc, list_bill_files in H. simpl in H.
  destruct (listing e base) as [files|] eqn:El.
  - apply drain_reports_inv in H as [H | (u' & [= <-] & Hu & Hp)].
    + simpl in H. apply in_app_or in H as [H | [[=] | []]]. now left.
    + right. exists biennium, base, files. split; [now left|auto].
  - simpl in H. apply in_app_or in H as [H | [[=] | []]].
    apply in_app_or in H as [H | [[=] | []]]. now left.
Qed.

End Failures.

(** X10.  In the report of a run that returns, a fetch failure is printed
    for a URL exactly when the URL was submitted by a session whose
    listing succeeded and its fetch raised; a run that nothing aborts
    returns, whatever fetch fails. *)
Theorem fetch_failures_reported (e : env) (out_csv : str) (years : gset Z)
    (max_workers : Z) (delay : pyfloat) (u : str) :
  (runs_through e out_csv max_workers delay ->
   exists out, main e out_csv years max_workers delay = Some out) /\
  (forall out,
     main e out_csv years max_workers delay = Some out ->
     (In (FetchFailed u) (output out) <->
      exists biennium base files,
        In (biennium, base) SESSION_FOLDERS /\
        listing e base = Some files /\
        In u (completion e biennium files) /\
        http_get e u = None)).
Proof.
  split; [apply main_runs|]. intros out Hm.
  pose proof (main_inv _ _ _ _ _ _ Hm) as (_ & _ & Ho).
  rewrite Ho. split.
  - intros H. apply in_app_or in H as [H | [[=] | []]].
    apply fold_reports_inv in H
      as [[] | (bn & base & files & H1 & H2 & H3 & H4)].
    exists bn, base, files. rewrite <- parse_none_fetch. auto.
  - intros (bn & base & files & Hs & Hl & Hu & Hg).
    apply in_or_app. left.
    destruct (scan_all_at e years _ _ _ _ Hs Hl) as (ss1 & ss2 & _ & ->).
    apply printed_fold. apply drain_reports; [exact Hu|].
    now apply parse_none_fetch.
Qed.

(** ** The shape of the written rows *)

(** X11.  Every row written by a run that returns has a configured biennium
    label, a year between 2000 and 2099, and a bill number made of the
    prefix and three or four decimal digits (characters of Unicode category
    Nd); a run that nothing aborts returns. *)
Theorem written_rows_well_formed (e : env) (out_csv : str) (years : gset Z)
    (max_workers : Z) (delay : pyfloat) :
  (runs_through e out_csv max_workers delay ->
   exists out, main e out_csv years max_workers delay = Some out) /\
  (forall out,
     main e out_csv years max_workers delay = Some out ->
     forall r, In r (written out) ->
       In (r_biennium r) (map fst SESSION_FOLDERS) /\
       (2000 <= r_year r <= 2099)%Z /\
       exists b,
         r_bill_number r = str_of "HB " ++ b /\
         digits b /\ (3 <= length b <= 4)%nat).
Proof.
  split; [apply main_runs|]. intros out Hm r Hr.
  destruct (written_produced _ _ _ _ _ _ Hm r Hr)
    as (bn & base & files & url & i & y & b & Hs & _ & _ & Hpg & Hq & ->).
  destruct Hq as (Ey & Eb & _).
  cbn [r_biennium r_year r_bill_number make_row]. split; [|split].
  - apply in_map_iff. exists (bn, base). auto.
  - exact (parse_year_bounds e url i y Hpg Ey).
  - exists b. split; [reflexivity|].
    exact (parse_number_digits e url i b Hpg Eb).
Qed.

(** ** The empty report *)

(** X12.  The report of a run that returns is empty exactly when no
    completed document of any session passes the qualification filter; a
    run that nothing aborts returns. *)
Theorem report_empty_iff (e : env) (out_csv : str) (years : gset Z)
    (max_workers : Z) (delay : pyfloat) :
  (runs_through e out_csv max_workers delay ->
   exists out, main e out_csv years max_workers delay = Some out) /\
  (forall out,
     main e out_csv years max_workers delay = Some out ->
     (written out = [] <->
      forall biennium base files u,
        In (biennium, base) SESSION_FOLDERS ->
        listing e base = Some files ->
        In u (completion e biennium files) ->
        candidate e years biennium u = None)).
Proof.
  split; [apply main_runs|]. intros out Hm.
  pose proof (main_inv _ _ _ _ _ _ Hm) as (Hperm & _).
  split.
  - intros Hnil bn base files u Hs Hl Hu.
    destruct (candidate e years bn u) as [[k r]|] eqn:Hc; [|reflexivity].
    destruct (qualifying_row_in_rows e years bn base files u k r
                Hs Hl Hu Hc) as (r' & Hr' & _).
    apply (Permutation_in _ (Permutation_sym Hperm)) in Hr'.
    rewrite Hnil in Hr'. destruct Hr'.
  - intros Hnone. destruct (written out) as [|r l] eqn:Ew; [reflexivity|].
    assert (Hr : In r (rows (scan_all_acc e years SESSION_FOLDERS))).
    { apply (Permutation_in _ Hperm). now left. }
    apply rows_produced in Hr
      as (bn & base & files & url & i & y & b & Hs & Hl & Hu & Hpg & Hq & _).
    pose proof (Hnone bn base files url Hs Hl Hu) as Hc.
    rewrite (qualifies_candidate e years bn url i y b Hpg Hq) in Hc.
    discriminate.
Qed.

(** ** Every session is announced *)

Lemma scanned_app (l1 l2 : list event) :
  scanned (l1 ++ l2) = scanned l1 ++ scanned l2.
Proof.
  induction l1 as [|ev l1 IH]; [reflexivity|].
  destruct ev; simpl; now rewrite IH.
Qed.

Lemma scanned_consume_acc years biennium url res a :
  scanned (printed (consume_acc years biennium url res a)) = scanned (printed a).
Proof.
  destruct (consume_cases years biennium url res a)
    as [-> | [-> | (i & y & b & _ & _ & _ & ->)]]; auto.
  simpl. rewrite scanned_app. simpl. apply app_nil_r.
Qed.

Lemma scanned_drain_acc e years biennium urls a :
  scanned (printed (drain_acc e years biennium urls a)) = scanned (printed a).
Proof.
  revert a. induction urls as [|u urls IH]; intros a; [reflexivity|].
  rewrite drain_cons, IH. apply scanned_consume_acc.
Qed.

Lemma scanned_fold e years ss a :
  scanned (printed (fold_left (scan_session_acc e years) ss a))
  = scanned (printed a) ++ map fst ss.
Proof.
  revert a. induction ss as [|s ss IH]; intros a; simpl;
    [now rewrite app_nil_r|].
  rewrite IH. unfold scan_session_acc.
  destruct (list_bill_files e s.1 s.2).
  - rewrite scanned_drain_acc. simpl. rewrite scanned_app, <- app_assoc.
    reflexivity.
  - simpl. rewrite !scanned_app, <- !app_assoc. reflexivity.
Qed.

(** X13.  In the output of a run that returns, every configured session is
    announced exactly once and in configuration order, whatever listing or
    fetch failed, and the last line printed gives the number of rows
    written; a run that nothing aborts returns. *)
Theorem every_session_announced (e : env) (out_csv : str) (years : gset Z)
    (max_workers : Z) (delay : pyfloat) :
  (runs_through e out_csv max_workers delay ->
   exists out, main e out_csv years max_workers delay = Some out) /\
  (forall out,
     main e out_csv years max_workers delay = Some out ->
     scanned (output out) = map fst SESSION_FOLDERS /\
     List.last (output out) (Wrote 0) = Wrote (length (written out))).
Proof.
  split; [apply main_runs|]. intros out Hm.
  pose proof (main_inv _ _ _ _ _ _ Hm) as (_ & _ & Ho).
  rewrite Ho. split.
  - rewrite scanned_app. unfold scan_all_acc. rewrite scanned_fold. simpl.
    reflexivity.
  - apply last_last.
Qed.

(** ** The summary link identifies the bill *)

Lemma to_int_proper (z : Z) :
  Z.to_int z <> Decimal.Pos Decimal.Nil /\
  Z.to_int z <> Decimal.Neg Decimal.Nil.
Proof.
  destruct z as [|p|p]; simpl; split; try discriminate;
    intros [= H]; exact (DecimalPos.Unsigned.to_uint_nonnil p H).
Qed.

Lemma py_str_inj (y y' : Z) : py_str y = py_str y' -> y = y'.
Proof.
  unfold py_str. intros H. apply str_of_inj in H.
  apply DecimalZ.to_int_inj.
  destruct (to_int_proper y) as [H1 H2].
  destruct (to_int_proper y') as [H1' H2'].
  pose proof (NilZero.isi _ H1 H2) as E.
  pose proof (NilZero.isi _ H1' H2') as E'.
  rewrite H in E. congruence.
Qed.

Lemma summary_template_inj (b b' : str) (y y' : Z) :
  digits b -> digits b' ->
  summary_template b y = summary_template b' y' -> b = b' /\ y = y'.
Proof.
  intros Hd Hd' E. unfold summary_template in E.
  apply app_inv_head in E.
  destruct (run_unique is_digit b b' _ _ 38%N 38%N
              Hd Hd' E eq_refl ltac:(vm_compute; reflexivity)
              eq_refl ltac:(vm_compute; reflexivity)) as [Eb Er].
  split; [exact Eb|].
  apply app_inv_head, app_inv_tail in Er. now apply py_str_inj.
Qed.

(** X14.  Two rows written by a run with the same summary URL have the same
    bill number and the same year; a run that nothing aborts returns. *)
Theorem summary_url_identifies_bill (e : env) (out_csv : str)
    (years : gset Z) (max_workers : Z) (delay : pyfloat) :
  (runs_through e out_csv max_workers delay ->
   exists out, main e out_csv years max_workers delay = Some out) /\
  (forall out,
     main e out_csv years max_workers delay = Some out ->
     forall r1 r2,
       In r1 (written out) -> In r2 (written out) ->
       r_bill_summary_url r1 = r_bill_summary_url r2 ->
       r_bill_number r1 = r_bill_number r2 /\ r_year r1 = r_year r2).
Proof.
  split; [apply main_runs|]. intros out Hm r1 r2 H1 H2.
  destruct (written_produced _ _ _ _ _ _ Hm r1 H1)
    as (bn & base & files & url & i & y & b & _ & _ & _ & Hpg & Hq & ->).
  destruct (written_produced _ _ _ _ _ _ Hm r2 H2)
    as (bn' & base' & files' & url' & i' & y' & b' & _ & _ & _ & Hpg' & Hq'
        & ->).
  destruct Hq as (_ & Eb & Hy & Hb & _).
  destruct Hq' as (_ & Eb' & Hy' & Hb' & _).
  cbn [r_bill_summary_url r_bill_number r_year make_row].
  rewrite (summary_of_row b y Hb Hy), (summary_of_row b' y' Hb' Hy').
  intros E.
  destruct (summary_template_inj b b' y y') as [-> ->]; auto.
  - exact (proj1 (parse_number_digits e url i b Hpg Eb)).
  - exact (proj1 (parse_number_digits e url' i' b' Hpg' Eb')).
Qed.

(** ** The year argument *)

Lemma years_of_items_spec (e : env) (items : list str) :
  match years_of_items e items with
  | Some ys =>
      (forall n, n ∈ ys <->
         exists y, In y items /\ strip y <> [] /\
                   py_int e (strip y) = Some n) /\
      (forall y, In y items -> strip y <> [] ->
                 py_int e (strip y) <> None)
  | None =>
      exists y, In y items /\ strip y <> [] /\
                py_int e (strip y) = None
  end.
Proof.
  induction items as [|y tl IH]; cbn [years_of_items].
  - split; [|intros y []]. intros n.
    split; [intros H; now apply not_elem_of_empty in H|].
    intros (y & [] & _).
  - destruct (strip y) as [|c0 s0] eqn:Es.
    + destruct (years_of_items e tl) as [ys|].
      * destruct IH as [IH1 IH2]. split.
        -- intros n. rewrite IH1. split.
           ++ intros (y' & Hin & H). exists y'. split; [now right|exact H].
           ++ intros (y' & [<- | Hin] & Hn & H); [congruence|eauto].
        -- intros y' [<- | Hin] Hn; [congruence|now apply IH2].
      * destruct IH as (y' & Hin & H). exists y'. split; [now right|exact H].
    + destruct (py_int e (c0 :: s0)) as [n0|] eqn:En.
      * destruct (years_of_items e tl) as [ys|].
        -- destruct IH as [IH1 IH2]. split.
           ++ intros n. rewrite elem_of_union, elem_of_singleton, IH1. split.
              ** intros [-> | (y' & Hin & H)].
                 --- exists y. rewrite Es. split; [now left|].
                     split; [discriminate|exact En].
                 --- exists y'. split; [now right|exact H].
              ** intros (y' & [<- | Hin] & Hn & H);
                   [left; rewrite Es in H; congruence|eauto].
           ++ intros y' [<- | Hin] Hn; [rewrite Es; congruence|now apply IH2].
        -- destruct IH as (y' & Hin & H). exists y'.
           split; [now right|exact H].
      * exists y. rewrite Es. split; [now left|].
        split; [discriminate|exact En].
Qed.

(** X15.  The year filter built from the [--years] argument holds exactly
    the numbers that [int] reads from its non-blank comma-separated items,
    stripped of surrounding whitespace; building it raises exactly when
    [int] rejects some non-blank item. *)
Theorem years_of_arg_spec (e : env) (arg : str) :
  match years_of_arg e arg with
  | Some ys =>
      (forall n, n ∈ ys <-> names_year e arg n) /\ ~ has_bad_item e arg
  | None => has_bad_item e arg
  end.
Proof.
  pose proof (years_of_items_spec e (split_on 44%N arg)) as H.
  unfold years_of_arg. destruct (years_of_items _ _) as [ys|]; [|exact H].
  destruct H as [H1 H2]. split; [exact H1|].
  intros (y & Hin & Hn & Hb). exact (H2 y Hin Hn Hb).
Qed.

(** ** A blank argument *)

Lemma split_on_nonempty sep l : split_on sep l <> [].
Proof.
  destruct l as [|c tl]; simpl; [discriminate|].
  destruct (N.eqb c sep); [discriminate|].
  destruct (split_on sep tl); discriminate.
Qed.

Lemma split_on_blank (l : str) :
  forallb (fun c => is_space c || N.eqb c 44) l = true ->
  forall y, In y (split_on 44%N l) -> forallb is_space y = true.
Proof.
  induction l as [|c tl IH]; simpl; intros H y Hy.
  - destruct Hy as [<- | []]. reflexivity.
  - apply andb_prop in H as [Hc H].
    destruct (N.eqb c 44) eqn:Ec.
    + destruct Hy as [<- | Hy]; [reflexivity|now apply IH].
    + rewrite orb_false_r in Hc.
      destruct (split_on 44%N tl) as [|w ws] eqn:Es;
        [now destruct (split_on_nonempty 44%N tl)|].
      destruct Hy as [<- | Hy].
      * simpl. rewrite Hc. apply IH; [exact H|now left].
      * apply IH; [exact H|now right].
Qed.

Lemma strip_blank (l : str) : forallb is_space l = true -> strip l = [].
Proof.
  intros H. unfold strip.
  assert (E : strip_left l = []).
  { induction l as [|c l IH]; [reflexivity|]. simpl in H |- *.
    apply andb_prop in H as [-> H]. now apply IH. }
  now rewrite E.
Qed.

Lemma years_of_blank_items (e : env) (items : list str) :
  (forall y, In y items -> forallb is_space y = true) ->
  years_of_items e items = Some ∅.
Proof.
  induction items as [|y tl IH]; intros H; [reflexivity|].
  cbn [years_of_items].
  rewrite (strip_blank y (H y (or_introl eq_refl))).
  apply IH. intros y' Hy'. apply H. now right.
Qed.

Lemma no_years_no_rows (e : env) (sessions : list (str * str)) :
  rows (scan_all_acc e ∅ sessions) = [].
Proof.
  destruct (rows (scan_all_acc e ∅ sessions)) as [|r l] eqn:E;
    [reflexivity|].
  assert (Hr : In r (rows (scan_all_acc e ∅ sessions)))
    by (rewrite E; now left).
  apply rows_produced in Hr
    as (bn & base & files & url & i & y & b & _ & _ & _ & _ & Hq & _).
  destruct Hq as (_ & _ & _ & _ & Hy & _). now apply not_elem_of_empty in Hy.
Qed.

(** X16.  A [--years] argument made of whitespace and commas only gives the
    empty filter.  The run then writes no row and never pauses: it returns
    exactly when a pool can be built for every session whose listing is
    fetched and the output file can be opened. *)
Theorem blank_years_arg (e : env) (out_csv arg : str) (max_workers : Z)
    (delay : pyfloat) :
  forallb (fun c => is_space c || N.eqb c 44) arg = true ->
  years_of_arg e arg = Some ∅ /\
  found (script e out_csv arg max_workers delay)
  = pool_fine e max_workers SESSION_FOLDERS && found (open_csv e out_csv) /\
  (forall out,
     script e out_csv arg max_workers delay = Some out ->
     written out = []).
Proof.
  intros H.
  assert (E : years_of_arg e arg = Some ∅)
    by (apply years_of_blank_items, split_on_blank, H).
  split; [exact E|]. unfold script. rewrite E. split.
  - unfold main. rewrite main_with_returns, no_years_no_rows.
    now rewrite andb_true_r.
  - intros out Hm. pose proof (main_inv _ _ _ _ _ _ Hm) as (Hp & _).
    rewrite no_years_no_rows in Hp. now apply Permutation_sym, Permutation_nil in Hp.
Qed.

Lemma blank_years_arg_witness :
  years_of_arg two_bills_env ([0xA0; 0x2003]%N ++ str_of " , ,,") = Some ∅ /\
  found (script two_bills_env default_out
           ([0xA0; 0x2003]%N ++ str_of " , ,,") 8 no_delay)
  = pool_fine two_bills_env 8 SESSION_FOLDERS
    && found (open_csv two_bills_env default_out) /\
  (forall out,
     script two_bills_env default_out
       ([0xA0; 0x2003]%N ++ str_of " , ,,") 8 no_delay = Some out ->
     written out = []).
Proof.
  apply (blank_years_arg two_bills_env default_out
           ([0xA0; 0x2003]%N ++ str_of " , ,,") 8 no_delay).
  vm_compute. reflexivity.
Defined.

(** ** The script and the year argument *)

(** X17.  The script raises when [int] rejects a non-blank item of the
    [--years] argument.  When it returns, no item is refused and every
    written row has a year named in the argument.  When no item is
    refused and nothing aborts the run, it returns. *)
Theorem script_years (e : env) (out_csv arg : str) (max_workers : Z)
    (delay : pyfloat) :
  (has_bad_item e arg ->
   script e out_csv arg max_workers delay = None) /\
  (forall out,
     script e out_csv arg max_workers delay = Some out ->
     ~ has_bad_item e arg /\
     forall r, In r (written out) -> names_year e arg (r_year r)) /\
  (~ has_bad_item e arg ->
   runs_through e out_csv max_workers delay ->
   exists out, script e out_csv arg max_workers delay = Some out).
Proof.
  unfold script, has_bad_item, names_year, years_of_arg.
  pose proof (years_of_items_spec e (split_on 44%N arg)) as H.
  destruct (years_of_items _ _) as [ys|].
  - destruct H as [H1 H2].
    assert (Hgood : ~ (exists y, In y (split_on 44%N arg) /\ strip y <> [] /\
                                 py_int e (strip y) = None))
      by (intros (y0 & Hin & Hn & Hb); exact (H2 y0 Hin Hn Hb)).
    split; [intros Hbad; contradiction|]. split.
    + intros out Hm. split; [exact Hgood|]. intros r Hr.
      destruct (written_produced _ _ _ _ _ _ Hm r Hr)
        as (bn & base & files & url & i & y & b & _ & _ & _ & _ & Hq & ->).
      destruct Hq as (_ & _ & _ & _ & Hy & _). simpl. now apply H1.
    + intros _. apply main_runs.
  - split; [reflexivity|]. split; [discriminate|].
    intros Hgood. contradiction.
Qed.

(** ** A URL completed twice *)

(** X18.  Draining a URL again after the futures that include it adds no
    row and no key, and aborts only if draining the others already did. *)
Theorem duplicate_completion_adds_nothing (e : env) (years : gset Z)
    (delay : pyfloat) (biennium : str) (urls : list str) (u : str)
    (a : acc) :
  In u urls ->
  option_map rows (drain e years delay biennium (urls ++ [u]) a)
  = option_map rows (drain e years delay biennium urls a) /\
  option_map seen (drain e years delay biennium (urls ++ [u]) a)
  = option_map seen (drain e years delay biennium urls a).
Proof.
  intros Hu.
  assert (H : rows (drain_acc e years biennium (urls ++ [u]) a)
              = rows (drain_acc e years biennium urls a) /\
              seen (drain_acc e years biennium (urls ++ [u]) a)
              = seen (drain_acc e years biennium urls a)).
  { rewrite drain_app.
    set (a1 := drain_acc e years biennium urls a).
    change (drain_acc e years biennium [u] a1)
      with (consume_acc years biennium u (parse_bill_page e u) a1).
    pose proof (consume_candidate e years biennium u a1) as H.
    destruct (candidate e years biennium u) as [[k r]|] eqn:Hc; [|exact H].
    assert (Hk : k ∈ seen a1) by (eapply drain_covers; eauto).
    now rewrite (bool_decide_eq_true_2 _ Hk) in H. }
  destruct H as [Hr Hs]. rewrite !drain_spec_opt, Hr.
  destruct (_ || _); simpl; [|auto]. now rewrite Hr, Hs.
Qed.

Lemma duplicate_completion_witness :
  option_map rows
    (drain two_bills_env DEFAULT_YEARS no_delay (str_of "2023-24")
       ([base_2023 ++ str_of "1181.htm"; base_2023 ++ str_of "1200.htm"]
        ++ [base_2023 ++ str_of "1181.htm"]) (Acc [] ∅ []))
  = option_map rows
      (drain two_bills_env DEFAULT_YEARS no_delay (str_of "2023-24")
         [base_2023 ++ str_of "1181.htm"; base_2023 ++ str_of "1200.htm"]
         (Acc [] ∅ [])) /\
  option_map seen
    (drain two_bills_env DEFAULT_YEARS no_delay (str_of "2023-24")
       ([base_2023 ++ str_of "1181.htm"; base_2023 ++ str_of "1200.htm"]
        ++ [base_2023 ++ str_of "1181.htm"]) (Acc [] ∅ []))
  = option_map seen
      (drain two_bills_env DEFAULT_YEARS no_delay (str_of "2023-24")
         [base_2023 ++ str_of "1181.htm"; base_2023 ++ str_of "1200.htm"]
         (Acc [] ∅ [])).
Proof.
  apply (duplicate_completion_adds_nothing two_bills_env DEFAULT_YEARS
           no_delay).
  left. reflexivity.
Defined.

(** ** Runs that abort *)

Lemma found_false {A : Type} (o : option A) : found o = false -> o = None.
Proof. destruct o; [discriminate|reflexivity]. Qed.

Lemma pool_fine_listed (e : env) (max_workers : Z)
    (sessions : list (str * str)) (biennium base : str) (files : list str) :
  (max_workers <= 0)%Z ->
  In (biennium, base) sessions -> listing e base = Some files ->
  pool_fine e max_workers sessions = false.
Proof.
  intros Hw Hin Hl. unfold pool_fine.
  destruct (Z.ltb_spec 0 max_workers) as [H|_]; [lia|]. cbn [orb].
  apply not_true_is_false. intros H.
  rewrite forallb_forall in H. specialize (H _ Hin). cbn [snd] in H.
  now rewrite Hl in H.
Qed.

(** X19.  With a pool size that is not positive the run raises as soon as
    the listing of one session is fetched: nothing is written. *)
Theorem nonpositive_workers_abort (e : env) (out_csv : str) (years : gset Z)
    (max_workers : Z) (delay : pyfloat) (biennium base : str)
    (files : list str) :
  (max_workers <= 0)%Z ->
  In (biennium, base) SESSION_FOLDERS ->
  listing e base = Some files ->
  main e out_csv years max_workers delay = None.
Proof.
  intros Hw Hin Hl. apply found_false. unfold main.
  rewrite main_with_returns.
  now rewrite (pool_fine_listed e max_workers _ _ _ _ Hw Hin Hl).
Qed.

Lemma nonpositive_workers_witness :
  main one_session_env default_out DEFAULT_YEARS 0 no_delay = None.
Proof.
  apply (nonpositive_workers_abort one_session_env default_out DEFAULT_YEARS
           0 no_delay (str_of "2023-24") base_2023
           [base_2023 ++ str_of "1181.htm"]).
  - lia.
  - left. reflexivity.
  - vm_compute. reflexivity.
Defined.

(** X20.  When the delay is positive and [time.sleep] raises for it, the
    run raises at the first row it appends: a run that returns has written
    no row, and a run in which some completed document passes the
    qualification filter does not return. *)
Theorem failing_pause_aborts (e : env) (out_csv : str) (years : gset Z)
    (max_workers : Z) (delay : pyfloat) :
  float_pos delay = true ->
  sleep e delay = None ->
  (forall out,
     main e out_csv years max_workers delay = Some out ->
     written out = []) /\
  (forall biennium base files u k r,
     In (biennium, base) SESSION_FOLDERS ->
     listing e base = Some files ->
     In u (completion e biennium files) ->
     candidate e years biennium u = Some (k, r) ->
     main e out_csv years max_workers delay = None).
Proof.
  intros Hpos Hsleep.
  assert (Hp : can_pause e delay = false)
    by (unfold can_pause; now rewrite Hpos, Hsleep).
  assert (H : forall out,
             main e out_csv years max_workers delay = Some out ->
             rows (scan_all_acc e years SESSION_FOLDERS) = []).
  { intros out Hm.
    assert (Hf : found (main e out_csv years max_workers delay) = true)
      by now rewrite Hm.
    unfold main in Hf. rewrite main_with_returns, Hp, orb_false_r in Hf.
    apply andb_prop in Hf as [Hf _]. apply andb_prop in Hf as [_ Hf].
    now apply bool_decide_eq_true_1 in Hf. }
  split.
  - intros out Hm. pose proof (main_inv _ _ _ _ _ _ Hm) as (Hperm & _).
    rewrite (H out Hm) in Hperm.
    now apply Permutation_sym, Permutation_nil in Hperm.
  - intros bn base files u k r Hs Hl Hu Hc.
    destruct (main e out_csv years max_workers delay) as [out|] eqn:Hm;
      [|reflexivity].
    destruct (qualifying_row_in_rows e years bn base files u k r
                Hs Hl Hu Hc) as (r' & Hr' & _).
    rewrite (H out eq_refl) in Hr'. destruct Hr'.
Qed.

Lemma failing_pause_witness :
  (forall out,
     main no_sleep_env default_out DEFAULT_YEARS 8 long_delay = Some out ->
     written out = []) /\
  (forall biennium base files u k r,
     In (biennium, base) SESSION_FOLDERS ->
     listing no_sleep_env base = Some files ->
     In u (completion no_sleep_env biennium files) ->
     candidate no_sleep_env DEFAULT_YEARS biennium u = Some (k, r) ->
     main no_sleep_env default_out DEFAULT_YEARS 8 long_delay = None).
Proof.
  apply (failing_pause_aborts no_sleep_env default_out DEFAULT_YEARS 8
           long_delay); reflexivity.
Defined.

(** ** The example worlds at work *)

Lemma example_runs_through :
  runs_through two_bills_env default_out 8 no_delay.
Proof.
  split; [lia|]. split; [discriminate|reflexivity].
Qed.

(** The bill of 2023 completes last and is written first. *)
Lemma example_sorted_report :
  option_map (fun o => map row_triple (written o))
    (main (reorder two_bills_env in_order) default_out DEFAULT_YEARS 8
       no_delay)
  = Some [ (str_of "2023-24", 2023%Z, str_of "HB 1200");
           (str_of "2023-24", 2024%Z, str_of "HB 1181") ].
Proof. vm_compute. reflexivity. Qed.
